(** * Hero e-catalogue scraper: checkpointed orchestration and canonical store

    A shallow embedding of the scraper's core (scraper/store.py,
    scraper/pipeline.py, scraper/aggregates.py, scraper/catalogue.py and
    run.py) together with the properties its specification states.

    Conventions of the embedding.
    - SQLite tables with a primary key are finite maps; the [parts] table
      is a list in rowid order.  A group is read through the unique index
      on the six identity columns, so rows that tie in the [ORDER BY] come
      back in the order of the index.
    - The CSV and Parquet shards are the logical list of their rows
      ([None] when the file does not exist).  The textual encoding of the
      files is not modelled, except that a CSV cell spelled as one of the
      reader's NA markers is read back empty; Parquet is read back as
      written.
    - The wall-clock columns ([updated_at], [created_at]) are left out: no
      code path reads them back.
    - The page-rendering collaborators (catalogue listing, group discovery,
      parts extraction) are records giving the outcome of each call; a
      Python exception is a value of [exn], and a function that can raise
      after changing the state returns the state together with the outcome.
    - Strings are sequences of code points below 256.
    - Log lines that mark a control-flow decision are kept as an event
      trace of the pipeline object; [prev_model], which the group discovery
      receives and does not use, is left out. *)

From Stdlib Require Import ZArith Ascii String List Lia Sorting.Sorted Permutation.
From stdpp Require Import base option list gmap strings pretty.

Local Open Scope string_scope.
Local Open Scope list_scope.

(* ===================================================================== *)
(** * Python values *)

(** Exceptions raised and caught on the modelled paths. *)
Inductive exn : Type :=
| AttributeError (msg : string)
| IndexError (msg : string)
| Exception (msg : string).

(** [str(e)] *)
Definition exn_str (e : exn) : string :=
  match e with
  | AttributeError m | IndexError m | Exception m => m
  end.

Inductive result (A : Type) : Type :=
| Ok (a : A)
| Raise (e : exn).
Arguments Ok {A} a.
Arguments Raise {A} e.

#[global] Instance exn_eq_dec : EqDecision exn.
Proof. solve_decision. Defined.

(* ===================================================================== *)
(** * Text helpers ([str.strip], [str.upper], [str.startswith]) *)

Module Text.

(** [x or ""] for an optional string. *)
Definition or_empty (o : option string) : string :=
  match o with
  | Some s => s
  | None => ""
  end.

(** [str.isspace] on the code points below 256: TAB..CR, FS..US, space,
    NEL and NBSP. *)
Definition isspace (c : ascii) : bool :=
  let n := nat_of_ascii c in
  ((9 <=? n)%nat && (n <=? 13)%nat) || ((28 <=? n)%nat && (n <=? 32)%nat)
  || (n =? 133)%nat || (n =? 160)%nat.

Fixpoint lstrip (s : string) : string :=
  match s with
  | "" => ""
  | String c r => if isspace c then lstrip r else s
  end.

Fixpoint rstrip (s : string) : string :=
  match s with
  | "" => ""
  | String c r =>
      match rstrip r with
      | "" => if isspace c then "" else String c ""
      | r' => String c r'
      end
  end.

Definition strip (s : string) : string := rstrip (lstrip s).

(** Upper-casing of the ASCII letters; the tokens compared against are
    ASCII, and no other code point upper-cases to ['E'], ['F'] or ['-']. *)
Definition upper_char (c : ascii) : ascii :=
  let n := nat_of_ascii c in
  if (97 <=? n)%nat && (n <=? 122)%nat then ascii_of_nat (n - 32) else c.

Fixpoint upper (s : string) : string :=
  match s with
  | "" => ""
  | String c r => String (upper_char c) (upper r)
  end.

Definition startswith (s p : string) : bool := String.prefix p s.

End Text.

(* ===================================================================== *)
(** * aggregates.py: group-type inference *)

Definition _infer_group_type (table_no group_code : option string)
    (fallback : string) : string :=
  let tn := Text.upper (Text.strip (Text.or_empty table_no)) in
  let gc := Text.upper (Text.strip (Text.or_empty group_code)) in
  if Text.startswith tn "E-" || Text.startswith gc "E-" then "ENGINE"
  else if Text.startswith tn "F-" || Text.startswith gc "F-" then "FRAME"
  else fallback.

(** The classification as the specification words it: the tokens are
    upper-cased (nothing is said about surrounding blanks) and tested for
    the two prefixes. *)
Definition spec_infer_group_type (table_no group_code : option string)
    (fallback : string) : string :=
  let tn := Text.upper (Text.or_empty table_no) in
  let gc := Text.upper (Text.or_empty group_code) in
  if Text.startswith tn "E-" || Text.startswith gc "E-" then "ENGINE"
  else if Text.startswith tn "F-" || Text.startswith gc "F-" then "FRAME"
  else fallback.

(** A character-level reading of "the token, blanks aside, begins with the
    letter [c] (either case) followed by a dash". [c] is the capital. *)
Fixpoint leads_with (c : ascii) (s : string) : bool :=
  match s with
  | "" => false
  | String a r =>
      if Text.isspace a then leads_with c r
      else match r with
           | String b _ =>
               bool_decide (Text.upper_char a = c) && bool_decide (b = "-"%char)
           | "" => false
           end
  end.

(* ===================================================================== *)
(** * datamodel.py *)

Module Vehicle.
Record t : Type := mk {
  vehicle_id : string;
  vehicle_name : string;
  model_code : string;
  source_url : string }.
End Vehicle.

Module TableIndex.
Record t : Type := mk {
  vehicle_id : string;
  group_type : string;
  s_no : string;
  table_no : string;
  group_desc : string;
  group_code : string;
  variant : option string;
  aggregates_url : string }.
End TableIndex.

Module PartsPage.
Record t : Type := mk {
  vehicle_id : string;
  group_type : string;
  table_no : string;
  group_code : string;
  parts_page_url : string;
  image_path : option string }.
End PartsPage.

Module PartRow.
Record t : Type := mk {
  vehicle_id : string;
  group_type : string;
  table_no : string;
  group_code : string;
  ref_no : string;
  part_no : string;
  description : string;
  remark : string;
  req_no : string;
  moq : string;
  mrp : string }.
End PartRow.

(** A row with the seventeen columns of [PART_ROW_HEADERS]: the dictionaries
    built by [convert_parts_to_dict_list] and the rows of the output
    shards. *)
Module Row.
Record t : Type := mk {
  vehicle_id : string;
  vehicle_name : string;
  model_code : string;
  group_type : string;
  table_no : string;
  group_code : string;
  group_desc : string;
  ref_no : string;
  part_no : string;
  description : string;
  remark : string;
  req_no : string;
  moq : string;
  mrp : string;
  image_path : string;
  parts_page_url : string;
  source_url : string }.
End Row.

(** A row of the SQLite table [parts], with the fourteen columns that
    [upsert_part_rows] writes and [_fetch_group_df] selects.  (The table
    also has the columns vehicle_name, model_code, group_desc and
    created_at, which neither statement touches.) *)
Module Parts.
Record t : Type := mk {
  vehicle_id : string;
  group_type : string;
  table_no : string;
  group_code : string;
  ref_no : string;
  part_no : string;
  description : string;
  remark : string;
  req_no : string;
  moq : string;
  mrp : string;
  image_path : string;
  parts_page_url : string;
  source_url : string }.

(** The columns of the unique index [parts_unique_idx]. *)
Definition identity (r : t) : string * string * string * string * string * string :=
  (vehicle_id r, group_type r, table_no r, group_code r, ref_no r, part_no r).

(** [DO UPDATE SET ... = excluded....]: the eight listed columns are taken
    from the submitted row [new]; the others stay as stored in [old]. *)
Definition do_update (old new : t) : t :=
  {| vehicle_id := vehicle_id old; group_type := group_type old;
     table_no := table_no old; group_code := group_code old;
     ref_no := ref_no old; part_no := part_no old;
     description := description new; remark := remark new;
     req_no := req_no new; moq := moq new; mrp := mrp new;
     image_path := image_path new; parts_page_url := parts_page_url new;
     source_url := source_url new |}.
End Parts.

(** The key of a work unit: (vehicle_id, group_type, table_no, group_code). *)
Abbreviation Key := (string * string * string * string)%type.

Module Checkpoint.
Inductive status : Type := pending | done | error.

Record t : Type := mk {
  state : status;
  row_count : option nat;
  image_saved : bool;
  last_error : option string }.
End Checkpoint.

#[global] Instance status_eq_dec : EqDecision Checkpoint.status.
Proof. solve_decision. Defined.
#[global] Instance checkpoint_eq_dec : EqDecision Checkpoint.t.
Proof. solve_decision. Defined.
#[global] Instance vehicle_eq_dec : EqDecision Vehicle.t.
Proof. solve_decision. Defined.
#[global] Instance row_eq_dec : EqDecision Row.t.
Proof. solve_decision. Defined.
#[global] Instance parts_eq_dec : EqDecision Parts.t.
Proof. solve_decision. Defined.

(* ===================================================================== *)
(** * SQLite expressions used by the queries *)

Module SQLite.

(** [sqlite3Isspace]: TAB, LF, VT, FF, CR and space. *)
Definition isspace (c : ascii) : bool :=
  let n := nat_of_ascii c in
  ((9 <=? n)%nat && (n <=? 13)%nat) || (n =? 32)%nat.

Definition isdigit (c : ascii) : bool :=
  let n := nat_of_ascii c in (48 <=? n)%nat && (n <=? 57)%nat.

Fixpoint skip_spaces (s : string) : string :=
  match s with
  | "" => ""
  | String c r => if isspace c then skip_spaces r else s
  end.

(** Value of the longest run of decimal digits at the head of [s]. *)
Fixpoint digits (s : string) (acc : Z) : Z :=
  match s with
  | "" => acc
  | String c r =>
      if isdigit c
      then digits r (10 * acc + Z.of_nat (nat_of_ascii c - 48))%Z
      else acc
  end.

(** [CAST(s AS INT)] on a TEXT value: leading blanks are skipped, then the
    longest prefix that reads as a signed decimal integer is converted;
    the result is 0 when there is no such prefix, and it saturates at the
    bounds of a 64-bit signed integer. *)
Definition cast_int (s : string) : Z :=
  let t := skip_spaces s in
  let v := match t with
           | String "-" r => (- digits r 0)%Z
           | String "+" r => digits r 0
           | _ => digits t 0
           end in
  Z.max (- 2 ^ 63) (Z.min v (2 ^ 63 - 1)).

(** [CAST(NULLIF(s, '') AS INT)]: NULL (here [None]) exactly for the empty
    string. *)
Definition cast_nullif_empty (s : string) : option Z :=
  if bool_decide (s = "") then None else Some (cast_int s).

(** Ascending order with [NULLS LAST]. *)
Definition nulls_last_compare (a b : option Z) : comparison :=
  match a, b with
  | Some x, Some y => (x ?= y)%Z
  | Some _, None => Lt
  | None, Some _ => Gt
  | None, None => Eq
  end.

End SQLite.

(* ===================================================================== *)
(** * store.py: the persistent state behind [DataStore] *)

(** The SQLite file (tables [checkpoints], [vehicles], [parts_pages],
    [parts]) and the two output shards [config.CSV_OUTPUT] and
    [config.PARQUET_OUTPUT]. *)
Record DataStore : Type := mkDataStore {
  checkpoints : gmap Key Checkpoint.t;
  vehicles : gmap string Vehicle.t;
  parts_pages : gmap Key (string * string);
  parts : list Parts.t;
  CSV_OUTPUT : option (list Row.t);
  PARQUET_OUTPUT : option (list Row.t) }.

Definition set_checkpoints (c : gmap Key Checkpoint.t) (st : DataStore) : DataStore :=
  mkDataStore c (vehicles st) (parts_pages st) (parts st) (CSV_OUTPUT st) (PARQUET_OUTPUT st).
Definition set_vehicles (v : gmap string Vehicle.t) (st : DataStore) : DataStore :=
  mkDataStore (checkpoints st) v (parts_pages st) (parts st) (CSV_OUTPUT st) (PARQUET_OUTPUT st).
Definition set_parts_pages (pp : gmap Key (string * string)) (st : DataStore) : DataStore :=
  mkDataStore (checkpoints st) (vehicles st) pp (parts st) (CSV_OUTPUT st) (PARQUET_OUTPUT st).
Definition set_parts (l : list Parts.t) (st : DataStore) : DataStore :=
  mkDataStore (checkpoints st) (vehicles st) (parts_pages st) l (CSV_OUTPUT st) (PARQUET_OUTPUT st).
Definition set_CSV_OUTPUT (f : option (list Row.t)) (st : DataStore) : DataStore :=
  mkDataStore (checkpoints st) (vehicles st) (parts_pages st) (parts st) f (PARQUET_OUTPUT st).
Definition set_PARQUET_OUTPUT (f : option (list Row.t)) (st : DataStore) : DataStore :=
  mkDataStore (checkpoints st) (vehicles st) (parts_pages st) (parts st) (CSV_OUTPUT st) f.

(** A freshly initialised database and no shard on disk. *)
Definition empty_store : DataStore := mkDataStore ∅ ∅ ∅ [] None None.

(** ** Checkpoints *)

Definition checkpoint_status (st : DataStore) (key : Key) : option Checkpoint.status :=
  Checkpoint.state <$> checkpoints st !! key.

(** [INSERT OR REPLACE ... VALUES (..., 'done', row_count, image_saved, NULL, now)] *)
Definition checkpoint_mark_done (st : DataStore) (key : Key) (row_count : nat)
    (image_saved : bool) : DataStore :=
  set_checkpoints
    (<[key := Checkpoint.mk Checkpoint.done (Some row_count) image_saved None]>
       (checkpoints st)) st.

(** [INSERT OR REPLACE ... VALUES (..., 'error', NULL, 0, error, now)] *)
Definition checkpoint_mark_error (st : DataStore) (key : Key) (error : string) : DataStore :=
  set_checkpoints
    (<[key := Checkpoint.mk Checkpoint.error None false (Some error)]>
       (checkpoints st)) st.

(** [INSERT OR REPLACE ... VALUES (..., 'pending', NULL, 0, NULL, now)] *)
Definition checkpoint_mark_pending (st : DataStore) (key : Key) : DataStore :=
  set_checkpoints
    (<[key := Checkpoint.mk Checkpoint.pending None false None]> (checkpoints st)) st.

(** ** Vehicles and parts pages *)

Definition save_vehicle (st : DataStore) (vehicle : Vehicle.t) : DataStore :=
  set_vehicles (<[Vehicle.vehicle_id vehicle := vehicle]> (vehicles st)) st.

Definition upsert_parts_page (st : DataStore) (parts_page : PartsPage.t) : DataStore :=
  set_parts_pages
    (<[(PartsPage.vehicle_id parts_page, PartsPage.group_type parts_page,
        PartsPage.table_no parts_page, PartsPage.group_code parts_page)
       := (PartsPage.parts_page_url parts_page,
           Text.or_empty (PartsPage.image_path parts_page))]> (parts_pages st)) st.

Definition save_parts_page (st : DataStore) (parts_page : PartsPage.t) : DataStore :=
  upsert_parts_page st parts_page.

(** ** Canonical part rows *)

(** The tuple bound to the fourteen placeholders of the INSERT. *)
Definition insert_values (d : Row.t) : Parts.t :=
  {| Parts.vehicle_id := Row.vehicle_id d; Parts.group_type := Row.group_type d;
     Parts.table_no := Row.table_no d; Parts.group_code := Row.group_code d;
     Parts.ref_no := Row.ref_no d; Parts.part_no := Row.part_no d;
     Parts.description := Row.description d; Parts.remark := Row.remark d;
     Parts.req_no := Row.req_no d; Parts.moq := Row.moq d; Parts.mrp := Row.mrp d;
     Parts.image_path := Row.image_path d;
     Parts.parts_page_url := Row.parts_page_url d;
     Parts.source_url := Row.source_url d |}.

(** One [INSERT ... ON CONFLICT (identity) DO UPDATE] against the table: the
    stored row with the same identity is updated where it stands, otherwise
    the new row gets the next rowid. *)
Fixpoint upsert_row (r : Parts.t) (table : list Parts.t) : list Parts.t :=
  match table with
  | [] => [r]
  | x :: rest =>
      if bool_decide (Parts.identity x = Parts.identity r)
      then Parts.do_update x r :: rest
      else x :: upsert_row r rest
  end.

(** [executemany]: the rows are submitted in order. *)
Definition executemany_upsert (rows : list Parts.t) (table : list Parts.t) : list Parts.t :=
  fold_left (fun tbl r => upsert_row r tbl) rows table.

Definition upsert_part_rows (st : DataStore) (dict_rows : list Row.t) : DataStore * nat :=
  match dict_rows with
  | [] => (st, 0)
  | _ => (set_parts (executemany_upsert (insert_values <$> dict_rows) (parts st)) st,
          length dict_rows)
  end.

(** ** Group read-back *)

Definition in_group (key : Key) (r : Parts.t) : bool :=
  bool_decide ((Parts.vehicle_id r, Parts.group_type r, Parts.table_no r,
                Parts.group_code r) = key).

(** [ORDER BY CAST(NULLIF(ref_no, '') AS INT) NULLS LAST, ref_no]: [a] may
    come before [b]. The second term uses the BINARY collation. *)
Definition order_by_leb (a b : Parts.t) : bool :=
  match SQLite.nulls_last_compare (SQLite.cast_nullif_empty (Parts.ref_no a))
                                  (SQLite.cast_nullif_empty (Parts.ref_no b)) with
  | Lt => true
  | Gt => false
  | Eq => String.leb (Parts.ref_no a) (Parts.ref_no b)
  end.

Fixpoint order_insert (x : Parts.t) (sorted : list Parts.t) : list Parts.t :=
  match sorted with
  | [] => [x]
  | y :: rest => if order_by_leb x y then x :: sorted else y :: order_insert x rest
  end.

(** The sorter keeps rows with equal sort keys in the order in which the
    scan delivers them. *)
Definition order_by (rows : list Parts.t) : list Parts.t :=
  foldr order_insert [] rows.

(** The scan behind the [WHERE] clause.  The four equalities are answered
    from [parts_unique_idx], whose remaining columns are [ref_no] and
    [part_no]: the rows of a group are delivered in the order of the index,
    by [ref_no] and then by [part_no] (BINARY collation), and not in rowid
    order. *)
Definition index_leb (a b : Parts.t) : bool :=
  match String.compare (Parts.ref_no a) (Parts.ref_no b) with
  | Lt => true
  | Gt => false
  | Eq => String.leb (Parts.part_no a) (Parts.part_no b)
  end.

Fixpoint index_insert (x : Parts.t) (sorted : list Parts.t) : list Parts.t :=
  match sorted with
  | [] => [x]
  | y :: rest => if index_leb x y then x :: sorted else y :: index_insert x rest
  end.

Definition index_scan (rows : list Parts.t) : list Parts.t :=
  foldr index_insert [] rows.

Definition _fetch_group_df (st : DataStore) (vehicle_id group_type table_no group_code : string)
  : list Parts.t :=
  order_by
    (index_scan
       (filter (fun r => in_group (vehicle_id, group_type, table_no, group_code) r = true)
          (parts st))).

(** ** Shard writers *)

Definition convert_parts_to_dict_list (vehicle : Vehicle.t) (table_index : TableIndex.t)
    (parts_page : option PartsPage.t) (part_rows : list PartRow.t) : result (list Row.t) :=
  match part_rows, parts_page with
  | [], _ => Ok []
  | _ :: _, None =>
      (* [parts_page.image_path] on [None], at the first row *)
      Raise (AttributeError "'NoneType' object has no attribute 'image_path'")
  | _ :: _, Some pg =>
      Ok ((fun part_row =>
             {| Row.vehicle_id := Vehicle.vehicle_id vehicle;
                Row.vehicle_name := Vehicle.vehicle_name vehicle;
                Row.model_code := Vehicle.model_code vehicle;
                Row.group_type := TableIndex.group_type table_index;
                Row.table_no := TableIndex.table_no table_index;
                Row.group_code := TableIndex.group_code table_index;
                Row.group_desc := TableIndex.group_desc table_index;
                Row.ref_no := PartRow.ref_no part_row;
                Row.part_no := PartRow.part_no part_row;
                Row.description := PartRow.description part_row;
                Row.remark := PartRow.remark part_row;
                Row.req_no := PartRow.req_no part_row;
                Row.moq := PartRow.moq part_row;
                Row.mrp := PartRow.mrp part_row;
                Row.image_path := Text.or_empty (PartsPage.image_path pg);
                Row.parts_page_url := PartsPage.parts_page_url pg;
                Row.source_url := Vehicle.source_url vehicle |}) <$> part_rows)
  end.

(** The key columns of a shard row. *)
Definition row_key (r : Row.t) : Key :=
  (Row.vehicle_id r, Row.group_type r, Row.table_no r, Row.group_code r).

(** [pd.read_csv(config.CSV_OUTPUT, dtype=str).fillna('')].  [dtype=str]
    keeps every cell a string but leaves the default NA markers of the
    parser in force: a cell spelled as one of them is read as NaN, which
    [fillna] turns into the empty string.  Every other cell is read back as
    it was written. *)
Module Pandas.

Definition STR_NA_VALUES : list string :=
  ["-1.#IND"; "1.#QNAN"; "1.#IND"; "-1.#QNAN"; "#N/A N/A"; "#N/A"; "N/A"; "n/a";
   "NA"; "<NA>"; "#NA"; "NULL"; "null"; "NaN"; "-NaN"; "nan"; "-nan"; "None"; ""].

Definition read_cell (cell : string) : string :=
  if bool_decide (cell ∈ STR_NA_VALUES) then "" else cell.

End Pandas.

Definition read_row (r : Row.t) : Row.t :=
  {| Row.vehicle_id := Pandas.read_cell (Row.vehicle_id r);
     Row.vehicle_name := Pandas.read_cell (Row.vehicle_name r);
     Row.model_code := Pandas.read_cell (Row.model_code r);
     Row.group_type := Pandas.read_cell (Row.group_type r);
     Row.table_no := Pandas.read_cell (Row.table_no r);
     Row.group_code := Pandas.read_cell (Row.group_code r);
     Row.group_desc := Pandas.read_cell (Row.group_desc r);
     Row.ref_no := Pandas.read_cell (Row.ref_no r);
     Row.part_no := Pandas.read_cell (Row.part_no r);
     Row.description := Pandas.read_cell (Row.description r);
     Row.remark := Pandas.read_cell (Row.remark r);
     Row.req_no := Pandas.read_cell (Row.req_no r);
     Row.moq := Pandas.read_cell (Row.moq r);
     Row.mrp := Pandas.read_cell (Row.mrp r);
     Row.image_path := Pandas.read_cell (Row.image_path r);
     Row.parts_page_url := Pandas.read_cell (Row.parts_page_url r);
     Row.source_url := Pandas.read_cell (Row.source_url r) |}.

Definition read_csv (written : list Row.t) : list Row.t := read_row <$> written.

(** [existing.loc[~mask]] followed by [pd.concat([existing, df_group])], the
    mask being built from the first row of [df_group]. *)
Definition replace_group (existing : list Row.t) (first : Row.t) (df_group : list Row.t)
  : list Row.t :=
  filter (fun r => row_key r <> row_key first) existing ++ df_group.

(** [CSV_OUTPUT] holds the rows of the file as they were written; the rows
    kept from it are written back as they were read. *)
Definition _overwrite_group_in_csv (st : DataStore) (df_group : list Row.t)
  : DataStore * result unit :=
  match CSV_OUTPUT st with
  | Some written =>
      let existing := read_csv written in
      match df_group with
      | [] => (* [df_group['vehicle_id'].iloc[0]] on an empty frame *)
          (st, Raise (IndexError "single positional indexer is out-of-bounds"))
      | first :: _ =>
          (set_CSV_OUTPUT (Some (replace_group existing first df_group)) st, Ok tt)
      end
  | None => (set_CSV_OUTPUT (Some df_group) st, Ok tt)
  end.

(** Here the read and the mask sit inside [try], and any exception (file
    missing, empty frame) falls back to writing [df_group] alone. *)
Definition _overwrite_group_in_parquet (st : DataStore) (df_group : list Row.t) : DataStore :=
  match PARQUET_OUTPUT st, df_group with
  | Some existing, first :: _ =>
      set_PARQUET_OUTPUT (Some (replace_group existing first df_group)) st
  | _, _ => set_PARQUET_OUTPUT (Some df_group) st
  end.

(** [df_group.insert(1, 'vehicle_name', vname)] and the two others: the
    fetched rows widened to the seventeen shard columns. *)
Definition enrich (vname mcode gdesc : string) (r : Parts.t) : Row.t :=
  {| Row.vehicle_id := Parts.vehicle_id r; Row.vehicle_name := vname;
     Row.model_code := mcode; Row.group_type := Parts.group_type r;
     Row.table_no := Parts.table_no r; Row.group_code := Parts.group_code r;
     Row.group_desc := gdesc; Row.ref_no := Parts.ref_no r;
     Row.part_no := Parts.part_no r; Row.description := Parts.description r;
     Row.remark := Parts.remark r; Row.req_no := Parts.req_no r;
     Row.moq := Parts.moq r; Row.mrp := Parts.mrp r;
     Row.image_path := Parts.image_path r;
     Row.parts_page_url := Parts.parts_page_url r;
     Row.source_url := Parts.source_url r |}.

(** The tail of [append_parts_rows], from [if write_csv:] on. *)
Definition write_shards (st : DataStore) (df_group : list Row.t)
    (write_csv save_parquet : bool) : DataStore * result unit :=
  let '(st1, r) := if write_csv then _overwrite_group_in_csv st df_group else (st, Ok tt) in
  match r with
  | Raise e => (st1, Raise e)
  | Ok _ =>
      ((if save_parquet then _overwrite_group_in_parquet st1 df_group else st1), Ok tt)
  end.

Definition append_parts_rows (st : DataStore) (vehicle : Vehicle.t)
    (table_index : TableIndex.t) (parts_page : option PartsPage.t)
    (part_rows : list PartRow.t) (write_csv save_parquet : bool)
  : DataStore * result nat :=
  match convert_parts_to_dict_list vehicle table_index parts_page part_rows with
  | Raise e => (st, Raise e)
  | Ok dict_rows =>
      let '(st1, upserted) := upsert_part_rows st dict_rows in
      if write_csv || save_parquet then
        let fetched :=
          _fetch_group_df st1 (Vehicle.vehicle_id vehicle)
            (TableIndex.group_type table_index) (TableIndex.table_no table_index)
            (TableIndex.group_code table_index) in
        let enriched : result (list Row.t) :=
          match fetched, dict_rows with
          | [], _ => Ok []
          | _ :: _, [] => (* [dict_rows[0]] in the unguarded [gdesc] line *)
              Raise (IndexError "list index out of range")
          | _ :: _, d :: _ =>
              Ok (enrich (Row.vehicle_name d) (Row.model_code d) (Row.group_desc d)
                    <$> fetched)
          end in
        match enriched with
        | Raise e => (st1, Raise e)
        | Ok df_group =>
            match write_shards st1 df_group write_csv save_parquet with
            | (st2, Raise e) => (st2, Raise e)
            | (st2, Ok _) => (st2, Ok upserted)
            end
        end
      else (st1, Ok upserted)
  end.

(** ** Methods the pipeline calls that [class DataStore] does not define

    pipeline.py calls [self.store.is_vehicle_complete(vehicle_id,
    expected_groups=...)] and [self.store.mark_milestone(batch, vehicle_id)]
    directly, without the [hasattr] probe used for the checkpoint wrappers.
    The orchestrator below is written against this pair of methods. *)
Record StoreMethods : Type := mkStoreMethods {
  is_vehicle_complete : DataStore -> string -> nat -> result bool;
  mark_milestone : DataStore -> nat -> string -> result DataStore }.

(** store.py as it stands: [class DataStore] (no base class, no
    [__getattr__]) has no attribute of either name and [_init_database]
    creates no milestone table, so both attribute lookups raise. *)
Definition DataStore_methods : StoreMethods :=
  {| is_vehicle_complete := fun _ _ _ =>
       Raise (AttributeError "'DataStore' object has no attribute 'is_vehicle_complete'");
     mark_milestone := fun _ _ _ =>
       Raise (AttributeError "'DataStore' object has no attribute 'mark_milestone'") |}.

(* ===================================================================== *)
(** * pipeline.py: the orchestrator *)

(** Log lines that record a control-flow decision (vehicles and groups are
    named by id and key rather than by display name). *)
Inductive Event : Type :=
| LogNoGroups (vehicle_id : string)
| LogSkipVehicleDone (vehicle_id : string) (groups : nat)
| LogSkipDone (key : Key)
| LogScraping (key : Key)
| LogDone (key : Key) (rows : nat) (image_saved : bool)
| LogGroupError (key : Key) (msg : string)
| LogVehicleFailed (vehicle_id : string) (msg : string)
| LogMilestoneWarning (batch : nat) (vehicle_id : string) (msg : string)
| LogMilestone (processed batch : nat).

#[global] Instance event_eq_dec : EqDecision Event.
Proof. solve_decision. Defined.

Record ScrapingPipeline : Type := mkPipeline {
  force_reprocess : bool;
  save_parquet : bool;
  store : DataStore;
  total_vehicles_seen : nat;
  total_groups_seen : nat;
  total_groups_done : nat;
  total_groups_skipped : nat;
  total_groups_failed : nat;
  total_parts_rows : nat;
  total_images_saved : nat;
  _vehicles_processed : nat;
  _milestone_batch : nat;
  log : list Event }.

Definition set_store (x : DataStore) (p : ScrapingPipeline) : ScrapingPipeline :=
  mkPipeline (force_reprocess p) (save_parquet p) x (total_vehicles_seen p)
    (total_groups_seen p) (total_groups_done p) (total_groups_skipped p)
    (total_groups_failed p) (total_parts_rows p) (total_images_saved p)
    (_vehicles_processed p) (_milestone_batch p) (log p).

Definition set_total_vehicles_seen (x : nat) (p : ScrapingPipeline) : ScrapingPipeline :=
  mkPipeline (force_reprocess p) (save_parquet p) (store p) x (total_groups_seen p)
    (total_groups_done p) (total_groups_skipped p) (total_groups_failed p)
    (total_parts_rows p) (total_images_saved p) (_vehicles_processed p)
    (_milestone_batch p) (log p).

Definition set_total_groups_seen (x : nat) (p : ScrapingPipeline) : ScrapingPipeline :=
  mkPipeline (force_reprocess p) (save_parquet p) (store p) (total_vehicles_seen p)
    x (total_groups_done p) (total_groups_skipped p) (total_groups_failed p)
    (total_parts_rows p) (total_images_saved p) (_vehicles_processed p)
    (_milestone_batch p) (log p).

Definition set_total_groups_done (x : nat) (p : ScrapingPipeline) : ScrapingPipeline :=
  mkPipeline (force_reprocess p) (save_parquet p) (store p) (total_vehicles_seen p)
    (total_groups_seen p) x (total_groups_skipped p) (total_groups_failed p)
    (total_parts_rows p) (total_images_saved p) (_vehicles_processed p)
    (_milestone_batch p) (log p).

Definition set_total_groups_skipped (x : nat) (p : ScrapingPipeline) : ScrapingPipeline :=
  mkPipeline (force_reprocess p) (save_parquet p) (store p) (total_vehicles_seen p)
    (total_groups_seen p) (total_groups_done p) x (total_groups_failed p)
    (total_parts_rows p) (total_images_saved p) (_vehicles_processed p)
    (_milestone_batch p) (log p).

Definition set_total_groups_failed (x : nat) (p : ScrapingPipeline) : ScrapingPipeline :=
  mkPipeline (force_reprocess p) (save_parquet p) (store p) (total_vehicles_seen p)
    (total_groups_seen p) (total_groups_done p) (total_groups_skipped p) x
    (total_parts_rows p) (total_images_saved p) (_vehicles_processed p)
    (_milestone_batch p) (log p).

Definition set_total_parts_rows (x : nat) (p : ScrapingPipeline) : ScrapingPipeline :=
  mkPipeline (force_reprocess p) (save_parquet p) (store p) (total_vehicles_seen p)
    (total_groups_seen p) (total_groups_done p) (total_groups_skipped p)
    (total_groups_failed p) x (total_images_saved p) (_vehicles_processed p)
    (_milestone_batch p) (log p).

Definition set_total_images_saved (x : nat) (p : ScrapingPipeline) : ScrapingPipeline :=
  mkPipeline (force_reprocess p) (save_parquet p) (store p) (total_vehicles_seen p)
    (total_groups_seen p) (total_groups_done p) (total_groups_skipped p)
    (total_groups_failed p) (total_parts_rows p) x (_vehicles_processed p)
    (_milestone_batch p) (log p).

Definition set__vehicles_processed (x : nat) (p : ScrapingPipeline) : ScrapingPipeline :=
  mkPipeline (force_reprocess p) (save_parquet p) (store p) (total_vehicles_seen p)
    (total_groups_seen p) (total_groups_done p) (total_groups_skipped p)
    (total_groups_failed p) (total_parts_rows p) (total_images_saved p) x
    (_milestone_batch p) (log p).

Definition set__milestone_batch (x : nat) (p : ScrapingPipeline) : ScrapingPipeline :=
  mkPipeline (force_reprocess p) (save_parquet p) (store p) (total_vehicles_seen p)
    (total_groups_seen p) (total_groups_done p) (total_groups_skipped p)
    (total_groups_failed p) (total_parts_rows p) (total_images_saved p)
    (_vehicles_processed p) x (log p).

Definition set_log (x : list Event) (p : ScrapingPipeline) : ScrapingPipeline :=
  mkPipeline (force_reprocess p) (save_parquet p) (store p) (total_vehicles_seen p)
    (total_groups_seen p) (total_groups_done p) (total_groups_skipped p)
    (total_groups_failed p) (total_parts_rows p) (total_images_saved p)
    (_vehicles_processed p) (_milestone_batch p) x.

(** [ScrapingPipeline.__init__] over a given store state. *)
Definition new_pipeline (force_reprocess save_parquet : bool) (st : DataStore)
  : ScrapingPipeline :=
  mkPipeline force_reprocess save_parquet st 0 0 0 0 0 0 0 0 0 [].

(** [self._milestone_every], set to 30 by the constructor and never
    reassigned. *)
Definition _milestone_every : nat := 30.

Definition emit (e : Event) (p : ScrapingPipeline) : ScrapingPipeline :=
  set_log (log p ++ [e]) p.

(** The page-rendering collaborators: group discovery
    ([aggregates.collect_indices]) and parts extraction
    ([parts.collect_parts]), each call either returning or raising. *)
Record Extractor : Type := mkExtractor {
  collect_indices : Vehicle.t -> result (list TableIndex.t);
  collect_parts : Vehicle.t -> TableIndex.t ->
                  result (option PartsPage.t * list PartRow.t * bool) }.

Definition group_key (vehicle : Vehicle.t) (ti : TableIndex.t) : Key :=
  (Vehicle.vehicle_id vehicle, TableIndex.group_type ti, TableIndex.table_no ti,
   TableIndex.group_code ti).

(** [_after_vehicle]: the counter, and every [_milestone_every] vehicles a
    milestone write whose failure is only logged. *)
Definition _after_vehicle (X : StoreMethods) (p : ScrapingPipeline) (vehicle_id : string)
  : ScrapingPipeline :=
  let p1 := set__vehicles_processed (_vehicles_processed p + 1) p in
  if (_vehicles_processed p1 mod _milestone_every =? 0)%nat then
    let p2 := set__milestone_batch (_milestone_batch p1 + 1) p1 in
    let p3 := match mark_milestone X (store p2) (_milestone_batch p2) vehicle_id with
              | Ok st => set_store st p2
              | Raise e =>
                  emit (LogMilestoneWarning (_milestone_batch p2) vehicle_id (exn_str e)) p2
              end in
    emit (LogMilestone (_vehicles_processed p3) (_milestone_batch p3)) p3
  else p1.

(** The body of the inner [try] of the group loop: extraction, store and
    shard writes, then [checkpoint_mark_done].  A raised exception leaves
    the state as it was when it was raised. *)
Definition scrape_group (E : Extractor) (p : ScrapingPipeline) (vehicle : Vehicle.t)
    (ti : TableIndex.t) (key : Key) : ScrapingPipeline * result unit :=
  match collect_parts E vehicle ti with
  | Raise e => (p, Raise e)
  | Ok (parts_page, part_rows, image_saved) =>
      let p1 := match parts_page with
                | Some pg => set_store (save_parts_page (store p) pg) p
                | None => p
                end in
      let '(p2, r) :=
        match part_rows with
        | [] => (p1, Ok tt)
        | _ :: _ =>
            match append_parts_rows (store p1) vehicle ti parts_page part_rows true
                    (save_parquet p1) with
            | (st, Raise e) => (set_store st p1, Raise e)
            | (st, Ok _) =>
                (set_total_parts_rows (total_parts_rows p1 + length part_rows)
                   (set_store st p1), Ok tt)
            end
        end in
      match r with
      | Raise e => (p2, Raise e)
      | Ok _ =>
          let p3 := if image_saved
                    then set_total_images_saved (total_images_saved p2 + 1) p2 else p2 in
          let p4 := set_store
                      (checkpoint_mark_done (store p3) key (length part_rows) image_saved)
                      p3 in
          let p5 := set_total_groups_done (total_groups_done p4 + 1) p4 in
          (emit (LogDone key (length part_rows) image_saved) p5, Ok tt)
      end
  end.

(** One iteration of the group loop.  The wrappers [_checkpoint_status],
    [_checkpoint_mark_pending], [_checkpoint_mark_done] and
    [_checkpoint_mark_error] resolve to the [DataStore] methods of the same
    name, found by their first [hasattr] probe. *)
Definition process_group (E : Extractor) (vehicle : Vehicle.t) (p : ScrapingPipeline)
    (ti : TableIndex.t) : ScrapingPipeline :=
  let key := group_key vehicle ti in
  if bool_decide (checkpoint_status (store p) key = Some Checkpoint.done)
     && negb (force_reprocess p)
  then emit (LogSkipDone key) (set_total_groups_skipped (total_groups_skipped p + 1) p)
  else
    let p1 := emit (LogScraping key)
                (set_store (checkpoint_mark_pending (store p) key) p) in
    match scrape_group E p1 vehicle ti key with
    | (p2, Ok _) => p2
    | (p2, Raise e) =>
        emit (LogGroupError key (exn_str e))
          (set_total_groups_failed (total_groups_failed p2 + 1)
             (set_store (checkpoint_mark_error (store p2) key (exn_str e)) p2))
    end.

(** [for j, ti in enumerate(indices, 1): ...] *)
Definition process_groups (E : Extractor) (vehicle : Vehicle.t) (p : ScrapingPipeline)
    (indices : list TableIndex.t) : ScrapingPipeline :=
  fold_left (process_group E vehicle) indices p.

(** [not self.force_reprocess and self.store.is_vehicle_complete(...)]: the
    store is only asked when the run is not forced. *)
Definition vehicle_gate (X : StoreMethods) (p : ScrapingPipeline) (vehicle_id : string)
    (expected_groups : nat) : result bool :=
  if force_reprocess p then Ok false
  else is_vehicle_complete X (store p) vehicle_id expected_groups.

(** One iteration of the vehicle loop.  An exception raised anywhere in the
    outer [try] (discovery, the completeness gate) is logged and the loop
    goes on to [_after_vehicle]. *)
Definition process_vehicle (X : StoreMethods) (E : Extractor) (p : ScrapingPipeline)
    (vehicle : Vehicle.t) : ScrapingPipeline :=
  let vid := Vehicle.vehicle_id vehicle in
  match collect_indices E vehicle with
  | Raise e => _after_vehicle X (emit (LogVehicleFailed vid (exn_str e)) p) vid
  | Ok [] => _after_vehicle X (emit (LogNoGroups vid) p) vid
  | Ok indices =>
      match vehicle_gate X p vid (length indices) with
      | Raise e => _after_vehicle X (emit (LogVehicleFailed vid (exn_str e)) p) vid
      | Ok true => _after_vehicle X (emit (LogSkipVehicleDone vid (length indices)) p) vid
      | Ok false =>
          _after_vehicle X
            (process_groups E vehicle
               (set_total_groups_seen (total_groups_seen p + length indices) p) indices)
            vid
      end
  end.

Definition _process_vehicles (X : StoreMethods) (E : Extractor) (p : ScrapingPipeline)
    (vehicles : list Vehicle.t) : ScrapingPipeline :=
  fold_left (process_vehicle X E) vehicles p.

(* ===================================================================== *)
(** * catalogue.py and run.py: vehicle listing and the entry point *)

Record RawItem : Type := mkRawItem {
  name : option string;
  modelCode : option string }.

(** What the browser shows of the catalogue page, call by call, and the
    external [slugify]. *)
Record Catalogue : Type := mkCatalogue {
  slugify_name : string -> string;
  goto : result unit;
  table_found : bool;                       (* wait_for_selector('#datatable-t2') *)
  tables_ready : result unit;               (* wait_for_datatables *)
  pagination_info : result (option nat);    (* totalPages, if DataTables is there *)
  navigate_to_page : nat -> result unit;
  extract_page : nat -> result (list RawItem);
  extract_single_page : result (list RawItem) }.

(** The paginated branch: a page whose navigation or extraction fails is
    skipped. *)
Definition collect_pages (C : Catalogue) (total_pages : nat) : list RawItem :=
  flat_map
    (fun page_num =>
       match (if (0 <? page_num)%nat then navigate_to_page C page_num else Ok tt) with
       | Raise _ => []
       | Ok _ => match extract_page C page_num with
                 | Raise _ => []
                 | Ok items => items
                 end
       end)
    (seq 0 total_pages).

(** Conversion to [Vehicle] objects, dropping incomplete items and repeated
    model codes. *)
Fixpoint build_vehicles (C : Catalogue) (catalog_url : string) (seen_models : list string)
    (items : list RawItem) : list Vehicle.t :=
  match items with
  | [] => []
  | item :: rest =>
      let nm := Text.strip (Text.or_empty (name item)) in
      let mc := Text.strip (Text.or_empty (modelCode item)) in
      if bool_decide (nm = "") || bool_decide (mc = "") then
        build_vehicles C catalog_url seen_models rest
      else if bool_decide (mc ∈ seen_models) then
        build_vehicles C catalog_url seen_models rest
      else
        Vehicle.mk (slugify_name C nm) nm mc catalog_url
        :: build_vehicles C catalog_url (mc :: seen_models) rest
  end.

Definition collect_vehicles (C : Catalogue) (catalog_url : string) : result (list Vehicle.t) :=
  match goto C with
  | Raise e => Raise e
  | Ok _ =>
      if negb (table_found C) then
        Raise (Exception "Main catalog table #datatable-t2 not found")
      else
        match tables_ready C with
        | Raise e => Raise e
        | Ok _ =>
            match pagination_info C with
            | Raise e => Raise e
            | Ok info =>
                let data : result (list RawItem) :=
                  match info with
                  | Some total_pages => Ok (collect_pages C total_pages)
                  | None => extract_single_page C
                  end in
                match data with
                | Raise e => Raise e
                | Ok [] => Raise (Exception "No vehicles found in catalog")
                | Ok vehicles_data => Ok (build_vehicles C catalog_url [] vehicles_data)
                end
            end
        end
  end.

(** [ScrapingPipeline.run] from the vehicle listing on (session and browser
    start-up and shutdown are taken to succeed). *)
Definition run (X : StoreMethods) (E : Extractor) (C : Catalogue) (p : ScrapingPipeline)
    (catalog_url : string) : ScrapingPipeline * result unit :=
  match collect_vehicles C catalog_url with
  | Raise e => (p, Raise e)
  | Ok vehicles =>
      let p1 := set_total_vehicles_seen (length vehicles) p in
      let p2 := set_store (fold_left save_vehicle vehicles (store p1)) p1 in
      (_process_vehicles X E p2 vehicles, Ok tt)
  end.

(** [main] of run.py: the process exit code, 1 through [sys.exit(1)] when
    [run] raised and 0 otherwise, with the pipeline object as it ended. *)
Definition main (X : StoreMethods) (E : Extractor) (C : Catalogue)
    (force parquet : bool) (catalog_url : string) (st : DataStore)
  : ScrapingPipeline * nat :=
  match run X E C (new_pipeline force parquet st) catalog_url with
  | (p, Ok _) => (p, 0)
  | (p, Raise _) => (p, 1)
  end.

(* ===================================================================== *)
(** * store.py: statistics and the legacy writer *)

Definition status_name (s : Checkpoint.status) : string :=
  match s with
  | Checkpoint.pending => "pending"
  | Checkpoint.done => "done"
  | Checkpoint.error => "error"
  end.

(** [SELECT status, COUNT( * ) FROM checkpoints GROUP BY status]: the count
    of one group. *)
Definition count_status (st : DataStore) (s : Checkpoint.status) : nat :=
  length (filter (fun kv => Checkpoint.state kv.2 = s) (map_to_list (checkpoints st))).

(** [get_checkpoint_stats]: a status that no checkpoint has yields no row
    of the GROUP BY and so no key of the dictionary. *)
Definition get_checkpoint_stats (st : DataStore) : gmap string nat :=
  let per_status (s : Checkpoint.status) (stats : gmap string nat) :=
    if (count_status st s =? 0)%nat then stats
    else <[status_name s +:+ "_count" := count_status st s]> stats in
  <["total_vehicles" := size (vehicles st)]>
    (<["total_checkpoints" := size (checkpoints st)]>
       (per_status Checkpoint.error
          (per_status Checkpoint.done (per_status Checkpoint.pending ∅)))).

(** [write_parts_csv], the legacy writer, on dictionaries that carry the
    seventeen columns (as [convert_parts_to_dict_list] builds them): mode
    ['a'] without header when [append] and the file exists, mode ['w']
    otherwise; nothing at all for an empty list. *)
Definition write_parts_csv (st : DataStore) (parts_data : list Row.t) (append : bool)
  : DataStore :=
  match parts_data with
  | [] => st
  | _ :: _ =>
      match CSV_OUTPUT st with
      | Some existing =>
          if append then set_CSV_OUTPUT (Some (existing ++ parts_data)) st
          else set_CSV_OUTPUT (Some parts_data) st
      | None => set_CSV_OUTPUT (Some parts_data) st
      end
  end.

(* ===================================================================== *)
(** * utils.py: text helpers *)

(** [clean_text]: [""] for a falsy argument, the stripped text otherwise. *)
Definition clean_text (text : option string) : string :=
  match text with
  | None => ""
  | Some "" => ""
  | Some t => Text.strip t
  end.

Module ContentType.

(** Lower-casing of the ASCII letters (no other code point lower-cases to
    an ASCII character). *)
Definition lower_char (c : ascii) : ascii :=
  let n := nat_of_ascii c in
  if (65 <=? n)%nat && (n <=? 90)%nat then ascii_of_nat (n + 32) else c.

Fixpoint lower (s : string) : string :=
  match s with
  | "" => ""
  | String c r => String (lower_char c) (lower r)
  end.

(** [s.split(';')[0]] *)
Fixpoint before_semicolon (s : string) : string :=
  match s with
  | "" => ""
  | String c r => if bool_decide (c = ";"%char) then "" else String c (before_semicolon r)
  end.

Definition mapping : list (string * string) :=
  [("image/jpeg", ".jpg"); ("image/jpg", ".jpg"); ("image/png", ".png");
   ("image/svg+xml", ".svg"); ("image/gif", ".gif"); ("image/webp", ".webp");
   ("image/bmp", ".bmp")].

(** [mapping.get(key, default)] *)
Fixpoint get (table : list (string * string)) (key default : string) : string :=
  match table with
  | [] => default
  | (k, v) :: rest => if bool_decide (k = key) then v else get rest key default
  end.

End ContentType.

Definition get_file_extension_from_content_type (content_type : string) : string :=
  match content_type with
  | "" => ".bin"
  | _ =>
      ContentType.get ContentType.mapping
        (Text.strip (ContentType.before_semicolon (ContentType.lower content_type)))
        ".bin"
  end.

(* ===================================================================== *)
(** * parts.py: from table rows to [PartRow]s *)

Definition PARTS_HEADER_MAPPING : list (string * string) :=
  [("Ref No.", "ref_no"); ("Part Number", "part_no"); ("Description", "description");
   ("Remark", "remark"); ("Req. No.", "req_no"); ("MOQ", "moq"); ("MRP(Rs.)", "mrp")].

(** [s.replace(" ", "_")] *)
Fixpoint replace_space (s : string) : string :=
  match s with
  | "" => ""
  | String c r =>
      String (if bool_decide (c = " "%char) then "_"%char else c) (replace_space r)
  end.

(** [PARTS_HEADER_MAPPING.get(hdr, hdr.lower().replace(" ", "_"))] *)
Definition header_key (hdr : string) : string :=
  ContentType.get PARTS_HEADER_MAPPING hdr (replace_space (ContentType.lower hdr)).

(** The dictionary [mapped] of one table row: the row is padded with [""]
    to the number of headers, and a later header with the same key
    overwrites an earlier one. *)
Definition map_row (header_map : list string) (r : list string) : gmap string string :=
  fold_left (fun mapped hc => <[header_key hc.1 := clean_text (Some hc.2)]> mapped)
    (zip header_map (r ++ replicate (length header_map - length r) ""))
    ∅.

(** [mapped.get(key, "")] *)
Definition field (mapped : gmap string string) (key : string) : string :=
  default "" (mapped !! key).

(** The loop "Map rows -> PartRow" of [collect_parts]. *)
Definition rows_to_part_rows (vehicle : Vehicle.t) (table_index : TableIndex.t)
    (headers : list string) (rows : list (list string)) : list PartRow.t :=
  let header_map := Text.strip <$> headers in
  (fun r =>
     let mapped := map_row header_map r in
     PartRow.mk (Vehicle.vehicle_id vehicle) (TableIndex.group_type table_index)
       (TableIndex.table_no table_index) (TableIndex.group_code table_index)
       (field mapped "ref_no") (field mapped "part_no") (field mapped "description")
       (field mapped "remark") (field mapped "req_no") (field mapped "moq")
       (field mapped "mrp")) <$> rows.

(* ===================================================================== *)
(** * aggregates.py: from table rows to [TableIndex]es *)

(** A row as the page scripts return it. *)
Record RawGroup : Type := mkRawGroup {
  raw_s_no : string;
  raw_table_no : string;
  raw_desc : string;
  raw_group_code : string;
  raw_variant : option string }.

(** [push(rows, table_hint)]: rows without a group code are dropped, the
    others are typed row by row. *)
Definition push (vehicle : Vehicle.t) (aggregates_url : string) (rows : list RawGroup)
    (table_hint : string) : list TableIndex.t :=
  omap (fun it =>
          if bool_decide (raw_group_code it = "") then None
          else Some (TableIndex.mk (Vehicle.vehicle_id vehicle)
                       (_infer_group_type (Some (raw_table_no it))
                          (Some (raw_group_code it)) table_hint)
                       (raw_s_no it) (raw_table_no it) (raw_desc it) (raw_group_code it)
                       (match raw_variant it with
                        | Some "" | None => None
                        | Some v => Some v
                        end)
                       aggregates_url))
       rows.

(** The rows [collect_indices] works on: those of the two list-view tables,
    or those of the two thumbnail tables when both list views are empty
    ([None] is a script returning null). *)
Definition select_rows
    (list_engine list_frame thumb_engine thumb_frame : option (list RawGroup))
  : list RawGroup * list RawGroup :=
  match default [] list_engine, default [] list_frame with
  | [], [] => (default [] thumb_engine, default [] thumb_frame)
  | engine_rows, frame_rows => (engine_rows, frame_rows)
  end.

(** The tail of [collect_indices]: [push] for the engine rows, then for the
    frame rows. *)
Definition build_indices (vehicle : Vehicle.t) (aggregates_url : string)
    (list_engine list_frame thumb_engine thumb_frame : option (list RawGroup))
  : list TableIndex.t :=
  let '(engine_rows, frame_rows) :=
    select_rows list_engine list_frame thumb_engine thumb_frame in
  push vehicle aggregates_url engine_rows "ENGINE"
  ++ push vehicle aggregates_url frame_rows "FRAME".

(* ===================================================================== *)
(** * Predicates used in the statements *)

(** The invariant kept by [parts_unique_idx]. *)
Definition unique_identities (table : list Parts.t) : Prop :=
  NoDup (Parts.identity <$> table).

(** [a] occurs before [b] in [l]. *)
Definition occurs_before {A : Type} (a b : A) (l : list A) : Prop :=
  exists l1 l2 l3, l = l1 ++ a :: l2 ++ b :: l3.

(** The read-back order as the specification words it: a [ref_no] is
    numeric when it is a non-empty run of decimal digits; numeric ones come
    first, by value; every other [ref_no] (empty included) comes after all
    numeric ones; ties are broken by the raw string. *)
Fixpoint all_digits (s : string) : bool :=
  match s with
  | "" => true
  | String c r => SQLite.isdigit c && all_digits r
  end.

Definition spec_numeric (s : string) : option Z :=
  if negb (bool_decide (s = "")) && all_digits s then Some (SQLite.digits s 0) else None.

Definition spec_order_leb (a b : Parts.t) : bool :=
  match spec_numeric (Parts.ref_no a), spec_numeric (Parts.ref_no b) with
  | Some x, Some y =>
      match (x ?= y)%Z with
      | Lt => true
      | Gt => false
      | Eq => String.leb (Parts.ref_no a) (Parts.ref_no b)
      end
  | Some _, None => true
  | None, Some _ => false
  | None, None => String.leb (Parts.ref_no a) (Parts.ref_no b)
  end.

Definition spec_group_order (rows : list Parts.t) : Prop :=
  forall a b, occurs_before a b rows -> spec_order_leb a b = true.

(** The rows a shard holds for a group, and the other rows. *)
Definition rows_of_group (key : Key) (shard : option (list Row.t)) : list Row.t :=
  filter (fun r => row_key r = key) (default [] shard).

Definition rows_of_other_groups (key : Key) (shard : option (list Row.t)) : list Row.t :=
  filter (fun r => row_key r <> key) (default [] shard).

(** The shard row of a canonical row, column by column in the order of the
    shard: the fourteen columns of the canonical row, with the name and the
    model code of the vehicle after [vehicle_id] and the description of the
    group after [group_code]. *)
Definition shard_row_of (vehicle : Vehicle.t) (ti : TableIndex.t) (r : Parts.t) : Row.t :=
  Row.mk (Parts.vehicle_id r) (Vehicle.vehicle_name vehicle) (Vehicle.model_code vehicle)
    (Parts.group_type r) (Parts.table_no r) (Parts.group_code r)
    (TableIndex.group_desc ti) (Parts.ref_no r) (Parts.part_no r)
    (Parts.description r) (Parts.remark r) (Parts.req_no r) (Parts.moq r) (Parts.mrp r)
    (Parts.image_path r) (Parts.parts_page_url r) (Parts.source_url r).

(** The canonical rows of a group as a shard should hold them: the
    read-back of the group, each row as its shard row. *)
Definition canonical_rows (st : DataStore) (vehicle : Vehicle.t) (ti : TableIndex.t)
  : list Row.t :=
  shard_row_of vehicle ti
    <$> _fetch_group_df st (Vehicle.vehicle_id vehicle) (TableIndex.group_type ti)
          (TableIndex.table_no ti) (TableIndex.group_code ti).

(** The shard row of an extracted row, column by column in the order of
    the shard: the columns of the vehicle, of the group and of the parts
    page around the seven columns of the row. *)
Definition extracted_row (vehicle : Vehicle.t) (ti : TableIndex.t) (pg : PartsPage.t)
    (r : PartRow.t) : Row.t :=
  Row.mk (Vehicle.vehicle_id vehicle) (Vehicle.vehicle_name vehicle)
    (Vehicle.model_code vehicle) (TableIndex.group_type ti) (TableIndex.table_no ti)
    (TableIndex.group_code ti) (TableIndex.group_desc ti)
    (PartRow.ref_no r) (PartRow.part_no r) (PartRow.description r) (PartRow.remark r)
    (PartRow.req_no r) (PartRow.moq r) (PartRow.mrp r)
    (match PartsPage.image_path pg with Some path => path | None => "" end)
    (PartsPage.parts_page_url pg) (Vehicle.source_url vehicle).

(** A cell that the CSV shard gives back as it was written: it is not
    spelled as one of the NA markers (the empty cell is read as empty).  A
    key is readable when its four columns are. *)
Definition readable (cell : string) : Prop := Pandas.read_cell cell = cell.

Definition readable_key (key : Key) : Prop :=
  readable key.1.1.1 /\ readable key.1.1.2 /\ readable key.1.2 /\ readable key.2.

(** Two store states with the same checkpoints, page metadata, canonical
    rows and shards. *)
Definition same_data (st st' : DataStore) : Prop :=
  checkpoints st' = checkpoints st /\ parts_pages st' = parts_pages st
  /\ parts st' = parts st
  /\ CSV_OUTPUT st' = CSV_OUTPUT st /\ PARQUET_OUTPUT st' = PARQUET_OUTPUT st.

(** A milestone write, where the store offers one, touches none of them. *)
Definition milestone_frame (X : StoreMethods) : Prop :=
  forall st batch vehicle_id st',
    mark_milestone X st batch vehicle_id = Ok st' -> same_data st st'.


(** The groups whose extraction was started, in order. *)
Definition attempts (events : list Event) : list Key :=
  omap (fun e => match e with LogScraping key => Some key | _ => None end) events.

(** The group loop does not skip the work unit: its checkpoint is not
    [done], or the run is forced. *)
Definition due (p : ScrapingPipeline) (key : Key) : Prop :=
  checkpoint_status (store p) key <> Some Checkpoint.done \/ force_reprocess p = true.

(** The natural key of a shard row, and a shard without two rows of the
    same natural key. *)
Definition row_identity (r : Row.t) : string * string * string * string * string * string :=
  (Row.vehicle_id r, Row.group_type r, Row.table_no r, Row.group_code r,
   Row.ref_no r, Row.part_no r).

Definition shard_unique (shard : option (list Row.t)) : Prop :=
  NoDup (row_identity <$> default [] shard).

(** No two canonical rows and no two rows of either shard share a natural
    key. *)
Definition keys_unique (st : DataStore) : Prop :=
  unique_identities (parts st)
  /\ shard_unique (CSV_OUTPUT st) /\ shard_unique (PARQUET_OUTPUT st).

(** "No canonical-store upsert" in the specification's sense, the canonical
    store being the deduplicated part-row and parts-page facts: neither
    table has changed. *)
Definition canonical_store_unchanged (st st' : DataStore) : Prop :=
  parts st' = parts st /\ parts_pages st' = parts_pages st.

(** The log lines written by [_after_vehicle]. *)
Definition is_milestone_event (e : Event) : bool :=
  match e with
  | LogMilestoneWarning _ _ _ | LogMilestone _ _ => true
  | _ => false
  end.

(* ===================================================================== *)
(** * Example data *)

Module UpsertExample.

Definition stored : Row.t :=
  Row.mk "xoom" "XOOM" "AAWY" "ENGINE" "E-1" "E-1_XOOM" "SHROUD"
         "1" "P-100" "BOLT" "" "2" "1" "10.00" "" "http://x/p" "http://x".

(** The same identity with another description and price. *)
Definition resubmitted : Row.t :=
  Row.mk "xoom" "XOOM" "AAWY" "ENGINE" "E-1" "E-1_XOOM" "SHROUD"
         "1" "P-100" "BOLT, FLANGE" "" "2" "1" "12.50" "" "http://x/p" "http://x".

Definition before : DataStore := (upsert_part_rows empty_store [stored]).1.

End UpsertExample.

Module ReadBackExample.

Definition part (ref_no part_no : string) : Parts.t :=
  Parts.mk "xoom" "ENGINE" "E-1" "E-1_XOOM" ref_no part_no "" "" "" "" "" "" "" "".

(** Rows in rowid order: a numeric reference, a lettered one, an empty
    one, and two more numeric ones. *)
Definition st : DataStore :=
  set_parts [part "10" "P1"; part "A" "P2"; part "" "P3"; part "2" "P4"; part "1" "P5"]
    empty_store.

Definition fetched : list Parts.t := _fetch_group_df st "xoom" "ENGINE" "E-1" "E-1_XOOM".

End ReadBackExample.

Module MaterializeExample.

Definition vehicle : Vehicle.t := Vehicle.mk "xoom" "XOOM" "AAWY" "http://x".

Definition ti : TableIndex.t :=
  TableIndex.mk "xoom" "ENGINE" "1" "E-1" "SHROUD" "E-1_XOOM" None "http://x/agg".

Definition pg : PartsPage.t :=
  PartsPage.mk "xoom" "ENGINE" "E-1" "E-1_XOOM" "http://x/p" None.

Definition part_row (ref_no part_no : string) : PartRow.t :=
  PartRow.mk "xoom" "ENGINE" "E-1" "E-1_XOOM" ref_no part_no "BOLT" "" "1" "1" "10.00".

Definition shard_row (group_code ref_no part_no : string) : Row.t :=
  Row.mk "xoom" "XOOM" "AAWY" "ENGINE" "E-1" group_code "SHROUD"
         ref_no part_no "BOLT" "" "1" "1" "10.00" "" "http://x/p" "http://x".

Definition three : list PartRow.t :=
  [part_row "1" "P1"; part_row "2" "P2"; part_row "3" "P3"].

(** The canonical store holds three rows of the group; the CSV shard still
    has five rows of it from an earlier materialization, around a row of
    another group. *)
Definition st : DataStore :=
  set_CSV_OUTPUT
    (Some [shard_row "E-1_XOOM" "1" "P1"; shard_row "E-1_XOOM" "2" "P2";
           shard_row "E-2_XOOM" "1" "Q1";
           shard_row "E-1_XOOM" "3" "P3"; shard_row "E-1_XOOM" "4" "P4";
           shard_row "E-1_XOOM" "5" "P5"])
    (upsert_part_rows empty_store
       [shard_row "E-1_XOOM" "1" "P1"; shard_row "E-1_XOOM" "2" "P2";
        shard_row "E-1_XOOM" "3" "P3"]).1.

Definition rematerialized : DataStore :=
  (append_parts_rows st vehicle ti (Some pg) three true false).1.

End MaterializeExample.

Module NanExample.

(** A vehicle whose name slugifies to "nan", one of its groups, and three
    rows of it. *)
Definition vehicle : Vehicle.t := Vehicle.mk "nan" "Nan" "AANN" "http://x".

Definition ti : TableIndex.t :=
  TableIndex.mk "nan" "ENGINE" "1" "E-1" "SHROUD" "E-1_NAN" None "http://x/agg".

Definition pg : PartsPage.t :=
  PartsPage.mk "nan" "ENGINE" "E-1" "E-1_NAN" "http://x/p" None.

Definition part_row (ref_no part_no : string) : PartRow.t :=
  PartRow.mk "nan" "ENGINE" "E-1" "E-1_NAN" ref_no part_no "BOLT" "" "1" "1" "10.00".

Definition shard_row (vehicle_id ref_no part_no : string) : Row.t :=
  Row.mk vehicle_id "Nan" "AANN" "ENGINE" "E-1" "E-1_NAN" "SHROUD"
         ref_no part_no "BOLT" "" "1" "1" "10.00" "" "http://x/p" "http://x".

Definition three : list PartRow.t :=
  [part_row "1" "P1"; part_row "2" "P2"; part_row "3" "P3"].

(** The group materialized once on a fresh store, and once more. *)
Definition once : DataStore :=
  (append_parts_rows empty_store vehicle ti (Some pg) three true true).1.

Definition twice : DataStore :=
  (append_parts_rows once vehicle ti (Some pg) three true true).1.

(** A group of another vehicle with a remark spelled "N/A", materialized
    before a group of [MaterializeExample.vehicle]. *)
Definition remark_written : DataStore :=
  (append_parts_rows empty_store (Vehicle.mk "v0" "V0" "M0" "http://x") MaterializeExample.ti
     (Some MaterializeExample.pg)
     [PartRow.mk "v0" "ENGINE" "E-1" "E-1_XOOM" "1" "P1" "BOLT" "N/A" "1" "1" "10.00"]
     true false).1.

Definition other_group_written : DataStore :=
  (append_parts_rows remark_written MaterializeExample.vehicle MaterializeExample.ti
     (Some MaterializeExample.pg) MaterializeExample.three true false).1.

End NanExample.

Module PipelineExample.

Definition v1 : Vehicle.t := Vehicle.mk "v1" "V1" "M1" "http://x".

Definition group (group_type table_no group_code : string) : TableIndex.t :=
  TableIndex.mk "v1" group_type "" table_no "" group_code None "http://x/agg".

Definition gA : TableIndex.t := group "ENGINE" "E-1" "GA".
Definition gB : TableIndex.t := group "ENGINE" "E-2" "GB".
Definition gC : TableIndex.t := group "FRAME" "F-1" "GC".

Definition page (ti : TableIndex.t) : PartsPage.t :=
  PartsPage.mk "v1" (TableIndex.group_type ti) (TableIndex.table_no ti)
    (TableIndex.group_code ti) "http://x/p" None.

Definition row (ti : TableIndex.t) (ref_no part_no : string) : PartRow.t :=
  PartRow.mk "v1" (TableIndex.group_type ti) (TableIndex.table_no ti)
    (TableIndex.group_code ti) ref_no part_no "BOLT" "" "1" "1" "10.00".

(** Three groups: A yields two rows, the extraction of B raises, C yields
    no row. *)
Definition E : Extractor :=
  {| collect_indices := fun _ => Ok [gA; gB; gC];
     collect_parts := fun _ ti =>
       if bool_decide (TableIndex.group_code ti = "GB")
       then Raise (Exception "Parts UI not found for GB (waited 45s)")
       else if bool_decide (TableIndex.group_code ti = "GC")
       then Ok (Some (page ti), [], false)
       else Ok (Some (page ti), [row ti "1" "P1"; row ti "2" "P2"], true) |}.

(** The scenario of the specification: groups A and C, both extracted
    without failure. *)
Definition E_ok : Extractor :=
  {| collect_indices := fun _ => Ok [gA; gC];
     collect_parts := fun _ ti =>
       if bool_decide (TableIndex.group_code ti = "GC")
       then Ok (Some (page ti), [], false)
       else Ok (Some (page ti), [row ti "1" "P1"; row ti "2" "P2"], true) |}.

(** A catalogue page listing [v1] once, on a single page. *)
Definition catalogue : Catalogue :=
  {| slugify_name := fun _ => "v1";
     goto := Ok tt; table_found := true; tables_ready := Ok tt;
     pagination_info := Ok (Some 1);
     navigate_to_page := fun _ => Ok tt;
     extract_page := fun _ => Ok [mkRawItem (Some "V1") (Some "M1")];
     extract_single_page := Ok [] |}.

(** The same page without the table [#datatable-t2], and with an empty
    listing. *)
Definition catalogue_without_table : Catalogue :=
  {| slugify_name := fun _ => "v1";
     goto := Ok tt; table_found := false; tables_ready := Ok tt;
     pagination_info := Ok (Some 1);
     navigate_to_page := fun _ => Ok tt;
     extract_page := fun _ => Ok [mkRawItem (Some "V1") (Some "M1")];
     extract_single_page := Ok [] |}.

Definition catalogue_without_vehicles : Catalogue :=
  {| slugify_name := fun _ => "v1";
     goto := Ok tt; table_found := true; tables_ready := Ok tt;
     pagination_info := Ok (Some 2);
     navigate_to_page := fun _ => Ok tt;
     extract_page := fun _ => Ok [];
     extract_single_page := Ok [] |}.

(** The store after a first, forced run over [E_ok]. *)
Definition after_first_run : DataStore :=
  store (main DataStore_methods E_ok catalogue true false "http://x" empty_store).1.

(** Sixty-one vehicles [v1] .. [v61] without any group. *)
Definition numbered (n : nat) : Vehicle.t :=
  Vehicle.mk ("v" +:+ pretty n) ("V" +:+ pretty n) ("M" +:+ pretty n) "http://x".

Definition sixty_one : list Vehicle.t := numbered <$> seq 1 61.

Definition E_no_groups : Extractor :=
  {| collect_indices := fun _ => Ok [];
     collect_parts := fun _ _ => Raise (Exception "unreachable") |}.

End PipelineExample.

(** Blank strings, and strings that begin or end with a blank. *)
Fixpoint all_space (s : string) : bool :=
  match s with
  | "" => true
  | String c r => Text.isspace c && all_space r
  end.

Definition starts_with_space (s : string) : bool :=
  match s with
  | String c _ => Text.isspace c
  | "" => false
  end.

Fixpoint ends_with_space (s : string) : bool :=
  match s with
  | "" => false
  | String c "" => Text.isspace c
  | String _ r => ends_with_space r
  end.

Fixpoint has_semicolon (s : string) : bool :=
  match s with
  | "" => false
  | String c r => bool_decide (c = ";"%char) || has_semicolon r
  end.


(** A call of one of the three checkpoint writers, the key it addresses and
    the status it writes. *)
Inductive Mark : Type :=
| MarkDone (key : Key) (row_count : nat) (image_saved : bool)
| MarkError (key : Key) (error : string)
| MarkPending (key : Key).

Definition apply_mark (st : DataStore) (m : Mark) : DataStore :=
  match m with
  | MarkDone key row_count image_saved => checkpoint_mark_done st key row_count image_saved
  | MarkError key error => checkpoint_mark_error st key error
  | MarkPending key => checkpoint_mark_pending st key
  end.

Definition mark_key (m : Mark) : Key :=
  match m with
  | MarkDone key _ _ | MarkError key _ | MarkPending key => key
  end.

Definition mark_status (m : Mark) : Checkpoint.status :=
  match m with
  | MarkDone _ _ _ => Checkpoint.done
  | MarkError _ _ => Checkpoint.error
  | MarkPending _ => Checkpoint.pending
  end.


(** The "[milestone] Processed n vehicles; milestone batch b recorded."
    lines of a log, as pairs [(n, b)]. *)
Definition milestone_lines (events : list Event) : list (nat * nat) :=
  omap (fun e => match e with LogMilestone n b => Some (n, b) | _ => None end) events.


(** An item of the listing that yields no vehicle: its name or its model
    code is missing or blank. *)
Definition unusable (item : RawItem) : Prop :=
  Text.strip (Text.or_empty (name item)) = ""
  \/ Text.strip (Text.or_empty (modelCode item)) = "".

Module CatalogueExample.

(** A listing of three rows of which none has both a name and a model
    code. *)
Definition unusable_rows : list RawItem :=
  [mkRawItem (Some "XOOM 110") None; mkRawItem (Some "   ") (Some "AAWY");
   mkRawItem None (Some "AAWZ")].

Definition catalogue_with_unusable_rows : Catalogue :=
  {| slugify_name := fun s => s;
     goto := Ok tt;
     table_found := true;
     tables_ready := Ok tt;
     pagination_info := Ok None;
     navigate_to_page := fun _ => Ok tt;
     extract_page := fun _ => Ok [];
     extract_single_page := Ok unusable_rows |}.

(** Two pages; the second one repeats a model code and has a blank row. *)
Definition two_pages : Catalogue :=
  {| slugify_name := fun s => s;
     goto := Ok tt;
     table_found := true;
     tables_ready := Ok tt;
     pagination_info := Ok (Some 2);
     navigate_to_page := fun _ => Ok tt;
     extract_page := fun n =>
       match n with
       | 0 => Ok [mkRawItem (Some " XOOM 110 ") (Some "AAWY");
                  mkRawItem (Some "PLEASURE") (Some "AAWZ ")]
       | _ => Ok [mkRawItem (Some "XOOM 110 LX") (Some "AAWY");
                  mkRawItem (Some "") (Some "AAXA");
                  mkRawItem (Some "PLEASURE") (Some "AAXB")]
       end;
     extract_single_page := Ok [] |}.

End CatalogueExample.


(** The work units of a run in processing order: each listed vehicle with
    the groups discovered for it. *)
Definition run_pairs (E : Extractor) (vehicles : list Vehicle.t)
  : list (Vehicle.t * TableIndex.t) :=
  flat_map (fun vehicle =>
              match collect_indices E vehicle with
              | Ok indices => (fun ti => (vehicle, ti)) <$> indices
              | Raise _ => []
              end) vehicles.

Definition run_keys (E : Extractor) (vehicles : list Vehicle.t) : list Key :=
  (fun vt => group_key vt.1 vt.2) <$> run_pairs E vehicles.

(** What the extraction of a group contributes when the group is worked
    on: the rows upserted, the checkpoint written last, the page metadata
    upserted, and whether the shards are rewritten for the group. *)
Definition group_batch (E : Extractor) (vehicle : Vehicle.t) (ti : TableIndex.t)
  : list Parts.t :=
  match collect_parts E vehicle ti with
  | Ok (parts_page, part_rows, _) =>
      match convert_parts_to_dict_list vehicle ti parts_page part_rows with
      | Ok dict_rows => insert_values <$> dict_rows
      | Raise _ => []
      end
  | Raise _ => []
  end.

Definition group_record (E : Extractor) (vehicle : Vehicle.t) (ti : TableIndex.t)
  : Checkpoint.t :=
  match collect_parts E vehicle ti with
  | Ok (parts_page, part_rows, image_saved) =>
      match convert_parts_to_dict_list vehicle ti parts_page part_rows with
      | Ok _ => Checkpoint.mk Checkpoint.done (Some (length part_rows)) image_saved None
      | Raise e => Checkpoint.mk Checkpoint.error None false (Some (exn_str e))
      end
  | Raise e => Checkpoint.mk Checkpoint.error None false (Some (exn_str e))
  end.

Definition group_page (E : Extractor) (vehicle : Vehicle.t) (ti : TableIndex.t)
  : list (Key * (string * string)) :=
  match collect_parts E vehicle ti with
  | Ok (Some pg, _, _) =>
      [((PartsPage.vehicle_id pg, PartsPage.group_type pg, PartsPage.table_no pg,
         PartsPage.group_code pg),
        (PartsPage.parts_page_url pg, Text.or_empty (PartsPage.image_path pg)))]
  | _ => []
  end.

Definition group_materialized (E : Extractor) (vehicle : Vehicle.t) (ti : TableIndex.t)
  : bool :=
  match collect_parts E vehicle ti with
  | Ok (Some _, _ :: _, _) => true
  | _ => false
  end.

(** Insertion of a list of bindings into a table, in order. *)
Definition insert_all `{Countable K} {A : Type} (bindings : list (K * A)) (m : gmap K A)
  : gmap K A :=
  fold_left (fun m kv => <[kv.1 := kv.2]> m) bindings m.

(** The store after a group has been worked on, in terms of what its
    extraction contributes. *)
Definition group_effect (E : Extractor) (parquet : bool) (st : DataStore)
    (vt : Vehicle.t * TableIndex.t) : DataStore :=
  let key := group_key vt.1 vt.2 in
  let parts' := executemany_upsert (group_batch E vt.1 vt.2) (parts st) in
  let df := canonical_rows (set_parts parts' st) vt.1 vt.2 in
  mkDataStore
    (<[key := group_record E vt.1 vt.2]> (checkpoints st))
    (vehicles st)
    (insert_all (group_page E vt.1 vt.2) (parts_pages st))
    parts'
    (if group_materialized E vt.1 vt.2
     then Some (rows_of_other_groups key (read_csv <$> CSV_OUTPUT st) ++ df)
     else CSV_OUTPUT st)
    (if group_materialized E vt.1 vt.2 && parquet
     then Some (rows_of_other_groups key (PARQUET_OUTPUT st) ++ df)
     else PARQUET_OUTPUT st).


(** The identity columns a part row adds to the key of its group are read
    back as written. *)
Definition readable_part (r : Parts.t) : Prop :=
  readable (Parts.ref_no r) /\ readable (Parts.part_no r).

(** No two canonical rows share a natural key, nor do two rows of the
    Parquet shard, nor two rows of the CSV shard once it has been read back;
    and the canonical rows have readable identity columns. *)
Definition read_unique (st : DataStore) : Prop :=
  unique_identities (parts st) /\ Forall readable_part (parts st)
  /\ shard_unique (read_csv <$> CSV_OUTPUT st) /\ shard_unique (PARQUET_OUTPUT st).

(** The groups of a run have readable keys, and the rows extracted for them
    readable identity columns. *)
Definition readable_group (E : Extractor) (vt : Vehicle.t * TableIndex.t) : Prop :=
  readable_key (group_key vt.1 vt.2) /\ Forall readable_part (group_batch E vt.1 vt.2).

Definition readable_run (E : Extractor) (listed : list Vehicle.t) : Prop :=
  Forall (readable_group E) (run_pairs E listed).


(* ===================================================================== *)
(** * Properties *)

(** ** Group-type inference *)

Section InferGroupType.

Lemma upper_char_dash (b : ascii) :
  Text.upper_char b = "-"%char -> b = "-"%char.
Proof.
  destruct b as [[] [] [] [] [] [] [] []]; vm_compute; intros H;
    first [reflexivity | discriminate H].
Qed.

Lemma rstrip_cons_nonspace (a : ascii) (r : string) :
  Text.isspace a = false -> Text.rstrip (String a r) = String a (Text.rstrip r).
Proof.
  intros Ha. cbn [Text.rstrip]. destruct (Text.rstrip r); [now rewrite Ha | reflexivity].
Qed.

Lemma startswith_cons (a c : ascii) (s p : string) :
  Text.startswith (String a s) (String c p) =
  if ascii_dec c a then Text.startswith s p else false.
Proof. reflexivity. Qed.

Lemma startswith_nil (s : string) : Text.startswith s "" = true.
Proof. now destruct s. Qed.

Lemma startswith_dash_upper (b : ascii) (s : string) :
  Text.startswith (String (Text.upper_char b) s) "-" = bool_decide (b = "-"%char).
Proof.
  rewrite startswith_cons, startswith_nil.
  destruct (ascii_dec "-" (Text.upper_char b)) as [Heq|Hne].
  - symmetry in Heq. apply upper_char_dash in Heq.
    now rewrite bool_decide_eq_true_2.
  - rewrite bool_decide_eq_false_2; [reflexivity|].
    intros ->. now apply Hne.
Qed.

Lemma dash_after_rstrip (r : string) :
  Text.startswith (Text.upper (Text.rstrip r)) "-" =
  match r with String b _ => bool_decide (b = "-"%char) | "" => false end.
Proof.
  destruct r as [|b r2]; [reflexivity|].
  destruct (Text.isspace b) eqn:Hsp.
  - assert (Hb : b <> "-"%char) by (intros ->; discriminate Hsp).
    rewrite (bool_decide_eq_false_2 _ Hb).
    cbn [Text.rstrip]. rewrite Hsp.
    destruct (Text.rstrip r2) as [|c r3]; [reflexivity|].
    cbn [Text.upper]. rewrite startswith_dash_upper.
    now rewrite bool_decide_eq_false_2.
  - rewrite rstrip_cons_nonspace by exact Hsp.
    cbn [Text.upper]. apply startswith_dash_upper.
Qed.

(** The test of the source, [s.strip().upper().startswith(c + "-")], reads
    the first two characters after the leading blanks. *)
Lemma startswith_normalised (c : ascii) (s : string) :
  Text.startswith (Text.upper (Text.strip s)) (String c "-") = leads_with c s.
Proof.
  unfold Text.strip.
  induction s as [|a r IH]; [reflexivity|].
  cbn [Text.lstrip leads_with].
  destruct (Text.isspace a) eqn:Ha; [exact IH|].
  rewrite rstrip_cons_nonspace by exact Ha.
  cbn [Text.upper]. rewrite startswith_cons, dash_after_rstrip.
  destruct (ascii_dec c (Text.upper_char a)) as [Heq|Hne].
  - rewrite bool_decide_eq_true_2 by (symmetry; exact Heq).
    now destruct r.
  - rewrite bool_decide_eq_false_2 by (intros E; apply Hne; symmetry; exact E).
    now destruct r.
Qed.

End InferGroupType.

(** C10 (as amended).  [_infer_group_type] is a total function of two
    optional tokens and a fallback.  Blanks around a token are dropped
    before it is upper-cased: if either token then begins with "E-" the
    result is "ENGINE", whatever the other token is; otherwise if either
    begins with "F-" the result is "FRAME"; otherwise the result is the
    fallback.  Hence a fallback among ENGINE and FRAME always yields one of
    these two. *)
Theorem infer_group_type_classification
    (table_no group_code : option string) (fallback : string) :
  _infer_group_type table_no group_code fallback =
    (if leads_with "E" (Text.or_empty table_no) || leads_with "E" (Text.or_empty group_code)
     then "ENGINE"
     else if leads_with "F" (Text.or_empty table_no)
             || leads_with "F" (Text.or_empty group_code)
     then "FRAME"
     else fallback)
  /\ (fallback = "ENGINE" \/ fallback = "FRAME" ->
      _infer_group_type table_no group_code fallback = "ENGINE"
      \/ _infer_group_type table_no group_code fallback = "FRAME").
Proof.
  assert (Heq : _infer_group_type table_no group_code fallback =
    (if leads_with "E" (Text.or_empty table_no) || leads_with "E" (Text.or_empty group_code)
     then "ENGINE"
     else if leads_with "F" (Text.or_empty table_no)
             || leads_with "F" (Text.or_empty group_code)
     then "FRAME"
     else fallback)).
  { unfold _infer_group_type. now rewrite !startswith_normalised. }
  split; [exact Heq|].
  intros Hfb. rewrite Heq.
  destruct (leads_with "E" _ || leads_with "E" _); [now left|].
  destruct (leads_with "F" _ || leads_with "F" _); [now right|].
  exact Hfb.
Qed.

Lemma infer_group_type_classification_witness :
  _infer_group_type (Some " e-1") None "FRAME" = "ENGINE"
  /\ (_infer_group_type (Some "12") (Some "f-2_X") "ENGINE" = "ENGINE"
      \/ _infer_group_type (Some "12") (Some "f-2_X") "ENGINE" = "FRAME").
Proof.
  split.
  - exact (proj1 (infer_group_type_classification (Some " e-1") None "FRAME")).
  - apply (proj2 (infer_group_type_classification (Some "12") (Some "f-2_X") "ENGINE")).
    left. reflexivity.
Defined.

(** The classification worded with upper-casing alone differs from the code
    on a token that starts with a blank. *)
Lemma infer_group_type_leading_blank :
  _infer_group_type (Some " e-1") None "FRAME"
  <> spec_infer_group_type (Some " e-1") None "FRAME".
Proof. vm_compute. discriminate. Qed.

Example infer_group_type_priority :
  _infer_group_type (Some "F-3") (Some "e-1_XOOM") "FRAME" = "ENGINE".
Proof. reflexivity. Qed.

Example infer_group_type_fallback :
  _infer_group_type None (Some "12_XOOM") "FRAME" = "FRAME".
Proof. reflexivity. Qed.

(** ** Upsert of part rows *)

Section Upsert.

Implicit Types (r x : Parts.t) (table : list Parts.t).

Lemma do_update_identity x r :
  Parts.identity (Parts.do_update x r) = Parts.identity x.
Proof. reflexivity. Qed.

(** With equal identities the stored row ends up equal to the submitted
    one, column by column. *)
Lemma do_update_same_identity x r :
  Parts.identity x = Parts.identity r -> Parts.do_update x r = insert_values
    {| Row.vehicle_id := Parts.vehicle_id r; Row.vehicle_name := "";
       Row.model_code := ""; Row.group_type := Parts.group_type r;
       Row.table_no := Parts.table_no r; Row.group_code := Parts.group_code r;
       Row.group_desc := ""; Row.ref_no := Parts.ref_no r;
       Row.part_no := Parts.part_no r; Row.description := Parts.description r;
       Row.remark := Parts.remark r; Row.req_no := Parts.req_no r;
       Row.moq := Parts.moq r; Row.mrp := Parts.mrp r;
       Row.image_path := Parts.image_path r;
       Row.parts_page_url := Parts.parts_page_url r;
       Row.source_url := Parts.source_url r |}.
Proof.
  destruct x, r. unfold Parts.identity, Parts.do_update, insert_values. cbn.
  intros [= -> -> -> -> -> ->]. reflexivity.
Qed.

Lemma do_update_eq x r :
  Parts.identity x = Parts.identity r -> Parts.do_update x r = r.
Proof.
  intros H. rewrite (do_update_same_identity _ _ H). now destruct r.
Qed.

Lemma upsert_row_absent r table :
  Parts.identity r ∉ Parts.identity <$> table -> upsert_row r table = table ++ [r].
Proof.
  induction table as [|x rest IH]; intros Hnot; [reflexivity|].
  cbn [upsert_row]. rewrite fmap_cons, not_elem_of_cons in Hnot.
  destruct Hnot as [Hne Hrest].
  rewrite bool_decide_eq_false_2 by congruence.
  now rewrite IH.
Qed.

Lemma upsert_row_present r table :
  unique_identities table ->
  Parts.identity r ∈ Parts.identity <$> table ->
  upsert_row r table =
  (fun x => if bool_decide (Parts.identity x = Parts.identity r)
            then Parts.do_update x r else x) <$> table.
Proof.
  unfold unique_identities.
  induction table as [|x rest IH]; intros Hnd Hin.
  - rewrite fmap_nil in Hin. now apply elem_of_nil in Hin.
  - rewrite fmap_cons in Hnd, Hin. apply NoDup_cons in Hnd as [Hx Hnd].
    cbn [upsert_row]. rewrite fmap_cons.
    destruct (decide (Parts.identity x = Parts.identity r)) as [Heq|Hne].
    + rewrite !bool_decide_eq_true_2 by exact Heq. f_equal.
      rewrite <- (list_fmap_id rest) at 1.
      apply list_fmap_ext. intros i y Hy. cbn.
      rewrite bool_decide_eq_false_2; [reflexivity|].
      intros Hy'. apply Hx. rewrite Heq, <- Hy'.
      apply list_elem_of_fmap. exists y. split; [reflexivity|].
      eapply list_elem_of_lookup_2; exact Hy.
    + rewrite !bool_decide_eq_false_2 by exact Hne. f_equal.
      apply IH; [exact Hnd|].
      apply elem_of_cons in Hin as [Hin|Hin]; [congruence | exact Hin].
Qed.

Lemma upsert_row_identities r table :
  Parts.identity <$> upsert_row r table =
  if bool_decide (Parts.identity r ∈ Parts.identity <$> table)
  then Parts.identity <$> table
  else (Parts.identity <$> table) ++ [Parts.identity r].
Proof.
  induction table as [|x rest IH].
  - cbn. rewrite bool_decide_eq_false_2; [reflexivity | apply not_elem_of_nil].
  - cbn [upsert_row]. rewrite !fmap_cons.
    destruct (decide (Parts.identity x = Parts.identity r)) as [Heq|Hne].
    + rewrite bool_decide_eq_true_2 by exact Heq.
      rewrite bool_decide_eq_true_2 by (rewrite Heq; apply list_elem_of_here).
      now rewrite fmap_cons.
    + rewrite bool_decide_eq_false_2 by exact Hne.
      rewrite fmap_cons, IH.
      destruct (decide (Parts.identity r ∈ Parts.identity <$> rest)) as [Hin|Hnin].
      * rewrite !bool_decide_eq_true_2; [reflexivity | | exact Hin].
        now apply list_elem_of_further.
      * rewrite !bool_decide_eq_false_2; [reflexivity | | exact Hnin].
        rewrite not_elem_of_cons. split; [congruence | exact Hnin].
Qed.

Lemma upsert_row_unique r table :
  unique_identities table -> unique_identities (upsert_row r table).
Proof.
  unfold unique_identities. intros Hnd. rewrite upsert_row_identities.
  case_bool_decide as Hin; [exact Hnd|].
  apply NoDup_app. split; [exact Hnd|]. split.
  - intros k Hk Hk'. apply list_elem_of_singleton in Hk'. now subst.
  - apply NoDup_singleton.
Qed.

Lemma upsert_row_keeps r table k :
  k ∈ Parts.identity <$> table -> k ∈ Parts.identity <$> upsert_row r table.
Proof.
  intros Hk. rewrite upsert_row_identities.
  case_bool_decide; [exact Hk|]. apply elem_of_app. now left.
Qed.

Lemma executemany_upsert_unique rows table :
  unique_identities table -> unique_identities (executemany_upsert rows table).
Proof.
  unfold executemany_upsert. revert table.
  induction rows as [|r rows IH]; intros table Hnd; [exact Hnd|].
  cbn. apply IH. now apply upsert_row_unique.
Qed.

Lemma executemany_upsert_keeps rows table k :
  k ∈ Parts.identity <$> table ->
  k ∈ Parts.identity <$> executemany_upsert rows table.
Proof.
  unfold executemany_upsert. revert table.
  induction rows as [|r rows IH]; intros table Hk; [exact Hk|].
  cbn. apply IH. now apply upsert_row_keeps.
Qed.

Lemma upsert_part_rows_count (st : DataStore) (dict_rows : list Row.t) :
  (upsert_part_rows st dict_rows).2 = length dict_rows.
Proof. now destruct dict_rows. Qed.

Lemma upsert_part_rows_parts (st : DataStore) (dict_rows : list Row.t) :
  parts (upsert_part_rows st dict_rows).1 =
  executemany_upsert (insert_values <$> dict_rows) (parts st).
Proof. now destruct dict_rows. Qed.

End Upsert.

(** C4.  [upsert_part_rows] is insert-or-update on the six identity columns.
    It returns the number of rows submitted (0 for the empty list), whatever
    was already stored; it keeps identities unique and never drops a stored
    identity.  Submitting a row [d] whose identity is already stored changes
    no identity and adds no row: the stored row takes the submitted
    description and other mutable columns, and every other row stays as it
    was.  A row with a new identity is appended. *)
Theorem upsert_part_rows_merge (st : DataStore) (rows : list Row.t) (d : Row.t) :
  unique_identities (parts st) ->
  (upsert_part_rows st rows).2 = length rows
  /\ (upsert_part_rows st []).2 = 0
  /\ unique_identities (parts (upsert_part_rows st rows).1)
  /\ (forall k, k ∈ Parts.identity <$> parts st ->
                k ∈ Parts.identity <$> parts (upsert_part_rows st rows).1)
  /\ (Parts.identity (insert_values d) ∈ Parts.identity <$> parts st ->
      let st' := (upsert_part_rows st [d]).1 in
      (upsert_part_rows st [d]).2 = 1
      /\ Parts.identity <$> parts st' = Parts.identity <$> parts st
      /\ length (parts st') = length (parts st)
      /\ (forall y, y ∈ parts st' ->
                    Parts.identity y = Parts.identity (insert_values d) ->
                    y = insert_values d)
      /\ (forall y, Parts.identity y <> Parts.identity (insert_values d) ->
                    (y ∈ parts st' <-> y ∈ parts st)))
  /\ (Parts.identity (insert_values d) ∉ Parts.identity <$> parts st ->
      parts (upsert_part_rows st [d]).1 = parts st ++ [insert_values d]).
Proof.
  intros Hu.
  split; [apply upsert_part_rows_count|].
  split; [reflexivity|].
  split; [rewrite upsert_part_rows_parts; now apply executemany_upsert_unique|].
  split; [intros k Hk; rewrite upsert_part_rows_parts;
          now apply executemany_upsert_keeps|].
  split.
  - intros Hin. cbn zeta. cbn [upsert_part_rows fst snd length].
    unfold set_parts, executemany_upsert. cbn [parts fmap list_fmap fold_left].
    rewrite (upsert_row_present _ _ Hu Hin).
    set (f := fun x : Parts.t => if bool_decide (Parts.identity x = Parts.identity (insert_values d))
                   then Parts.do_update x (insert_values d) else x).
    assert (Hid : forall x, Parts.identity (f x) = Parts.identity x).
    { intros x. unfold f. case_bool_decide; [apply do_update_identity | reflexivity]. }
    split; [reflexivity|].
    split.
    { rewrite <- list_fmap_compose. apply list_fmap_ext. intros i x _. apply Hid. }
    split; [apply length_fmap|].
    split.
    + intros y Hy Hyid. apply list_elem_of_fmap in Hy as (x & -> & Hx).
      unfold f in *. case_bool_decide as Hxid.
      * now apply do_update_eq.
      * contradiction.
    + intros y Hne. rewrite list_elem_of_fmap. split.
      * intros (x & -> & Hx). unfold f in *. case_bool_decide as Hxid.
        -- exfalso. apply Hne. now rewrite do_update_identity.
        -- exact Hx.
      * intros Hy. exists y. split; [|exact Hy].
        unfold f. now rewrite bool_decide_eq_false_2.
  - intros Hnin. cbn [upsert_part_rows fst].
    unfold set_parts, executemany_upsert. cbn [parts fmap list_fmap fold_left].
    now apply upsert_row_absent.
Qed.

Lemma upsert_part_rows_merge_witness :
  (upsert_part_rows UpsertExample.before [UpsertExample.resubmitted]).2 = 1
  /\ parts (upsert_part_rows UpsertExample.before [UpsertExample.resubmitted]).1
     = [insert_values UpsertExample.resubmitted].
Proof.
  assert (Hu : unique_identities (parts UpsertExample.before)).
  { unfold unique_identities. vm_compute. apply NoDup_singleton. }
  assert (Hin : Parts.identity (insert_values UpsertExample.resubmitted)
                ∈ Parts.identity <$> parts UpsertExample.before).
  { vm_compute. apply list_elem_of_here. }
  destruct (upsert_part_rows_merge UpsertExample.before
              [UpsertExample.resubmitted] UpsertExample.resubmitted Hu)
    as (Hcount & _ & _ & _ & Hconflict & _).
  split; [exact Hcount|].
  destruct (Hconflict Hin) as (_ & _ & _ & _ & _).
  reflexivity.
Defined.

(** Submitting rows that are already stored as they are changes nothing and
    still counts them. *)
Example upsert_part_rows_counts_submitted :
  upsert_part_rows UpsertExample.before [UpsertExample.stored; UpsertExample.stored]
  = (UpsertExample.before, 2).
Proof. reflexivity. Qed.

(** ** Group read-back order *)

Section ReadBackOrder.

Lemma ascii_compare_lt_trans (a b c : ascii) :
  Ascii.compare a b = Lt -> Ascii.compare b c = Lt -> Ascii.compare a c = Lt.
Proof.
  unfold Ascii.compare. rewrite !N.compare_lt_iff. apply N.lt_trans.
Qed.

Lemma string_compare_lt_trans (s1 s2 s3 : string) :
  String.compare s1 s2 = Lt -> String.compare s2 s3 = Lt ->
  String.compare s1 s3 = Lt.
Proof.
  revert s2 s3.
  induction s1 as [|c1 s1 IH]; intros [|c2 s2] [|c3 s3]; cbn;
    try discriminate; try reflexivity.
  destruct (Ascii.compare c1 c2) eqn:H12; try discriminate.
  - apply Ascii.compare_eq_iff in H12. subst c2.
    destruct (Ascii.compare c1 c3); try discriminate; [apply IH | reflexivity].
  - intros _.
    destruct (Ascii.compare c2 c3) eqn:H23; try discriminate.
    + apply Ascii.compare_eq_iff in H23. subst c3. now rewrite H12.
    + intros _. now rewrite (ascii_compare_lt_trans _ _ _ H12 H23).
Qed.

Lemma string_compare_refl (s : string) : String.compare s s = Eq.
Proof.
  induction s as [|c s IH]; [reflexivity|]. cbn.
  unfold Ascii.compare. now rewrite N.compare_refl.
Qed.

Lemma string_leb_spec (s1 s2 : string) :
  String.leb s1 s2 = true <-> String.compare s1 s2 = Lt \/ s1 = s2.
Proof.
  unfold String.leb. split.
  - destruct (String.compare s1 s2) eqn:Hc; try discriminate; intros _.
    + right. now apply String.compare_eq_iff.
    + now left.
  - intros [-> | ->]; [reflexivity|]. now rewrite string_compare_refl.
Qed.

Lemma string_leb_trans (s1 s2 s3 : string) :
  String.leb s1 s2 = true -> String.leb s2 s3 = true -> String.leb s1 s3 = true.
Proof.
  rewrite !string_leb_spec.
  intros [H12 | ->] [H23 | ->]; auto.
  left. eapply string_compare_lt_trans; eassumption.
Qed.

Lemma string_leb_refl (s : string) : String.leb s s = true.
Proof. apply string_leb_spec. now right. Qed.

(** What [order_by_leb] says of two rows, in terms of their [ref_no]. *)
Lemma order_by_leb_spec (a b : Parts.t) :
  order_by_leb a b = true <->
  (Parts.ref_no a = "" -> Parts.ref_no b = "")
  /\ (Parts.ref_no a <> "" -> Parts.ref_no b <> "" ->
      (SQLite.cast_int (Parts.ref_no a) <= SQLite.cast_int (Parts.ref_no b))%Z
      /\ (SQLite.cast_int (Parts.ref_no a) = SQLite.cast_int (Parts.ref_no b) ->
          String.leb (Parts.ref_no a) (Parts.ref_no b) = true)).
Proof.
  unfold order_by_leb, SQLite.cast_nullif_empty.
  destruct (decide (Parts.ref_no a = "")) as [Ha|Ha];
    destruct (decide (Parts.ref_no b = "")) as [Hb|Hb].
  - rewrite !bool_decide_eq_true_2 by assumption. cbn.
    rewrite Ha, Hb. split; [|reflexivity]. intros _. split; [auto | contradiction].
  - rewrite bool_decide_eq_true_2, bool_decide_eq_false_2 by assumption. cbn.
    split; [discriminate|]. intros [H _]. now specialize (H Ha).
  - rewrite bool_decide_eq_false_2, bool_decide_eq_true_2 by assumption. cbn.
    split; [|reflexivity]. intros _. split; [contradiction | intros _ Hb'; contradiction].
  - rewrite !bool_decide_eq_false_2 by assumption. cbn.
    destruct (Z.compare_spec (SQLite.cast_int (Parts.ref_no a))
                             (SQLite.cast_int (Parts.ref_no b))) as [Heq|Hlt|Hgt].
    + split.
      * intros Hle. split; [contradiction|]. intros _ _. split; [lia | now intros _].
      * intros [_ H]. now apply H.
    + split; [|reflexivity]. intros _. split; [contradiction|].
      intros _ _. split; [lia | intros; lia].
    + split; [discriminate|]. intros [_ H]. destruct (H Ha Hb) as [Hle _]. lia.
Qed.

Lemma order_by_leb_total (a b : Parts.t) :
  order_by_leb a b = false -> order_by_leb b a = true.
Proof.
  intros Hab. apply order_by_leb_spec.
  assert (Hn : ~ order_by_leb a b = true) by (rewrite Hab; discriminate).
  rewrite order_by_leb_spec in Hn.
  destruct (decide (Parts.ref_no a = "")) as [Ha|Ha];
    destruct (decide (Parts.ref_no b = "")) as [Hb|Hb].
  - exfalso. apply Hn. split; [auto | contradiction].
  - split; [contradiction | intros _ Ha'; contradiction].
  - exfalso. apply Hn. split; [contradiction | intros _ Hb'; contradiction].
  - split; [contradiction|]. intros _ _.
    destruct (Z.compare_spec (SQLite.cast_int (Parts.ref_no a))
                             (SQLite.cast_int (Parts.ref_no b))) as [Heq|Hlt|Hgt].
    + split; [lia|]. intros _.
      destruct (String.leb_total (Parts.ref_no a) (Parts.ref_no b)) as [Hle|Hle];
        [|exact Hle].
      exfalso. apply Hn. split; [contradiction|]. intros _ _. split; [lia | now intros _].
    + exfalso. apply Hn. split; [contradiction|]. intros _ _. split; [lia | intros; lia].
    + split; [lia | intros; lia].
Qed.

Lemma order_by_leb_trans (a b c : Parts.t) :
  order_by_leb a b = true -> order_by_leb b c = true -> order_by_leb a c = true.
Proof.
  rewrite !order_by_leb_spec. intros [Hab1 Hab2] [Hbc1 Hbc2].
  split; [auto|]. intros Ha Hc.
  destruct (decide (Parts.ref_no b = "")) as [Hb|Hb]; [now specialize (Hbc1 Hb)|].
  destruct (Hab2 Ha Hb) as [Hle1 Ht1]. destruct (Hbc2 Hb Hc) as [Hle2 Ht2].
  split; [lia|]. intros Heq.
  apply string_leb_trans with (Parts.ref_no b); [apply Ht1 | apply Ht2]; lia.
Qed.

Lemma order_insert_perm (x : Parts.t) (l : list Parts.t) :
  Permutation (order_insert x l) (x :: l).
Proof.
  induction l as [|y l IH]; [reflexivity|]. cbn.
  destruct (order_by_leb x y); [reflexivity|].
  rewrite IH. apply perm_swap.
Qed.

Lemma order_by_perm (l : list Parts.t) : Permutation (order_by l) l.
Proof.
  induction l as [|x l IH]; [reflexivity|]. cbn.
  rewrite order_insert_perm. now rewrite IH.
Qed.

Lemma order_insert_sorted (x : Parts.t) (l : list Parts.t) :
  StronglySorted (fun a b => order_by_leb a b = true) l ->
  StronglySorted (fun a b => order_by_leb a b = true) (order_insert x l).
Proof.
  induction 1 as [|y l Hs IH Hy]; cbn.
  - constructor; [constructor | constructor].
  - destruct (order_by_leb x y) eqn:Hxy.
    + constructor; [now constructor|].
      constructor; [exact Hxy|].
      eapply Forall_impl; [exact Hy|]. intros z Hz. cbn in Hz.
      now apply order_by_leb_trans with y.
    + constructor; [exact IH|].
      apply order_by_leb_total in Hxy.
      eapply Permutation_Forall; [symmetry; apply order_insert_perm|].
      now constructor.
Qed.

Lemma order_by_sorted (l : list Parts.t) :
  StronglySorted (fun a b => order_by_leb a b = true) (order_by l).
Proof.
  induction l as [|x l IH]; [constructor|]. cbn. now apply order_insert_sorted.
Qed.

Lemma index_insert_perm (x : Parts.t) (l : list Parts.t) :
  Permutation (index_insert x l) (x :: l).
Proof.
  induction l as [|y l IH]; [reflexivity|]. cbn.
  destruct (index_leb x y); [reflexivity|].
  rewrite IH. apply perm_swap.
Qed.

Lemma index_scan_perm (l : list Parts.t) : Permutation (index_scan l) l.
Proof.
  induction l as [|x l IH]; [reflexivity|]. cbn.
  rewrite index_insert_perm. now rewrite IH.
Qed.

Lemma strongly_sorted_before {A : Type} (R : A -> A -> Prop) (l : list A) (a b : A) :
  StronglySorted R l -> occurs_before a b l -> R a b.
Proof.
  intros Hs (l1 & l2 & l3 & ->).
  induction l1 as [|x l1 IH].
  - cbn in Hs. apply StronglySorted_inv in Hs as [_ Hall].
    rewrite Forall_forall in Hall. apply Hall.
    apply elem_of_app. right. apply list_elem_of_here.
  - cbn in Hs. apply StronglySorted_inv in Hs as [Hs _]. now apply IH.
Qed.

End ReadBackOrder.

(** C5 (as amended).  [_fetch_group_df] returns exactly the stored rows of
    the group, ordered by SQLite's integer cast of [ref_no] ascending (the
    value of the leading signed digit run, 0 when there is none), the rows
    with an empty [ref_no] after all the others, and rows with equal cast
    values by the raw [ref_no] string. *)
Theorem fetch_group_df_order (st : DataStore) (vehicle_id group_type table_no group_code : string) :
  let out := _fetch_group_df st vehicle_id group_type table_no group_code in
  Permutation out
    (filter (fun r => in_group (vehicle_id, group_type, table_no, group_code) r = true)
       (parts st))
  /\ forall a b, occurs_before a b out ->
       (Parts.ref_no a = "" -> Parts.ref_no b = "")
       /\ (Parts.ref_no a <> "" -> Parts.ref_no b <> "" ->
           (SQLite.cast_int (Parts.ref_no a) <= SQLite.cast_int (Parts.ref_no b))%Z
           /\ (SQLite.cast_int (Parts.ref_no a) = SQLite.cast_int (Parts.ref_no b) ->
               String.leb (Parts.ref_no a) (Parts.ref_no b) = true)).
Proof.
  cbn zeta. unfold _fetch_group_df.
  split; [rewrite order_by_perm; apply index_scan_perm|].
  intros a b Hab. apply order_by_leb_spec.
  exact (strongly_sorted_before _ _ a b (order_by_sorted _) Hab).
Qed.

Example fetch_group_df_example :
  Parts.ref_no <$> ReadBackExample.fetched = ["A"; "1"; "2"; "10"; ""].
Proof. reflexivity. Qed.

Lemma fetch_group_df_order_witness :
  (SQLite.cast_int "A" <= SQLite.cast_int "1")%Z
  /\ (SQLite.cast_int "2" <= SQLite.cast_int "10")%Z.
Proof.
  pose proof (fetch_group_df_order ReadBackExample.st "xoom" "ENGINE" "E-1" "E-1_XOOM")
    as [_ Hord].
  split.
  - refine (proj1 (proj2 (Hord (ReadBackExample.part "A" "P2")
                                (ReadBackExample.part "1" "P5") _) _ _)).
    + exists [], [], [ReadBackExample.part "2" "P4"; ReadBackExample.part "10" "P1";
                     ReadBackExample.part "" "P3"]. reflexivity.
    + discriminate.
    + discriminate.
  - refine (proj1 (proj2 (Hord (ReadBackExample.part "2" "P4")
                                (ReadBackExample.part "10" "P1") _) _ _)).
    + exists [ReadBackExample.part "A" "P2"; ReadBackExample.part "1" "P5"], [],
             [ReadBackExample.part "" "P3"]. reflexivity.
    + discriminate.
    + discriminate.
Defined.

(** A lettered [ref_no] casts to 0 and is read back before the numeric ones,
    where the specification's order wants it after them. *)
Lemma fetch_group_df_not_spec_order :
  ~ spec_group_order ReadBackExample.fetched.
Proof.
  intros H.
  specialize (H (ReadBackExample.part "A" "P2") (ReadBackExample.part "1" "P5")).
  assert (Hocc : occurs_before (ReadBackExample.part "A" "P2")
                   (ReadBackExample.part "1" "P5") ReadBackExample.fetched).
  { exists [], [], [ReadBackExample.part "2" "P4"; ReadBackExample.part "10" "P1";
                   ReadBackExample.part "" "P3"]. reflexivity. }
  specialize (H Hocc). vm_compute in H. discriminate H.
Qed.

(** Rows that tie in the [ORDER BY] come back in the order of the index,
    by [part_no], and not in the order in which they were inserted. *)
Example fetch_ties_in_index_order :
  Parts.part_no
    <$> _fetch_group_df
          (set_parts [ReadBackExample.part "1" "B"; ReadBackExample.part "1" "A";
                      ReadBackExample.part "01" "C"] empty_store)
          "xoom" "ENGINE" "E-1" "E-1_XOOM"
  = ["C"; "A"; "B"].
Proof. vm_compute. reflexivity. Qed.

(** ** Materialization of a group *)

Section Materialize.

Lemma upsert_row_has r table :
  Parts.identity r ∈ Parts.identity <$> upsert_row r table.
Proof.
  rewrite upsert_row_identities. case_bool_decide as Hin; [exact Hin|].
  apply elem_of_app. right. apply list_elem_of_here.
Qed.

Lemma executemany_upsert_has rows table r :
  r ∈ rows -> Parts.identity r ∈ Parts.identity <$> executemany_upsert rows table.
Proof.
  unfold executemany_upsert. revert table.
  induction rows as [|x rows IH]; intros table Hr; [now apply elem_of_nil in Hr|].
  cbn. apply elem_of_cons in Hr as [->|Hr].
  - apply (executemany_upsert_keeps rows). apply upsert_row_has.
  - now apply IH.
Qed.

Lemma upsert_part_rows_frame (st : DataStore) (dict_rows : list Row.t) :
  let st' := (upsert_part_rows st dict_rows).1 in
  checkpoints st' = checkpoints st /\ vehicles st' = vehicles st
  /\ parts_pages st' = parts_pages st
  /\ CSV_OUTPUT st' = CSV_OUTPUT st /\ PARQUET_OUTPUT st' = PARQUET_OUTPUT st.
Proof. now destruct dict_rows. Qed.

Lemma fetch_perm (st : DataStore) (v g t c : string) :
  Permutation (_fetch_group_df st v g t c)
    (filter (fun r => in_group (v, g, t, c) r = true) (parts st)).
Proof. unfold _fetch_group_df. rewrite order_by_perm. apply index_scan_perm. Qed.

Lemma fetch_in_group (st : DataStore) (v g t c : string) (r : Parts.t) :
  r ∈ _fetch_group_df st v g t c -> in_group (v, g, t, c) r = true.
Proof.
  intros Hr.
  eapply elem_of_Permutation_proper in Hr; [|symmetry; apply fetch_perm].
  now apply list_elem_of_filter in Hr as [Hr _].
Qed.

Lemma fetch_length (st : DataStore) (v g t c : string) :
  length (_fetch_group_df st v g t c) =
  length (filter (fun r => in_group (v, g, t, c) r = true) (parts st)).
Proof. apply Permutation_length, fetch_perm. Qed.

Lemma row_key_enrich (a b c : string) (key : Key) (r : Parts.t) :
  in_group key r = true -> row_key (enrich a b c r) = key.
Proof. unfold in_group. intros H. now apply bool_decide_eq_true_1 in H. Qed.

(** The rows [append_parts_rows] builds from the read-back are the shard
    rows of the canonical rows, column for column. *)
Lemma enrich_shard_row_of (vehicle : Vehicle.t) (ti : TableIndex.t) (r : Parts.t) :
  enrich (Vehicle.vehicle_name vehicle) (Vehicle.model_code vehicle)
    (TableIndex.group_desc ti) r
  = shard_row_of vehicle ti r.
Proof. reflexivity. Qed.

Lemma row_key_shard_row_of (vehicle : Vehicle.t) (ti : TableIndex.t) (key : Key)
    (r : Parts.t) :
  in_group key r = true -> row_key (shard_row_of vehicle ti r) = key.
Proof. unfold in_group. intros H. now apply bool_decide_eq_true_1 in H. Qed.

Lemma filter_all {A : Type} (P : A -> Prop) `{!forall x, Decision (P x)} (l : list A) :
  Forall P l -> filter P l = l.
Proof.
  induction 1 as [|x l Hx _ IH]; [reflexivity|].
  rewrite filter_cons_True by exact Hx. now rewrite IH.
Qed.

Lemma filter_none {A : Type} (P : A -> Prop) `{!forall x, Decision (P x)} (l : list A) :
  Forall (fun x => ~ P x) l -> filter P l = [].
Proof.
  induction 1 as [|x l Hx _ IH]; [reflexivity|].
  rewrite filter_cons_False by exact Hx. exact IH.
Qed.

(** Replacing a group in a shard: the group's rows become exactly the new
    ones and the rows of the other groups stay, in their order. *)
Lemma replace_group_rows (key : Key) (existing df_group : list Row.t) (first : Row.t) :
  row_key first = key ->
  Forall (fun r => row_key r = key) df_group ->
  rows_of_group key (Some (replace_group existing first df_group)) = df_group
  /\ rows_of_other_groups key (Some (replace_group existing first df_group))
     = rows_of_other_groups key (Some existing).
Proof.
  intros Hfirst Hall. unfold rows_of_group, rows_of_other_groups, replace_group.
  cbn [default from_option id]. rewrite Hfirst, !list.filter_app. split.
  - rewrite filter_none, filter_all; [reflexivity | exact Hall |].
    apply Forall_forall. intros r Hr. apply list_elem_of_filter in Hr as [Hr _].
    exact Hr.
  - rewrite (filter_none _ df_group).
    + rewrite app_nil_r. apply filter_all.
      apply Forall_forall. intros r Hr. now apply list_elem_of_filter in Hr as [Hr _].
    + eapply Forall_impl; [exact Hall|]. intros r Hr Hn. now apply Hn.
Qed.

End Materialize.

Section AppendPartsRows.

Variables (vehicle : Vehicle.t) (ti : TableIndex.t) (pg : PartsPage.t).

Let key : Key := group_key vehicle ti.

Lemma convert_some (part_rows : list PartRow.t) :
  exists dict_rows,
    convert_parts_to_dict_list vehicle ti (Some pg) part_rows = Ok dict_rows
    /\ length dict_rows = length part_rows
    /\ Forall (fun d => row_key d = key
                        /\ Row.vehicle_name d = Vehicle.vehicle_name vehicle
                        /\ Row.model_code d = Vehicle.model_code vehicle
                        /\ Row.group_desc d = TableIndex.group_desc ti) dict_rows.
Proof.
  destruct part_rows as [|pr rest].
  - exists []. repeat split. constructor.
  - eexists. split; [reflexivity|]. split; [now rewrite length_fmap|].
    apply Forall_fmap, Forall_forall. intros x _. cbn. repeat split.
Qed.

Lemma in_group_of_identity (x : Parts.t) (d : Row.t) :
  Parts.identity (insert_values d) = Parts.identity x -> in_group (row_key d) x = true.
Proof.
  unfold in_group, Parts.identity, row_key. destruct x, d. cbn.
  intros [= -> -> -> -> _ _]. now apply bool_decide_eq_true_2.
Qed.

(** After the upsert of a non-empty batch the group has canonical rows. *)
Lemma fetch_after_upsert_nonempty (st : DataStore) (d : Row.t) (rest : list Row.t) :
  row_key d = key ->
  _fetch_group_df (upsert_part_rows st (d :: rest)).1 (Vehicle.vehicle_id vehicle)
    (TableIndex.group_type ti) (TableIndex.table_no ti) (TableIndex.group_code ti)
  <> [].
Proof.
  intros Hd Hnil.
  pose proof (executemany_upsert_has (insert_values <$> (d :: rest)) (parts st)
                (insert_values d)) as Hhas.
  rewrite <- upsert_part_rows_parts in Hhas.
  specialize (Hhas ltac:(rewrite fmap_cons; apply list_elem_of_here)).
  apply list_elem_of_fmap in Hhas as (x & Hid & Hx).
  assert (Hin : in_group key x = true) by (rewrite <- Hd; now apply in_group_of_identity).
  assert (Hlen : length (_fetch_group_df (upsert_part_rows st (d :: rest)).1
                   (Vehicle.vehicle_id vehicle) (TableIndex.group_type ti)
                   (TableIndex.table_no ti) (TableIndex.group_code ti)) = 0)
    by now rewrite Hnil.
  rewrite fetch_length in Hlen. apply length_zero_iff_nil in Hlen.
  assert (Hx' : x ∈ filter (fun r => in_group key r = true)
                       (parts (upsert_part_rows st (d :: rest)).1))
    by (apply list_elem_of_filter; split; assumption).
  unfold key, group_key in Hx'. rewrite Hlen in Hx'. now apply elem_of_nil in Hx'.
Qed.

Lemma canonical_rows_key (st : DataStore) :
  Forall (fun r => row_key r = key) (canonical_rows st vehicle ti).
Proof.
  unfold canonical_rows. apply Forall_fmap, Forall_forall. intros r Hr. cbn.
  apply row_key_shard_row_of. now apply fetch_in_group in Hr.
Qed.

Lemma canonical_rows_parts (st st' : DataStore) :
  parts st' = parts st -> canonical_rows st' vehicle ti = canonical_rows st vehicle ti.
Proof. unfold canonical_rows, _fetch_group_df. now intros ->. Qed.

End AppendPartsRows.

(** [append_parts_rows] on a page and a non-empty batch, step by step: the
    upsert, then the CSV rewritten as the rows that are read back from it
    for the other groups followed by the canonical rows of this group, then
    the Parquet file if asked. *)
Lemma append_parts_rows_nonempty (st : DataStore) (vehicle : Vehicle.t) (ti : TableIndex.t)
    (pg : PartsPage.t) (part_rows : list PartRow.t) (pq : bool) :
  part_rows <> [] ->
  exists dict_rows,
    convert_parts_to_dict_list vehicle ti (Some pg) part_rows = Ok dict_rows
    /\ let st1 := (upsert_part_rows st dict_rows).1 in
       let df := canonical_rows st1 vehicle ti in
       let st2 := set_CSV_OUTPUT
                    (Some (rows_of_other_groups (group_key vehicle ti)
                             (read_csv <$> CSV_OUTPUT st) ++ df))
                    st1 in
       df <> []
       /\ append_parts_rows st vehicle ti (Some pg) part_rows true pq =
          ((if pq then _overwrite_group_in_parquet st2 df else st2),
           Ok (length part_rows)).
Proof.
  intros Hne.
  destruct (convert_some vehicle ti pg part_rows) as (dict_rows & Hconv & Hlen & Hall).
  exists dict_rows. split; [exact Hconv|]. cbn zeta.
  destruct dict_rows as [|d rest].
  { destruct part_rows; [contradiction | discriminate Hlen]. }
  apply Forall_cons in Hall as [(Hkey & Hvn & Hmc & Hgd) _].
  pose proof (fetch_after_upsert_nonempty vehicle ti st d rest Hkey) as Hfetch.
  pose proof (upsert_part_rows_frame st (d :: rest)) as (_ & _ & _ & Hcsv & _).
  unfold append_parts_rows. rewrite Hconv.
  rewrite (surjective_pairing (upsert_part_rows st (d :: rest))).
  cbn [fst snd]. rewrite upsert_part_rows_count, Hlen.
  set (st1 := (upsert_part_rows st (d :: rest)).1) in *.
  cbn [orb].
  assert (Hdf : canonical_rows st1 vehicle ti <> []).
  { unfold canonical_rows. intros Hnil. apply fmap_nil_inv in Hnil. contradiction. }
  split; [exact Hdf|].
  unfold canonical_rows in *.
  destruct (_fetch_group_df st1 (Vehicle.vehicle_id vehicle) (TableIndex.group_type ti)
              (TableIndex.table_no ti) (TableIndex.group_code ti)) as [|f fs] eqn:Hf;
    [contradiction|].
  rewrite Hvn, Hmc, Hgd.
  assert (Hrows : enrich (Vehicle.vehicle_name vehicle) (Vehicle.model_code vehicle)
                    (TableIndex.group_desc ti) <$> f :: fs
                  = shard_row_of vehicle ti <$> f :: fs).
  { apply list_fmap_ext. intros i x _. apply enrich_shard_row_of. }
  rewrite Hrows.
  set (df := shard_row_of vehicle ti <$> f :: fs) in *.
  assert (Hfirst : exists first tl, df = first :: tl
                                    /\ row_key first = group_key vehicle ti).
  { eexists _, _. split; [reflexivity|]. apply row_key_shard_row_of.
    apply (fetch_in_group st1). rewrite Hf. apply list_elem_of_here. }
  destruct Hfirst as (first & tl & Hdfeq & Hfk).
  unfold write_shards, _overwrite_group_in_csv. rewrite Hcsv.
  unfold rows_of_other_groups.
  destruct (CSV_OUTPUT st) as [written|]; cbn [default from_option id fmap option_fmap
                                                option_map].
  - rewrite Hdfeq. unfold replace_group. rewrite Hfk. rewrite <- Hdfeq.
    now destruct pq.
  - rewrite filter_nil. cbn [app]. now destruct pq.
Qed.

(** What a materialization writes: the rows read back from the CSV shard
    for the other keys, followed by exactly the rows the canonical store
    now holds for the group.  The rows kept are the rows as [read_csv]
    returns them, selected by the key they have then. *)
Lemma append_parts_rows_rewrites (st : DataStore) (vehicle : Vehicle.t)
    (ti : TableIndex.t) (pg : PartsPage.t) (part_rows : list PartRow.t) (pq : bool) :
  part_rows <> [] ->
  let key := group_key vehicle ti in
  let out := append_parts_rows st vehicle ti (Some pg) part_rows true pq in
  out.2 = Ok (length part_rows)
  /\ CSV_OUTPUT out.1
     = Some (rows_of_other_groups key (read_csv <$> CSV_OUTPUT st)
             ++ canonical_rows out.1 vehicle ti)
  /\ rows_of_group key (CSV_OUTPUT out.1) = canonical_rows out.1 vehicle ti
  /\ length (rows_of_group key (CSV_OUTPUT out.1))
     = length (filter (fun r => in_group key r = true) (parts out.1))
  /\ (pq = true ->
      rows_of_group key (PARQUET_OUTPUT out.1) = canonical_rows out.1 vehicle ti
      /\ rows_of_other_groups key (PARQUET_OUTPUT out.1)
         = rows_of_other_groups key (PARQUET_OUTPUT st)).
Proof.
  intros Hne. cbn zeta.
  destruct (append_parts_rows_nonempty st vehicle ti pg part_rows pq Hne)
    as (dict_rows & _ & Hdf & ->).
  set (st1 := (upsert_part_rows st dict_rows).1) in *.
  set (df := canonical_rows st1 vehicle ti) in *.
  set (key := group_key vehicle ti).
  set (st2 := set_CSV_OUTPUT
                (Some (rows_of_other_groups key (read_csv <$> CSV_OUTPUT st) ++ df)) st1).
  set (st3 := if pq then _overwrite_group_in_parquet st2 df else st2).
  cbn [fst snd].
  assert (Hparts : parts st3 = parts st1).
  { unfold st3, _overwrite_group_in_parquet.
    destruct pq; [|reflexivity]. destruct (PARQUET_OUTPUT st2), df; reflexivity. }
  assert (Hcsv3 : CSV_OUTPUT st3
                  = Some (rows_of_other_groups key (read_csv <$> CSV_OUTPUT st) ++ df)).
  { unfold st3, _overwrite_group_in_parquet.
    destruct pq; [|reflexivity]. destruct (PARQUET_OUTPUT st2), df; reflexivity. }
  assert (Hcan : canonical_rows st3 vehicle ti = df)
    by (now apply canonical_rows_parts).
  pose proof (canonical_rows_key vehicle ti st1) as Hkeys. fold df key in Hkeys.
  assert (Hgroup : rows_of_group key (CSV_OUTPUT st3) = df).
  { rewrite Hcsv3. unfold rows_of_group, rows_of_other_groups.
    cbn [default from_option id]. rewrite list.filter_app.
    rewrite filter_none, filter_all; [reflexivity | exact Hkeys |].
    apply Forall_forall. intros r Hr. now apply list_elem_of_filter in Hr as [Hr _]. }
  rewrite Hcan.
  split; [reflexivity|]. split; [exact Hcsv3|]. split; [exact Hgroup|].
  split.
  { rewrite Hgroup, Hparts. unfold df, canonical_rows. rewrite length_fmap.
    apply fetch_length. }
  intros ->. unfold st3, _overwrite_group_in_parquet.
  assert (Hpq2 : PARQUET_OUTPUT st2 = PARQUET_OUTPUT st).
  { unfold st2, st1. cbn.
    now pose proof (upsert_part_rows_frame st dict_rows) as (_ & _ & _ & _ & ->). }
  rewrite Hpq2.
  destruct df as [|first tl] eqn:Hdfeq; [contradiction|].
  apply Forall_cons in Hkeys as Hk. destruct Hk as [Hfk _].
  destruct (PARQUET_OUTPUT st) as [existing|]; cbn [PARQUET_OUTPUT set_PARQUET_OUTPUT].
  - apply replace_group_rows; assumption.
  - unfold rows_of_group, rows_of_other_groups. cbn [default from_option id].
    rewrite filter_all by exact Hkeys. split; [reflexivity|].
    rewrite filter_nil. apply filter_none.
    eapply Forall_impl; [exact Hkeys|]. intros r Hr Hn. now apply Hn.
Qed.

(** C3, at a failing input.  A vehicle listed as "Nan" has the id "nan".
    Its group is materialized twice with the same three rows, as in a
    forced re-run; the canonical store holds three rows for the group.  The
    claim wants the three rows of the first materialization removed and
    three rows in the shard.  The code reads the shard back with the
    parser's NA markers in force, so the [vehicle_id] of the stored rows
    comes back empty, the mask built from "nan" matches none of them, and
    they are written back (with an empty [vehicle_id]) before the three new
    rows: six rows, where [_overwrite_group_in_csv] is documented to write
    "without creating duplicates".  The Parquet shard, read back as it
    was written, holds three. *)
Theorem materialization_failing_input :
  length (_fetch_group_df NanExample.twice "nan" "ENGINE" "E-1" "E-1_NAN") = 3
  /\ CSV_OUTPUT NanExample.once
     = Some [NanExample.shard_row "nan" "1" "P1"; NanExample.shard_row "nan" "2" "P2";
             NanExample.shard_row "nan" "3" "P3"]
  /\ CSV_OUTPUT NanExample.twice
     = Some [NanExample.shard_row "" "1" "P1"; NanExample.shard_row "" "2" "P2";
             NanExample.shard_row "" "3" "P3";
             NanExample.shard_row "nan" "1" "P1"; NanExample.shard_row "nan" "2" "P2";
             NanExample.shard_row "nan" "3" "P3"]
  /\ length (default [] (CSV_OUTPUT NanExample.twice)) = 6
  /\ length (default [] (PARQUET_OUTPUT NanExample.twice)) = 3.
Proof. vm_compute. repeat split. Qed.

(** The same defect on the rows of another group: a remark spelled "N/A"
    in the rows of one group is blanked in the shard when another group is
    materialized, so the shard no longer holds the canonical rows of the
    first group. *)
Example materialization_blanks_other_rows :
  Row.remark <$> default [] (CSV_OUTPUT NanExample.remark_written) = ["N/A"]
  /\ Row.remark <$> default [] (CSV_OUTPUT NanExample.other_group_written)
     = [""; ""; ""; ""]
  /\ Parts.remark <$> parts NanExample.other_group_written = ["N/A"; ""; ""; ""].
Proof. vm_compute. repeat split. Qed.

(** Five rows of the group in the shard, three in the canonical store:
    three in the shard afterwards, and the other group's row is kept. *)
Example rematerialize_five_to_three :
  length (rows_of_group (group_key MaterializeExample.vehicle MaterializeExample.ti)
            (CSV_OUTPUT MaterializeExample.st)) = 5
  /\ length (rows_of_group (group_key MaterializeExample.vehicle MaterializeExample.ti)
               (CSV_OUTPUT MaterializeExample.rematerialized)) = 3
  /\ length (default [] (CSV_OUTPUT MaterializeExample.rematerialized)) = 4.
Proof. vm_compute. repeat split. Qed.

(** ** The group loop *)

Section GroupLoop.

Variable E : Extractor.
Variable vehicle : Vehicle.t.

Lemma overwrite_csv_frame (st : DataStore) (df : list Row.t) :
  checkpoints (_overwrite_group_in_csv st df).1 = checkpoints st
  /\ parts (_overwrite_group_in_csv st df).1 = parts st
  /\ PARQUET_OUTPUT (_overwrite_group_in_csv st df).1 = PARQUET_OUTPUT st.
Proof.
  unfold _overwrite_group_in_csv.
  destruct (CSV_OUTPUT st) as [existing|]; [destruct df|]; repeat split.
Qed.

Lemma overwrite_parquet_frame (st : DataStore) (df : list Row.t) :
  checkpoints (_overwrite_group_in_parquet st df) = checkpoints st
  /\ parts (_overwrite_group_in_parquet st df) = parts st
  /\ CSV_OUTPUT (_overwrite_group_in_parquet st df) = CSV_OUTPUT st.
Proof.
  unfold _overwrite_group_in_parquet.
  destruct (PARQUET_OUTPUT st) as [existing|]; [destruct df|]; repeat split.
Qed.

Lemma write_shards_frame (st : DataStore) (df : list Row.t) (csv pq : bool) :
  checkpoints (write_shards st df csv pq).1 = checkpoints st
  /\ parts (write_shards st df csv pq).1 = parts st.
Proof.
  unfold write_shards. destruct csv.
  - pose proof (overwrite_csv_frame st df) as (Hc & Hp & _).
    destruct (_overwrite_group_in_csv st df) as [st1 [u|e]]; cbn [fst] in *;
      [|now split].
    destruct pq; cbn [fst]; [|now split].
    pose proof (overwrite_parquet_frame st1 df) as (Hc' & Hp' & _).
    split; congruence.
  - destruct pq; cbn [fst]; [|now split].
    pose proof (overwrite_parquet_frame st df) as (Hc' & Hp' & _). now split.
Qed.

Lemma append_parts_rows_checkpoints (st : DataStore) (ti : TableIndex.t)
    (parts_page : option PartsPage.t) (part_rows : list PartRow.t) (csv pq : bool) :
  checkpoints (append_parts_rows st vehicle ti parts_page part_rows csv pq).1
  = checkpoints st.
Proof.
  unfold append_parts_rows.
  destruct (convert_parts_to_dict_list vehicle ti parts_page part_rows) as [dict_rows|e];
    [|reflexivity].
  rewrite (surjective_pairing (upsert_part_rows st dict_rows)).
  pose proof (upsert_part_rows_frame st dict_rows) as (Hc & _).
  set (st1 := (upsert_part_rows st dict_rows).1) in *.
  destruct (csv || pq); [|exact Hc].
  assert (Hw : forall df, checkpoints
            (match write_shards st1 df csv pq with
             | (st2, Raise e) => (st2, @Raise nat e)
             | (st2, Ok _) => (st2, Ok (upsert_part_rows st dict_rows).2)
             end).1 = checkpoints st).
  { intros df. pose proof (write_shards_frame st1 df csv pq) as (Hc' & _).
    destruct (write_shards st1 df csv pq) as [st2 [u|e]]; cbn [fst] in *; congruence. }
  destruct (_fetch_group_df st1 _ _ _ _) as [|f fs]; [apply Hw|].
  destruct dict_rows as [|d rest]; [exact Hc | apply Hw].
Qed.

(** The inner [try] body: on success the checkpoint of [key] is [done]
    with the row count and one [LogDone] line is added; on an exception
    no checkpoint and no log line has been written yet. *)
Lemma scrape_group_outcome (p : ScrapingPipeline) (ti : TableIndex.t) (key : Key) :
  let out := scrape_group E p vehicle ti key in
  force_reprocess out.1 = force_reprocess p
  /\ save_parquet out.1 = save_parquet p
  /\ _vehicles_processed out.1 = _vehicles_processed p
  /\ _milestone_batch out.1 = _milestone_batch p
  /\ match out.2 with
     | Ok _ =>
         exists parts_page part_rows image_saved,
           collect_parts E vehicle ti = Ok (parts_page, part_rows, image_saved)
           /\ checkpoints (store out.1)
              = <[key := Checkpoint.mk Checkpoint.done (Some (length part_rows))
                           image_saved None]> (checkpoints (store p))
           /\ log out.1 = log p ++ [LogDone key (length part_rows) image_saved]
     | Raise _ =>
         checkpoints (store out.1) = checkpoints (store p) /\ log out.1 = log p
     end.
Proof.
  cbn zeta. unfold scrape_group.
  destruct (collect_parts E vehicle ti) as [[[parts_page part_rows] image_saved]|e];
    [|now cbn].
  set (p1 := match parts_page with
             | Some pg => set_store (save_parts_page (store p) pg) p
             | None => p
             end).
  assert (Hp1 : force_reprocess p1 = force_reprocess p
                /\ save_parquet p1 = save_parquet p
                /\ _vehicles_processed p1 = _vehicles_processed p
                /\ _milestone_batch p1 = _milestone_batch p
                /\ checkpoints (store p1) = checkpoints (store p)
                /\ log p1 = log p)
    by (unfold p1; destruct parts_page; repeat split).
  destruct Hp1 as (Hf & Hs & Hv & Hm & Hc & Hl).
  destruct part_rows as [|pr rest].
  - cbn. destruct image_saved; cbn; repeat split; try assumption;
      eexists _, [], _; (split; [reflexivity|]); cbn; rewrite Hc, Hl; split; reflexivity.
  - pose proof (append_parts_rows_checkpoints (store p1) ti parts_page (pr :: rest)
                  true (save_parquet p1)) as Hapc.
    destruct (append_parts_rows (store p1) vehicle ti parts_page (pr :: rest) true
                (save_parquet p1)) as [st [n|e]]; cbn [fst] in Hapc.
    + cbn. destruct image_saved; cbn; repeat split; try assumption;
        eexists _, (pr :: rest), _; (split; [reflexivity|]); cbn;
        rewrite Hapc, Hc, Hl; split; reflexivity.
    + cbn. repeat split; try assumption. now rewrite Hapc.
Qed.

End GroupLoop.

Section GroupStep.

Variable E : Extractor.
Variable vehicle : Vehicle.t.

Lemma due_dec (p : ScrapingPipeline) (key : Key) :
  due p key <->
  bool_decide (checkpoint_status (store p) key = Some Checkpoint.done)
  && negb (force_reprocess p) = false.
Proof.
  unfold due. split.
  - intros [Hs | Hf].
    + now rewrite (bool_decide_eq_false_2 _ Hs).
    + rewrite Hf. apply andb_false_r.
  - intros H. apply andb_false_iff in H as [H|H].
    + left. now apply bool_decide_eq_false_1 in H.
    + right. now apply negb_false_iff in H.
Qed.


(** A group whose extraction raises: the checkpoint becomes [error] with
    the message, and the step returns. *)
Lemma process_group_raise (p : ScrapingPipeline) (ti : TableIndex.t) (e : exn) :
  due p (group_key vehicle ti) ->
  collect_parts E vehicle ti = Raise e ->
  let p' := process_group E vehicle p ti in
  checkpoints (store p') =
    <[group_key vehicle ti := Checkpoint.mk Checkpoint.error None false (Some (exn_str e))]>
      (checkpoints (store p))
  /\ parts (store p') = parts (store p)
  /\ CSV_OUTPUT (store p') = CSV_OUTPUT (store p)
  /\ PARQUET_OUTPUT (store p') = PARQUET_OUTPUT (store p)
  /\ total_groups_failed p' = total_groups_failed p + 1
  /\ log p' = log p ++ [LogScraping (group_key vehicle ti);
                        LogGroupError (group_key vehicle ti) (exn_str e)].
Proof.
  intros Hdue Hraise. cbn zeta. unfold process_group.
  apply due_dec in Hdue. rewrite Hdue. unfold scrape_group. rewrite Hraise.
  cbn. rewrite <- app_assoc. repeat split.
  unfold checkpoint_mark_error, checkpoint_mark_pending. cbn.
  apply insert_insert_eq.
Qed.

(** A group whose extraction returns no row: the checkpoint becomes [done]
    with a row count of 0; the canonical rows and both shards are left as
    they were. *)
Lemma process_group_zero_rows (p : ScrapingPipeline) (ti : TableIndex.t)
    (parts_page : option PartsPage.t) (image_saved : bool) :
  due p (group_key vehicle ti) ->
  collect_parts E vehicle ti = Ok (parts_page, [], image_saved) ->
  let p' := process_group E vehicle p ti in
  checkpoints (store p') =
    <[group_key vehicle ti := Checkpoint.mk Checkpoint.done (Some 0) image_saved None]>
      (checkpoints (store p))
  /\ parts (store p') = parts (store p)
  /\ parts_pages (store p')
     = match parts_page with
       | Some pg => parts_pages (upsert_parts_page (store p) pg)
       | None => parts_pages (store p)
       end
  /\ CSV_OUTPUT (store p') = CSV_OUTPUT (store p)
  /\ PARQUET_OUTPUT (store p') = PARQUET_OUTPUT (store p)
  /\ total_groups_done p' = total_groups_done p + 1
  /\ total_parts_rows p' = total_parts_rows p
  /\ log p' = log p ++ [LogScraping (group_key vehicle ti);
                        LogDone (group_key vehicle ti) 0 image_saved].
Proof.
  intros Hdue Hzero. cbn zeta. unfold process_group.
  apply due_dec in Hdue. rewrite Hdue. unfold scrape_group. rewrite Hzero.
  destruct parts_page as [pg|], image_saved; cbn; rewrite <- app_assoc;
    repeat split; unfold checkpoint_mark_done, checkpoint_mark_pending; cbn;
    apply insert_insert_eq.
Qed.

(** What any iteration of the group loop leaves alone, and what it logs
    first. *)
Lemma process_group_frame (p : ScrapingPipeline) (ti : TableIndex.t) :
  let p' := process_group E vehicle p ti in
  force_reprocess p' = force_reprocess p
  /\ save_parquet p' = save_parquet p
  /\ _vehicles_processed p' = _vehicles_processed p
  /\ _milestone_batch p' = _milestone_batch p
  /\ (forall k, k <> group_key vehicle ti ->
                checkpoints (store p') !! k = checkpoints (store p) !! k)
  /\ exists events,
       log p' = log p ++ events
       /\ (due p (group_key vehicle ti) -> LogScraping (group_key vehicle ti) ∈ events).
Proof.
  cbn zeta. unfold process_group.
  destruct (bool_decide _ && negb _) eqn:Hskip.
  - cbn. repeat split. eexists. split; [reflexivity|].
    intros Hdue. apply due_dec in Hdue. congruence.
  - set (p1 := emit (LogScraping (group_key vehicle ti))
                 (set_store (checkpoint_mark_pending (store p) (group_key vehicle ti)) p)).
    pose proof (scrape_group_outcome E vehicle p1 ti (group_key vehicle ti))
      as (Hf & Hs & Hv & Hm & Hout).
    cbn zeta in Hf, Hs, Hv, Hm, Hout.
    destruct (scrape_group E p1 vehicle ti (group_key vehicle ti)) as [p2 [u|e]];
      cbn [fst snd] in *.
    + destruct Hout as (pp & rows & img & _ & Hc & Hl).
      repeat split; try assumption.
      * intros k Hk. rewrite Hc. rewrite lookup_insert_ne by congruence.
        unfold p1. cbn. now rewrite lookup_insert_ne by congruence.
      * eexists. split; [rewrite Hl; unfold p1; cbn; now rewrite <- app_assoc|].
        intros _. apply list_elem_of_here.
    + destruct Hout as (Hc & Hl).
      cbn. repeat split; try assumption.
      * intros k Hk. rewrite lookup_insert_ne by congruence. rewrite Hc.
        unfold p1. cbn. now rewrite lookup_insert_ne by congruence.
      * eexists. split; [rewrite Hl; unfold p1; cbn; now rewrite <- app_assoc|].
        intros _. apply list_elem_of_here.
Qed.

Lemma process_groups_app (p : ScrapingPipeline) (l1 l2 : list TableIndex.t) :
  process_groups E vehicle p (l1 ++ l2)
  = process_groups E vehicle (process_groups E vehicle p l1) l2.
Proof. unfold process_groups. apply fold_left_app. Qed.

Lemma process_groups_frame (p : ScrapingPipeline) (indices : list TableIndex.t) :
  let p' := process_groups E vehicle p indices in
  force_reprocess p' = force_reprocess p
  /\ save_parquet p' = save_parquet p
  /\ _vehicles_processed p' = _vehicles_processed p
  /\ _milestone_batch p' = _milestone_batch p
  /\ exists events, log p' = log p ++ events.
Proof.
  cbn zeta. revert p. induction indices as [|ti rest IH]; intros p.
  - repeat split. exists []. now rewrite app_nil_r.
  - change (process_groups E vehicle p (ti :: rest))
      with (process_groups E vehicle (process_group E vehicle p ti) rest).
    destruct (IH (process_group E vehicle p ti)) as (Hf & Hs & Hv & Hm & evs & Hl).
    destruct (process_group_frame p ti) as (Hf' & Hs' & Hv' & Hm' & _ & evs' & Hl' & _).
    split; [congruence|]. split; [congruence|]. split; [congruence|].
    split; [congruence|].
    exists (evs' ++ evs). rewrite Hl, Hl'. now rewrite app_assoc.
Qed.

End GroupStep.

Section GroupLoopFacts.

Variable E : Extractor.
Variable vehicle : Vehicle.t.

Lemma process_groups_checkpoints_other (p : ScrapingPipeline)
    (indices : list TableIndex.t) (k : Key) :
  k ∉ group_key vehicle <$> indices ->
  checkpoints (store (process_groups E vehicle p indices)) !! k
  = checkpoints (store p) !! k.
Proof.
  revert p. induction indices as [|ti rest IH]; intros p Hk; [reflexivity|].
  rewrite fmap_cons, not_elem_of_cons in Hk. destruct Hk as [Hne Hrest].
  change (process_groups E vehicle p (ti :: rest))
    with (process_groups E vehicle (process_group E vehicle p ti) rest).
  rewrite IH by exact Hrest.
  now apply (process_group_frame E vehicle p ti).
Qed.

(** Every later group that is due when its turn comes has its extraction
    started. *)
Lemma process_groups_attempts_due (p : ScrapingPipeline)
    (l1 l2 : list TableIndex.t) (ti : TableIndex.t) :
  due (process_groups E vehicle p l1) (group_key vehicle ti) ->
  LogScraping (group_key vehicle ti)
  ∈ log (process_groups E vehicle p (l1 ++ ti :: l2)).
Proof.
  intros Hdue. rewrite process_groups_app.
  change (process_groups E vehicle (process_groups E vehicle p l1) (ti :: l2))
    with (process_groups E vehicle
            (process_group E vehicle (process_groups E vehicle p l1) ti) l2).
  destruct (process_groups_frame E vehicle
              (process_group E vehicle (process_groups E vehicle p l1) ti) l2)
    as (_ & _ & _ & _ & evs & ->).
  destruct (process_group_frame E vehicle (process_groups E vehicle p l1) ti)
    as (_ & _ & _ & _ & _ & evs' & -> & Hin).
  apply elem_of_app. left. apply elem_of_app. right. now apply Hin.
Qed.

End GroupLoopFacts.

Section VehicleStep.

Variable X : StoreMethods.

Lemma after_vehicle_frame (p : ScrapingPipeline) (vehicle_id : string) :
  let p' := _after_vehicle X p vehicle_id in
  force_reprocess p' = force_reprocess p
  /\ save_parquet p' = save_parquet p
  /\ _vehicles_processed p' = _vehicles_processed p + 1
  /\ exists events, log p' = log p ++ events /\ attempts events = [].
Proof.
  cbn zeta. unfold _after_vehicle.
  destruct (_ =? 0)%nat; [|cbn; repeat split; exists []; now rewrite app_nil_r].
  destruct (mark_milestone X _ _ _) as [st'|e]; cbn; repeat split.
  - eexists. split; reflexivity.
  - eexists. rewrite <- app_assoc. split; reflexivity.
Qed.

Lemma after_vehicle_same_data (p : ScrapingPipeline) (vehicle_id : string) :
  milestone_frame X -> same_data (store p) (store (_after_vehicle X p vehicle_id)).
Proof.
  intros HX. unfold _after_vehicle.
  destruct (_ =? 0)%nat; [|now repeat split].
  destruct (mark_milestone X _ _ _) as [st'|e] eqn:Hm; cbn; [|now repeat split].
  apply HX in Hm. exact Hm.
Qed.

(** Whatever discovery, the gate or the groups do, the vehicle is counted
    and the loop moves on. *)
Lemma process_vehicle_counts (E : Extractor) (p : ScrapingPipeline) (vehicle : Vehicle.t) :
  _vehicles_processed (process_vehicle X E p vehicle) = _vehicles_processed p + 1
  /\ force_reprocess (process_vehicle X E p vehicle) = force_reprocess p.
Proof.
  unfold process_vehicle.
  destruct (collect_indices E vehicle) as [[|ti rest]|e];
    try (destruct (after_vehicle_frame
                     (emit (LogNoGroups (Vehicle.vehicle_id vehicle)) p)
                     (Vehicle.vehicle_id vehicle)) as (Hf & _ & Hv & _);
         now split);
    try (destruct (after_vehicle_frame
                     (emit (LogVehicleFailed (Vehicle.vehicle_id vehicle) (exn_str e)) p)
                     (Vehicle.vehicle_id vehicle)) as (Hf & _ & Hv & _);
         now split).
  destruct (vehicle_gate X p _ _) as [[|]|e].
  - destruct (after_vehicle_frame
                (emit (LogSkipVehicleDone (Vehicle.vehicle_id vehicle)
                         (length (ti :: rest))) p)
                (Vehicle.vehicle_id vehicle)) as (Hf & _ & Hv & _).
    now split.
  - match goal with
    | |- context [_after_vehicle X ?q _] =>
        destruct (after_vehicle_frame q (Vehicle.vehicle_id vehicle))
          as (Hf & _ & Hv & _)
    end.
    rewrite Hv, Hf.
    destruct (process_groups_frame E vehicle
                (set_total_groups_seen (total_groups_seen p + length (ti :: rest)) p)
                (ti :: rest)) as (Hf' & _ & Hv' & _).
    rewrite Hv', Hf'. now split.
  - destruct (after_vehicle_frame
                (emit (LogVehicleFailed (Vehicle.vehicle_id vehicle) (exn_str e)) p)
                (Vehicle.vehicle_id vehicle)) as (Hf & _ & Hv & _).
    now split.
Qed.

Lemma process_vehicles_counts (E : Extractor) (vehicles : list Vehicle.t)
    (p : ScrapingPipeline) :
  _vehicles_processed (_process_vehicles X E p vehicles)
  = _vehicles_processed p + length vehicles.
Proof.
  revert p. induction vehicles as [|v rest IH]; intros p; cbn; [lia|].
  unfold _process_vehicles in IH. rewrite IH.
  destruct (process_vehicle_counts E p v) as [-> _]. lia.
Qed.

End VehicleStep.

(** C9 (as amended).  When the extraction of a due group succeeds with an
    empty row list, the group loop marks the checkpoint [done] with a row
    count of 0 (and the reported image flag), counts the group as done, and
    calls neither the part-row upsert nor the shard writers: the canonical
    part rows and both shards are as before, so the rows the shards held
    for the group stay in place.  The page metadata returned with the empty
    list is still upserted into [parts_pages]. *)
Theorem zero_row_completion (E : Extractor) (vehicle : Vehicle.t) (p : ScrapingPipeline)
    (ti : TableIndex.t) (parts_page : option PartsPage.t) (image_saved : bool) :
  due p (group_key vehicle ti) ->
  collect_parts E vehicle ti = Ok (parts_page, [], image_saved) ->
  let key := group_key vehicle ti in
  let p' := process_group E vehicle p ti in
  checkpoints (store p') !! key
    = Some (Checkpoint.mk Checkpoint.done (Some 0) image_saved None)
  /\ checkpoint_status (store p') key = Some Checkpoint.done
  /\ parts (store p') = parts (store p)
  /\ parts_pages (store p')
     = match parts_page with
       | Some pg => parts_pages (upsert_parts_page (store p) pg)
       | None => parts_pages (store p)
       end
  /\ CSV_OUTPUT (store p') = CSV_OUTPUT (store p)
  /\ PARQUET_OUTPUT (store p') = PARQUET_OUTPUT (store p)
  /\ rows_of_group key (CSV_OUTPUT (store p')) = rows_of_group key (CSV_OUTPUT (store p))
  /\ rows_of_group key (PARQUET_OUTPUT (store p'))
     = rows_of_group key (PARQUET_OUTPUT (store p))
  /\ total_groups_done p' = total_groups_done p + 1
  /\ total_parts_rows p' = total_parts_rows p
  /\ log p' = log p ++ [LogScraping key; LogDone key 0 image_saved].
Proof.
  intros Hdue Hzero. cbn zeta.
  destruct (process_group_zero_rows E vehicle p ti parts_page image_saved Hdue Hzero)
    as (Hc & Hp & Hpp & Hcsv & Hpq & Hd & Hr & Hl).
  unfold checkpoint_status. rewrite Hc, Hcsv, Hpq, lookup_insert_eq.
  repeat split; assumption.
Qed.

Lemma zero_row_completion_witness :
  let p := process_groups PipelineExample.E PipelineExample.v1
             (new_pipeline true false empty_store)
             [PipelineExample.gA; PipelineExample.gB] in
  checkpoints (store (process_group PipelineExample.E PipelineExample.v1 p
                        PipelineExample.gC))
    !! group_key PipelineExample.v1 PipelineExample.gC
  = Some (Checkpoint.mk Checkpoint.done (Some 0) false None).
Proof.
  cbn zeta.
  apply (zero_row_completion PipelineExample.E PipelineExample.v1 _ PipelineExample.gC
           (Some (PipelineExample.page PipelineExample.gC)) false).
  - right. reflexivity.
  - reflexivity.
Defined.

(** The empty row list comes with a page, and the page metadata is written:
    the canonical store does change. *)
Lemma zero_rows_page_metadata_upserted :
  let p := process_groups PipelineExample.E PipelineExample.v1
             (new_pipeline true false empty_store)
             [PipelineExample.gA; PipelineExample.gB] in
  collect_parts PipelineExample.E PipelineExample.v1 PipelineExample.gC
  = Ok (Some (PipelineExample.page PipelineExample.gC), [], false)
  /\ ~ canonical_store_unchanged (store p)
        (store (process_group PipelineExample.E PipelineExample.v1 p PipelineExample.gC)).
Proof.
  cbn zeta. split; [reflexivity|].
  intros [_ Hpp].
  assert (Hl : parts_pages
                 (store (process_group PipelineExample.E PipelineExample.v1
                           (process_groups PipelineExample.E PipelineExample.v1
                              (new_pipeline true false empty_store)
                              [PipelineExample.gA; PipelineExample.gB])
                           PipelineExample.gC))
               !! group_key PipelineExample.v1 PipelineExample.gC
               = Some ("http://x/p", "")) by (vm_compute; reflexivity).
  rewrite Hpp in Hl. vm_compute in Hl. discriminate Hl.
Qed.

(** C6.  In the group loop over [pre ++ B :: post], let group [B] be due
    when its turn comes and let its extraction raise.  Then the checkpoint
    of [B] is set to [error] with the message; no other checkpoint changes
    at that step, and at the end of the loop every checkpoint whose key is
    not among [B] and the later groups is what it was before [B], so a group
    completed earlier keeps [done]; the loop goes on over [post], and every
    later group that is due at its turn has its extraction started.  The
    vehicle is then counted as processed, and a run whose vehicle listing
    succeeded returns normally. *)
Theorem error_isolation (E : Extractor) (vehicle : Vehicle.t) (p : ScrapingPipeline)
    (pre post : list TableIndex.t) (B : TableIndex.t) (e : exn) :
  let before := process_groups E vehicle p pre in
  let after := process_group E vehicle before B in
  let final := process_groups E vehicle p (pre ++ B :: post) in
  due before (group_key vehicle B) ->
  collect_parts E vehicle B = Raise e ->
  checkpoints (store after) !! group_key vehicle B
    = Some (Checkpoint.mk Checkpoint.error None false (Some (exn_str e)))
  /\ (forall k, k <> group_key vehicle B ->
                checkpoints (store after) !! k = checkpoints (store before) !! k)
  /\ final = process_groups E vehicle after post
  /\ (forall k, k ∉ group_key vehicle <$> B :: post ->
                checkpoints (store final) !! k = checkpoints (store before) !! k)
  /\ LogGroupError (group_key vehicle B) (exn_str e) ∈ log final
  /\ (forall post1 C post2,
        post = post1 ++ C :: post2 ->
        due (process_groups E vehicle after post1) (group_key vehicle C) ->
        LogScraping (group_key vehicle C) ∈ log final)
  /\ (forall X q, _vehicles_processed (process_vehicle X E q vehicle)
                  = _vehicles_processed q + 1)
  /\ (forall X C q url vehicles,
        collect_vehicles C url = Ok vehicles -> (run X E C q url).2 = Ok tt).
Proof.
  cbn zeta. intros Hdue Hraise.
  assert (Hfinal : process_groups E vehicle p (pre ++ B :: post)
                   = process_groups E vehicle
                       (process_group E vehicle (process_groups E vehicle p pre) B) post).
  { now rewrite process_groups_app. }
  destruct (process_group_raise E vehicle _ B e Hdue Hraise)
    as (Hc & _ & _ & _ & _ & Hl).
  cbn zeta in Hc, Hl.
  split; [rewrite Hc; apply lookup_insert_eq|].
  split; [intros k Hk; rewrite Hc; now apply lookup_insert_ne|].
  split; [exact Hfinal|].
  split.
  { intros k Hk.
    change (B :: post) with ([B] ++ post) in Hk.
    rewrite <- (process_groups_checkpoints_other E vehicle
                  (process_groups E vehicle p pre) ([B] ++ post) k Hk).
    now rewrite <- process_groups_app. }
  split.
  { rewrite Hfinal.
    destruct (process_groups_frame E vehicle
                (process_group E vehicle (process_groups E vehicle p pre) B) post)
      as (_ & _ & _ & _ & evs & ->).
    rewrite Hl. apply elem_of_app. left. apply elem_of_app. right.
    apply list_elem_of_further, list_elem_of_here. }
  split.
  { intros post1 C post2 -> HdueC. rewrite Hfinal.
    now apply process_groups_attempts_due. }
  split.
  { intros X q. apply process_vehicle_counts. }
  intros X C q url vehicles Hcv. unfold run. now rewrite Hcv.
Qed.

Lemma error_isolation_witness :
  let final := process_groups PipelineExample.E PipelineExample.v1
                 (new_pipeline true false empty_store)
                 [PipelineExample.gA; PipelineExample.gB; PipelineExample.gC] in
  checkpoint_status (store final) (group_key PipelineExample.v1 PipelineExample.gA)
    = Some Checkpoint.done
  /\ LogScraping (group_key PipelineExample.v1 PipelineExample.gC) ∈ log final.
Proof.
  cbn zeta.
  pose proof (error_isolation PipelineExample.E PipelineExample.v1
                (new_pipeline true false empty_store)
                [PipelineExample.gA] [PipelineExample.gC] PipelineExample.gB
                (Exception "Parts UI not found for GB (waited 45s)")) as H.
  cbn zeta in H.
  destruct (H ltac:(right; reflexivity) ltac:(reflexivity))
    as (_ & _ & _ & Hkeep & _ & Hlater & _).
  split.
  - unfold checkpoint_status.
    change ([PipelineExample.gA; PipelineExample.gB; PipelineExample.gC])
      with ([PipelineExample.gA] ++ PipelineExample.gB :: [PipelineExample.gC]).
    rewrite Hkeep; [reflexivity|].
    vm_compute. intros Hin. repeat (apply elem_of_cons in Hin as [Hin|Hin];
                                      [discriminate Hin|]).
    now apply elem_of_nil in Hin.
  - apply (Hlater [] PipelineExample.gC []); [reflexivity|]. right. reflexivity.
Defined.

(** The three-group example, evaluated: A is done with its two rows, B is
    in error, C is done with no row. *)
Example error_isolation_statuses :
  let final := process_groups PipelineExample.E PipelineExample.v1
                 (new_pipeline true false empty_store)
                 [PipelineExample.gA; PipelineExample.gB; PipelineExample.gC] in
  (fun ti => checkpoints (store final) !! group_key PipelineExample.v1 ti)
    <$> [PipelineExample.gA; PipelineExample.gB; PipelineExample.gC]
  = [Some (Checkpoint.mk Checkpoint.done (Some 2) true None);
     Some (Checkpoint.mk Checkpoint.error None false
             (Some "Parts UI not found for GB (waited 45s)"));
     Some (Checkpoint.mk Checkpoint.done (Some 0) false None)]
  /\ (total_groups_done final, total_groups_failed final, total_parts_rows final)
     = (2, 1, 2).
Proof. vm_compute. split; reflexivity. Qed.

(** ** The run and its exit code *)

Lemma main_of_listing (X : StoreMethods) (E : Extractor) (C : Catalogue)
    (force parquet : bool) (url : string) (st : DataStore) :
  match collect_vehicles C url with
  | Raise _ => main X E C force parquet url st = (new_pipeline force parquet st, 1)
  | Ok vehicles =>
      (main X E C force parquet url st).2 = 0
      /\ _vehicles_processed (main X E C force parquet url st).1 = length vehicles
  end.
Proof.
  unfold main, run.
  destruct (collect_vehicles C url) as [vehicles|e]; [|reflexivity].
  cbn [fst snd]. split; [reflexivity|].
  now rewrite process_vehicles_counts.
Qed.

(** C8.  When the catalogue table is absent, or the listing yields no
    vehicle, [collect_vehicles] raises; [run] then returns before anything
    is saved or processed (the pipeline object and the store are as
    created) and [main] exits with code 1.  When the listing succeeds the
    exit code is 0 and every listed vehicle is counted, whatever discovery,
    the store methods or the extraction of any group do. *)
Theorem catalog_failure_fatal (X : StoreMethods) (E : Extractor) (C : Catalogue)
    (force parquet : bool) (url : string) (st : DataStore) :
  (goto C = Ok tt -> table_found C = false ->
   collect_vehicles C url = Raise (Exception "Main catalog table #datatable-t2 not found"))
  /\ (forall info,
        goto C = Ok tt -> table_found C = true -> tables_ready C = Ok tt ->
        pagination_info C = Ok info ->
        match info with
        | Some total_pages => Ok (collect_pages C total_pages)
        | None => extract_single_page C
        end = Ok [] ->
        collect_vehicles C url = Raise (Exception "No vehicles found in catalog"))
  /\ (forall e, collect_vehicles C url = Raise e ->
                main X E C force parquet url st = (new_pipeline force parquet st, 1))
  /\ (forall vehicles,
        collect_vehicles C url = Ok vehicles ->
        (main X E C force parquet url st).2 = 0
        /\ _vehicles_processed (main X E C force parquet url st).1 = length vehicles).
Proof.
  pose proof (main_of_listing X E C force parquet url st) as Hmain.
  split; [|split; [|split]].
  - intros Hg Ht. unfold collect_vehicles. now rewrite Hg, Ht.
  - intros info Hg Ht Hr Hp Hdata. unfold collect_vehicles.
    rewrite Hg, Ht, Hr, Hp. cbn [negb]. now rewrite Hdata.
  - intros e He. now rewrite He in Hmain.
  - intros vehicles Hv. now rewrite Hv in Hmain.
Qed.

Lemma catalog_failure_fatal_witness :
  main DataStore_methods PipelineExample.E PipelineExample.catalogue_without_table
       false false "http://x" empty_store
  = (new_pipeline false false empty_store, 1)
  /\ main DataStore_methods PipelineExample.E PipelineExample.catalogue_without_vehicles
          false false "http://x" empty_store
     = (new_pipeline false false empty_store, 1)
  /\ (main DataStore_methods PipelineExample.E PipelineExample.catalogue
           true false "http://x" empty_store).2 = 0.
Proof.
  split; [|split].
  - destruct (catalog_failure_fatal DataStore_methods PipelineExample.E
                PipelineExample.catalogue_without_table false false "http://x"
                empty_store) as (Hraise & _ & Hfatal & _).
    apply (Hfatal _ (Hraise eq_refl eq_refl)).
  - destruct (catalog_failure_fatal DataStore_methods PipelineExample.E
                PipelineExample.catalogue_without_vehicles false false "http://x"
                empty_store) as (_ & Hraise & Hfatal & _).
    apply (Hfatal _ (Hraise (Some 2) eq_refl eq_refl eq_refl eq_refl eq_refl)).
  - destruct (catalog_failure_fatal DataStore_methods PipelineExample.E
                PipelineExample.catalogue true false "http://x" empty_store)
      as (_ & _ & _ & Hok).
    apply (Hok [PipelineExample.v1]). reflexivity.
Defined.

(** A forced run over the three-group example, one of whose extractions
    raises: exit code 0. *)
Example run_with_group_failure_exits_zero :
  (main DataStore_methods PipelineExample.E PipelineExample.catalogue
        true false "http://x" empty_store).2 = 0.
Proof. reflexivity. Qed.

(** ** A second run over completed work *)

Section Rerun.

Variable X : StoreMethods.
Variable E : Extractor.
Hypothesis X_frame : milestone_frame X.

Lemma same_data_refl (st : DataStore) : same_data st st.
Proof. now repeat split. Qed.

Lemma same_data_trans (st1 st2 st3 : DataStore) :
  same_data st1 st2 -> same_data st2 st3 -> same_data st1 st3.
Proof.
  unfold same_data. intros (? & ? & ? & ? & ?) (? & ? & ? & ? & ?).
  repeat split; congruence.
Qed.

Lemma save_vehicles_same_data (vehicles : list Vehicle.t) (st : DataStore) :
  same_data st (fold_left save_vehicle vehicles st).
Proof.
  revert st. induction vehicles as [|v rest IH]; intros st; [apply same_data_refl|].
  cbn. eapply same_data_trans; [|apply IH]. now repeat split.
Qed.

Lemma attempts_app (l1 l2 : list Event) : attempts (l1 ++ l2) = attempts l1 ++ attempts l2.
Proof. unfold attempts. apply omap_app. Qed.





End Rerun.

(** ** Natural keys stay unique *)

Section UniqueKeys.

Lemma order_by_identities (l : list Parts.t) :
  NoDup (Parts.identity <$> l) -> NoDup (Parts.identity <$> order_by l).
Proof.
  intros Hnd. eapply NoDup_Permutation_proper; [|exact Hnd].
  apply fmap_Permutation, order_by_perm.
Qed.

Lemma fetch_unique (st : DataStore) (v g t c : string) :
  unique_identities (parts st) ->
  NoDup (Parts.identity <$> _fetch_group_df st v g t c).
Proof.
  unfold unique_identities. intros Hnd.
  eapply NoDup_Permutation_proper; [apply fmap_Permutation, fetch_perm|].
  eapply NoDup_fmap_2_strong with (l := filter _ (parts st)).
  - intros x y Hx Hy Hxy.
    apply list_elem_of_filter in Hx as [_ Hx]. apply list_elem_of_filter in Hy as [_ Hy].
    apply list_elem_of_lookup in Hx as [i Hi]. apply list_elem_of_lookup in Hy as [j Hj].
    assert (Hij : i = j).
    { eapply NoDup_lookup; [exact Hnd| |]; rewrite list_lookup_fmap.
      - rewrite Hi. reflexivity.
      - rewrite Hj. cbn. now rewrite Hxy. }
    subst j. congruence.
  - apply NoDup_filter. eapply NoDup_fmap_1. exact Hnd.
Qed.

Lemma row_identity_enrich (a b c : string) (r : Parts.t) :
  row_identity (enrich a b c r) = Parts.identity r.
Proof. reflexivity. Qed.

Lemma canonical_rows_unique (st : DataStore) (vehicle : Vehicle.t) (ti : TableIndex.t) :
  unique_identities (parts st) ->
  NoDup (row_identity <$> canonical_rows st vehicle ti).
Proof.
  intros Hu. unfold canonical_rows. rewrite <- list_fmap_compose.
  erewrite list_fmap_ext; [apply (fetch_unique st); exact Hu|].
  intros i x _. apply row_identity_enrich.
Qed.

(** The rows of the other groups followed by the canonical rows of the
    group: unique natural keys, if the shard had them. *)
Lemma rewritten_shard_unique (st : DataStore) (vehicle : Vehicle.t) (ti : TableIndex.t)
    (shard : option (list Row.t)) :
  unique_identities (parts st) -> shard_unique shard ->
  shard_unique (Some (rows_of_other_groups (group_key vehicle ti) shard
                      ++ canonical_rows st vehicle ti)).
Proof.
  intros Hu Hs. unfold shard_unique in *. cbn [default from_option id].
  rewrite fmap_app. apply NoDup_app. split; [|split].
  - unfold rows_of_other_groups.
    eapply sublist_NoDup; [exact Hs|]. apply fmap_sublist, sublist_filter.
  - intros k Hk Hk'.
    apply list_elem_of_fmap in Hk as (x & -> & Hx).
    apply list_elem_of_fmap in Hk' as (y & Hxy & Hy).
    apply list_elem_of_filter in Hx as [Hx _].
    pose proof (canonical_rows_key vehicle ti st) as Hkeys.
    rewrite Forall_forall in Hkeys. specialize (Hkeys y Hy).
    apply Hx. rewrite <- Hkeys.
    unfold row_identity, row_key in *. now injection Hxy as -> -> -> -> _ _.
  - now apply canonical_rows_unique.
Qed.

End UniqueKeys.

Section UniqueKeysInvariant.

Lemma overwrite_parquet_nonempty (st : DataStore) (key : Key) (df : list Row.t) :
  df <> [] -> Forall (fun r => row_key r = key) df ->
  PARQUET_OUTPUT (_overwrite_group_in_parquet st df)
  = Some (rows_of_other_groups key (PARQUET_OUTPUT st) ++ df).
Proof.
  intros Hne Hall. unfold _overwrite_group_in_parquet, rows_of_other_groups.
  destruct df as [|first tl]; [contradiction|].
  apply Forall_cons in Hall as Hk. destruct Hk as [Hfk _].
  destruct (PARQUET_OUTPUT st) as [existing|]; cbn [PARQUET_OUTPUT set_PARQUET_OUTPUT].
  - unfold replace_group. now rewrite Hfk.
  - reflexivity.
Qed.


End UniqueKeysInvariant.


Lemma DataStore_methods_frame : milestone_frame DataStore_methods.
Proof. intros st batch vid st' H. discriminate H. Qed.


(** The scenario of the specification: after the first (forced) run both
    groups are [done] and the shard holds the two rows of the first group;
    the second run, not forced, starts no extraction. *)
Example scenario_two_runs :
  (fun ti => checkpoint_status PipelineExample.after_first_run
               (group_key PipelineExample.v1 ti))
    <$> [PipelineExample.gA; PipelineExample.gC]
  = [Some Checkpoint.done; Some Checkpoint.done]
  /\ length (rows_of_group (group_key PipelineExample.v1 PipelineExample.gA)
               (CSV_OUTPUT PipelineExample.after_first_run)) = 2
  /\ attempts (log (main DataStore_methods PipelineExample.E_ok PipelineExample.catalogue
                         false false "http://x" PipelineExample.after_first_run).1) = [].
Proof. vm_compute. repeat split. Qed.

(** ** The vehicle gate and the milestones on [DataStore] as it stands *)

Section MissingStoreMethods.

Variable E : Extractor.

(** Without [force], a vehicle with at least one discovered group never
    reaches its group loop: the gate's attribute lookup raises inside the
    outer [try], whatever the checkpoints are. *)
Lemma unforced_vehicle_fails_at_gate (p : ScrapingPipeline) (vehicle : Vehicle.t)
    (indices : list TableIndex.t) :
  force_reprocess p = false ->
  collect_indices E vehicle = Ok indices -> indices <> [] ->
  process_vehicle DataStore_methods E p vehicle
  = _after_vehicle DataStore_methods
      (emit (LogVehicleFailed (Vehicle.vehicle_id vehicle)
               "'DataStore' object has no attribute 'is_vehicle_complete'") p)
      (Vehicle.vehicle_id vehicle).
Proof.
  intros Hf Hci Hne. unfold process_vehicle. rewrite Hci.
  destruct indices as [|ti rest]; [contradiction|].
  unfold vehicle_gate. now rewrite Hf.
Qed.

(** [_after_vehicle] never changes the store: there is nowhere a milestone
    could go. *)
Lemma after_vehicle_store (p : ScrapingPipeline) (vehicle_id : string) :
  store (_after_vehicle DataStore_methods p vehicle_id) = store p.
Proof. unfold _after_vehicle. now destruct (_ =? 0)%nat. Qed.

Lemma unforced_vehicle_store (p : ScrapingPipeline) (vehicle : Vehicle.t) :
  force_reprocess p = false ->
  store (process_vehicle DataStore_methods E p vehicle) = store p.
Proof.
  intros Hf. unfold process_vehicle.
  destruct (collect_indices E vehicle) as [[|ti rest]|e] eqn:Hci;
    try (now rewrite after_vehicle_store).
  unfold vehicle_gate. rewrite Hf. cbn. now rewrite after_vehicle_store.
Qed.

End MissingStoreMethods.

(** The gate as the orchestrator wires it, for a store that does answer:
    without [force], [true] skips the whole group loop and [false] runs it
    over the groups as discovered. *)
Lemma vehicle_gate_wiring (X : StoreMethods) (E : Extractor) (p : ScrapingPipeline)
    (vehicle : Vehicle.t) (indices : list TableIndex.t) (complete : bool) :
  force_reprocess p = false ->
  collect_indices E vehicle = Ok indices -> indices <> [] ->
  is_vehicle_complete X (store p) (Vehicle.vehicle_id vehicle) (length indices)
    = Ok complete ->
  process_vehicle X E p vehicle
  = _after_vehicle X
      (if complete
       then emit (LogSkipVehicleDone (Vehicle.vehicle_id vehicle) (length indices)) p
       else process_groups E vehicle
              (set_total_groups_seen (total_groups_seen p + length indices) p) indices)
      (Vehicle.vehicle_id vehicle).
Proof.
  intros Hf Hci Hne Hgate. unfold process_vehicle. rewrite Hci.
  destruct indices as [|ti rest]; [contradiction|].
  unfold vehicle_gate. rewrite Hf, Hgate. now destruct complete.
Qed.

(** When [_after_vehicle] writes: exactly when the new count of vehicles is
    a multiple of the interval, with the next batch number and the id of the
    vehicle just processed. *)
Lemma after_vehicle_write (X : StoreMethods) (p : ScrapingPipeline) (vehicle_id : string) :
  store (_after_vehicle X p vehicle_id)
  = if ((_vehicles_processed p + 1) mod _milestone_every =? 0)%nat
    then match mark_milestone X (store p) (_milestone_batch p + 1) vehicle_id with
         | Ok st => st
         | Raise _ => store p
         end
    else store p.
Proof.
  unfold _after_vehicle.
  change (_vehicles_processed (set__vehicles_processed (_vehicles_processed p + 1) p))
    with (_vehicles_processed p + 1).
  destruct (_ =? 0)%nat; [|reflexivity].
  cbn [store set__vehicles_processed set__milestone_batch _milestone_batch].
  now destruct (mark_milestone X (store p) (_milestone_batch p + 1) vehicle_id).
Qed.

(** The counters of [_after_vehicle], for any store: the batch number is the
    number of vehicles processed divided by the interval. *)
Lemma after_vehicle_batch (X : StoreMethods) (p : ScrapingPipeline) (vehicle_id : string) :
  _milestone_batch p = _vehicles_processed p / _milestone_every ->
  _milestone_batch (_after_vehicle X p vehicle_id)
  = _vehicles_processed (_after_vehicle X p vehicle_id) / _milestone_every.
Proof.
  unfold _after_vehicle, _milestone_every. intros Hb.
  change (_vehicles_processed (set__vehicles_processed (_vehicles_processed p + 1) p))
    with (_vehicles_processed p + 1).
  set (n := _vehicles_processed p) in *.
  pose proof (Nat.div_mod_eq (n + 1) 30) as H1.
  pose proof (Nat.div_mod_eq n 30) as H0.
  pose proof (Nat.mod_upper_bound n 30 ltac:(lia)) as Hn.
  pose proof (Nat.mod_upper_bound (n + 1) 30 ltac:(lia)) as Hn1.
  destruct ((n + 1) mod 30 =? 0)%nat eqn:Hmod.
  - apply Nat.eqb_eq in Hmod.
    assert (Hgoal : _milestone_batch p + 1 = (n + 1) / 30) by lia.
    destruct (mark_milestone X _ _ _); exact Hgoal.
  - apply Nat.eqb_neq in Hmod.
    change (_milestone_batch p = (n + 1) / 30). lia.
Qed.

(** C1, at a failing input.  A fresh store, a run without [force], one
    vehicle with two discovered groups, neither of them [done]: the claim
    wants the groups processed.  The code fails the vehicle at the gate
    ([DataStore] has no [is_vehicle_complete]); no group is marked pending,
    no extraction is started, and the run still exits with code 0. *)
Theorem vehicle_gate_failing_input :
  let out := main DataStore_methods PipelineExample.E_ok PipelineExample.catalogue
               false false "http://x" empty_store in
  checkpoint_status empty_store (group_key PipelineExample.v1 PipelineExample.gA) = None
  /\ out.2 = 0
  /\ log out.1
     = [LogVehicleFailed "v1" "'DataStore' object has no attribute 'is_vehicle_complete'"]
  /\ attempts (log out.1) = []
  /\ checkpoints (store out.1) = ∅
  /\ parts (store out.1) = []
  /\ CSV_OUTPUT (store out.1) = None
  /\ (total_groups_seen out.1, total_groups_done out.1, total_groups_skipped out.1)
     = (0, 0, 0)
  /\ _vehicles_processed out.1 = 1.
Proof. vm_compute. repeat split. Qed.

(** The same vehicle under [force]: the gate is not consulted and both
    groups are processed. *)
Example forced_run_processes_groups :
  attempts (log (main DataStore_methods PipelineExample.E_ok PipelineExample.catalogue
                      true false "http://x" empty_store).1)
  = [group_key PipelineExample.v1 PipelineExample.gA;
     group_key PipelineExample.v1 PipelineExample.gC].
Proof. vm_compute. reflexivity. Qed.

(** C7, at a failing input.  Sixty-one vehicles are processed with the
    interval of 30.  The batch counter reaches 2 and a milestone write is
    tried at the 30th and at the 60th vehicle, but each write raises
    ([DataStore] has no [mark_milestone] and no milestone table) and is
    only logged: the persistent state holds no milestone. *)
Theorem milestones_failing_input :
  let p := _process_vehicles DataStore_methods PipelineExample.E_no_groups
             (new_pipeline false false empty_store) PipelineExample.sixty_one in
  _vehicles_processed p = 61
  /\ _milestone_batch p = 2
  /\ filter (fun e => is_milestone_event e = true) (log p)
     = [LogMilestoneWarning 1 "v30" "'DataStore' object has no attribute 'mark_milestone'";
        LogMilestone 30 1;
        LogMilestoneWarning 2 "v60" "'DataStore' object has no attribute 'mark_milestone'";
        LogMilestone 60 2]
  /\ store p = empty_store.
Proof. vm_compute. repeat split. Qed.

(* ===================================================================== *)
(** * Further properties of the code *)

(** ** Stripping *)

Section Strip.

Lemma append_cons (c : ascii) (l t : string) : String c l +:+ t = String c (l +:+ t).
Proof. reflexivity. Qed.

Lemma append_nil_l (t : string) : "" +:+ t = t.
Proof. reflexivity. Qed.

Lemma lstrip_spec (s : string) :
  exists l, s = l +:+ Text.lstrip s /\ all_space l = true
            /\ starts_with_space (Text.lstrip s) = false.
Proof.
  induction s as [|c s (l & Hs & Hl & Hst)].
  - exists "". repeat split.
  - cbn [Text.lstrip]. destruct (Text.isspace c) eqn:Hc.
    + exists (String c l). rewrite append_cons, <- Hs. cbn [all_space].
      rewrite Hc, Hl. repeat split. exact Hst.
    + exists "". rewrite append_nil_l. cbn [all_space starts_with_space].
      rewrite Hc. repeat split.
Qed.

Lemma rstrip_spec (t : string) :
  exists r, t = Text.rstrip t +:+ r /\ all_space r = true
            /\ ends_with_space (Text.rstrip t) = false.
Proof.
  induction t as [|c t (r & Ht & Hr & He)].
  - exists "". repeat split.
  - cbn [Text.rstrip]. destruct (Text.rstrip t) as [|d u] eqn:Hrs.
    + rewrite append_nil_l in Ht. subst t. destruct (Text.isspace c) eqn:Hc.
      * exists (String c r). rewrite append_nil_l. cbn [all_space ends_with_space].
        rewrite Hc, Hr. repeat split.
      * exists r. rewrite append_cons, append_nil_l. cbn [ends_with_space].
        rewrite Hc. repeat split. exact Hr.
    + exists r. rewrite append_cons, <- Ht.
      split; [reflexivity|]. split; [exact Hr|]. exact He.
Qed.

Lemma rstrip_keeps_start (t : string) :
  starts_with_space t = false -> starts_with_space (Text.rstrip t) = false.
Proof.
  destruct t as [|c t]; [reflexivity|]. cbn [starts_with_space]. intros Hc.
  rewrite rstrip_cons_nonspace by exact Hc. exact Hc.
Qed.

Lemma rstrip_idempotent (s : string) : Text.rstrip (Text.rstrip s) = Text.rstrip s.
Proof.
  induction s as [|c s IH]; [reflexivity|].
  cbn [Text.rstrip]. destruct (Text.rstrip s) as [|d u] eqn:Hrs.
  - destruct (Text.isspace c) eqn:Hc; [reflexivity|]. cbn [Text.rstrip]. now rewrite Hc.
  - change (Text.rstrip (String c (String d u)))
      with (match Text.rstrip (String d u) with
            | "" => if Text.isspace c then "" else String c ""
            | String a r' => String c (String a r')
            end).
    now rewrite IH.
Qed.

Lemma lstrip_nonspace (t : string) :
  starts_with_space t = false -> Text.lstrip t = t.
Proof. destruct t as [|c t]; [reflexivity|]. cbn. now intros ->. Qed.

Lemma strip_idempotent (s : string) : Text.strip (Text.strip s) = Text.strip s.
Proof.
  unfold Text.strip.
  destruct (lstrip_spec s) as (_ & _ & _ & Hst).
  rewrite (lstrip_nonspace (Text.rstrip (Text.lstrip s)))
    by now apply rstrip_keeps_start.
  apply rstrip_idempotent.
Qed.

Lemma all_space_lstrip (r : string) : all_space r = true -> Text.lstrip r = "".
Proof.
  induction r as [|c r IH]; [reflexivity|]. cbn [all_space Text.lstrip].
  intros H. apply andb_true_iff in H as [-> H]. now apply IH.
Qed.

Lemma all_space_rstrip (r : string) : all_space r = true -> Text.rstrip r = "".
Proof.
  induction r as [|c r IH]; [reflexivity|]. cbn [all_space Text.rstrip].
  intros H. apply andb_true_iff in H as [Hc H]. now rewrite (IH H), Hc.
Qed.

Lemma rstrip_pad (t r : string) :
  all_space r = true -> Text.rstrip (t +:+ r) = Text.rstrip t.
Proof.
  intros Hr. induction t as [|c t IH]; [now apply all_space_rstrip|].
  rewrite append_cons. cbn [Text.rstrip]. now rewrite IH.
Qed.

Lemma lstrip_pad (l t : string) :
  all_space l = true -> Text.lstrip (l +:+ t) = Text.lstrip t.
Proof.
  induction l as [|c l IH]; [reflexivity|]. rewrite append_cons.
  cbn [all_space Text.lstrip].
  intros H. apply andb_true_iff in H as [-> H]. now apply IH.
Qed.

Lemma strip_pad (l t r : string) :
  all_space l = true -> all_space r = true ->
  Text.strip (l +:+ t +:+ r) = Text.strip t.
Proof.
  intros Hl Hr. unfold Text.strip. rewrite lstrip_pad by exact Hl.
  clear l Hl. induction t as [|c t IH].
  - rewrite append_nil_l. now rewrite (all_space_lstrip r Hr).
  - rewrite append_cons. cbn [Text.lstrip]. destruct (Text.isspace c); [exact IH|].
    rewrite <- append_cons. now apply rstrip_pad.
Qed.

End Strip.

(** X1.  [clean_text] returns its argument without the blanks around it:
    the text is a blank prefix, the result, and a blank suffix, and the
    result neither begins nor ends with a blank; [None] and the empty text
    give the empty string, and cleaning a cleaned text changes nothing. *)
Theorem clean_text_strips (text : string) :
  (exists l r, text = l +:+ clean_text (Some text) +:+ r
               /\ all_space l = true /\ all_space r = true)
  /\ starts_with_space (clean_text (Some text)) = false
  /\ ends_with_space (clean_text (Some text)) = false
  /\ clean_text (Some (clean_text (Some text))) = clean_text (Some text)
  /\ clean_text None = "" /\ clean_text (Some "") = "".
Proof.
  assert (Hc : forall t, clean_text (Some t) = Text.strip t) by (now intros [|c t]).
  rewrite !Hc. unfold Text.strip at 1 2 3.
  destruct (lstrip_spec text) as (l & Hl & Hla & Hst).
  destruct (rstrip_spec (Text.lstrip text)) as (r & Hr & Hra & He).
  split; [|split; [|split; [|split]]].
  - exists l, r. split; [|now split]. rewrite <- Hr. exact Hl.
  - now apply rstrip_keeps_start.
  - exact He.
  - apply strip_idempotent.
  - split; reflexivity.
Qed.

(** ** Content types *)

Section ContentTypes.

Lemma lower_char_space (c : ascii) :
  Text.isspace (ContentType.lower_char c) = Text.isspace c.
Proof. destruct c as [[] [] [] [] [] [] [] []]; reflexivity. Qed.

Lemma lower_char_semicolon (c : ascii) :
  bool_decide (ContentType.lower_char c = ";"%char) = bool_decide (c = ";"%char).
Proof. destruct c as [[] [] [] [] [] [] [] []]; reflexivity. Qed.

Lemma space_not_semicolon (c : ascii) :
  Text.isspace c = true -> bool_decide (c = ";"%char) = false.
Proof. destruct c as [[] [] [] [] [] [] [] []]; vm_compute; congruence. Qed.

Lemma lower_append (a b : string) :
  ContentType.lower (a +:+ b) = ContentType.lower a +:+ ContentType.lower b.
Proof.
  induction a as [|c a IH]; [reflexivity|].
  rewrite append_cons. cbn [ContentType.lower]. now rewrite IH, append_cons.
Qed.

Lemma lower_all_space (s : string) : all_space (ContentType.lower s) = all_space s.
Proof.
  induction s as [|c s IH]; [reflexivity|].
  cbn [ContentType.lower all_space]. now rewrite lower_char_space, IH.
Qed.

Lemma lower_has_semicolon (s : string) :
  has_semicolon (ContentType.lower s) = has_semicolon s.
Proof.
  induction s as [|c s IH]; [reflexivity|].
  cbn [ContentType.lower has_semicolon]. now rewrite lower_char_semicolon, IH.
Qed.

Lemma all_space_no_semicolon (s : string) :
  all_space s = true -> has_semicolon s = false.
Proof.
  induction s as [|c s IH]; [reflexivity|]. cbn [all_space has_semicolon].
  intros H. apply andb_true_iff in H as [Hc H].
  now rewrite (space_not_semicolon c Hc), (IH H).
Qed.

Lemma has_semicolon_append (a b : string) :
  has_semicolon (a +:+ b) = has_semicolon a || has_semicolon b.
Proof.
  induction a as [|c a IH]; [reflexivity|].
  rewrite append_cons. cbn [has_semicolon]. now rewrite IH, orb_assoc.
Qed.

Lemma before_semicolon_none (s : string) :
  has_semicolon s = false -> ContentType.before_semicolon s = s.
Proof.
  induction s as [|c s IH]; [reflexivity|]. cbn [has_semicolon ContentType.before_semicolon].
  intros H. apply orb_false_iff in H as [-> H]. now rewrite (IH H).
Qed.

Lemma before_semicolon_cut (s rest : string) :
  has_semicolon s = false ->
  ContentType.before_semicolon (s +:+ String ";" rest) = s.
Proof.
  induction s as [|c s IH]; [reflexivity|]. rewrite append_cons.
  cbn [has_semicolon ContentType.before_semicolon].
  intros H. apply orb_false_iff in H as [-> H]. now rewrite (IH H).
Qed.

Lemma append_assoc (a b c : string) : (a +:+ b) +:+ c = a +:+ b +:+ c.
Proof.
  induction a as [|x a IH]; [reflexivity|]. now rewrite !append_cons, IH.
Qed.

Lemma extension_unfold (s : string) :
  get_file_extension_from_content_type s =
  ContentType.get ContentType.mapping
    (Text.strip (ContentType.before_semicolon (ContentType.lower s))) ".bin".
Proof. now destruct s. Qed.

Lemma get_mapping_values (key : string) :
  ContentType.get ContentType.mapping key ".bin"
  ∈ [".jpg"; ".png"; ".svg"; ".gif"; ".webp"; ".bmp"; ".bin"].
Proof.
  unfold ContentType.mapping. cbn [ContentType.get].
  repeat (case_bool_decide; [set_solver|]). set_solver.
Qed.

End ContentTypes.

(** X2.  The file extension depends only on the media type of the header
    value: blanks around the type, parameters after a semicolon and the
    letter case are ignored.  The result is one of the six known extensions
    or [.bin], which is also the answer for an empty or unknown type. *)
Theorem content_type_extension (ws1 t ws2 params : string) :
  all_space ws1 = true -> all_space ws2 = true -> has_semicolon t = false ->
  get_file_extension_from_content_type (ws1 +:+ t +:+ ws2 +:+ ";" +:+ params)
    = ContentType.get ContentType.mapping (Text.strip (ContentType.lower t)) ".bin"
  /\ get_file_extension_from_content_type (ws1 +:+ t +:+ ws2)
     = ContentType.get ContentType.mapping (Text.strip (ContentType.lower t)) ".bin"
  /\ get_file_extension_from_content_type (ws1 +:+ t +:+ ws2)
     ∈ [".jpg"; ".png"; ".svg"; ".gif"; ".webp"; ".bmp"; ".bin"]
  /\ get_file_extension_from_content_type "" = ".bin".
Proof.
  intros H1 H2 Ht.
  assert (Hno : has_semicolon (ContentType.lower (ws1 +:+ t +:+ ws2)) = false).
  { rewrite lower_has_semicolon, !has_semicolon_append, Ht.
    now rewrite (all_space_no_semicolon ws1 H1), (all_space_no_semicolon ws2 H2). }
  assert (Hstrip : Text.strip (ContentType.lower (ws1 +:+ t +:+ ws2))
                   = Text.strip (ContentType.lower t)).
  { rewrite !lower_append. apply strip_pad; now rewrite lower_all_space. }
  split; [|split; [|split]].
  - rewrite extension_unfold.
    replace (ws1 +:+ t +:+ ws2 +:+ ";" +:+ params)
      with ((ws1 +:+ t +:+ ws2) +:+ String ";" params)
      by (now rewrite !append_assoc).
    rewrite lower_append. cbn [ContentType.lower].
    change (ContentType.lower_char ";") with ";"%char.
    now rewrite before_semicolon_cut, Hstrip.
  - rewrite extension_unfold, before_semicolon_none by exact Hno. now rewrite Hstrip.
  - rewrite extension_unfold. apply get_mapping_values.
  - reflexivity.
Qed.

Lemma content_type_extension_witness :
  get_file_extension_from_content_type " Image/PNG ; charset=binary" = ".png".
Proof.
  exact (proj1 (content_type_extension " " "Image/PNG" " " " charset=binary"
                  eq_refl eq_refl eq_refl)).
Defined.

(** ** From table rows to part rows *)

Section PartRows.

Lemma clean_text_some (t : string) : clean_text (Some t) = Text.strip t.
Proof. now destruct t. Qed.

Lemma map_row_clean (header_map : list string) (r : list string) (key value : string) :
  map_row header_map r !! key = Some value -> Text.strip value = value.
Proof.
  unfold map_row.
  generalize (zip header_map (r ++ replicate (length header_map - length r) "")).
  intros cells.
  assert (Hgen : forall m : gmap string string,
            (forall k v, m !! k = Some v -> Text.strip v = v) ->
            fold_left (fun mapped hc => <[header_key hc.1 := clean_text (Some hc.2)]> mapped)
              cells m !! key = Some value ->
            Text.strip value = value).
  { induction cells as [|[h c] cells IH]; intros m Hm; cbn [fold_left].
    - apply Hm.
    - apply IH. intros k v. rewrite lookup_insert. case_decide.
      + intros [= Hv]. subst v. change (Text.strip (clean_text (Some c)) = clean_text (Some c)).
        rewrite clean_text_some. apply strip_idempotent.
      + apply Hm. }
  apply Hgen. intros k v. now rewrite lookup_empty.
Qed.

Lemma field_clean (header_map : list string) (r : list string) (key : string) :
  Text.strip (field (map_row header_map r) key) = field (map_row header_map r) key.
Proof.
  unfold field. destruct (map_row header_map r !! key) as [v|] eqn:Hv; [|reflexivity].
  cbn. now apply (map_row_clean header_map r key).
Qed.

End PartRows.

(** X3.  The table rows of a parts page become one [PartRow] each, in
    order; every one of them carries the identity of the vehicle and group
    being scraped, and each of its seven text fields is free of blanks at
    both ends, whatever the headers and the cells are. *)
Theorem rows_to_part_rows_clean (vehicle : Vehicle.t) (table_index : TableIndex.t)
    (headers : list string) (rows : list (list string)) :
  length (rows_to_part_rows vehicle table_index headers rows) = length rows
  /\ Forall (fun pr =>
       (PartRow.vehicle_id pr, PartRow.group_type pr, PartRow.table_no pr,
        PartRow.group_code pr) = group_key vehicle table_index
       /\ Forall (fun f => Text.strip f = f)
            [PartRow.ref_no pr; PartRow.part_no pr; PartRow.description pr;
             PartRow.remark pr; PartRow.req_no pr; PartRow.moq pr; PartRow.mrp pr])
     (rows_to_part_rows vehicle table_index headers rows).
Proof.
  unfold rows_to_part_rows. split; [apply length_fmap|].
  apply Forall_fmap, Forall_forall. intros r _. cbn.
  split; [reflexivity|].
  repeat (constructor; [apply field_clean|]). constructor.
Qed.

(** X4.  Under the header row of the site ("Ref No.", "Part Number",
    "Description", "Remark", "Req. No.", "MOQ", "MRP(Rs.)"), the fields of a
    [PartRow] are the first seven cells of its table row, stripped; a row
    with fewer cells gets empty strings for the missing ones, and cells
    beyond the seventh are ignored. *)
Theorem rows_to_part_rows_standard (vehicle : Vehicle.t) (table_index : TableIndex.t)
    (rows : list (list string)) :
  rows_to_part_rows vehicle table_index (PARTS_HEADER_MAPPING.*1) rows
  = (fun r =>
       PartRow.mk (Vehicle.vehicle_id vehicle) (TableIndex.group_type table_index)
         (TableIndex.table_no table_index) (TableIndex.group_code table_index)
         (Text.strip (nth 0 r "")) (Text.strip (nth 1 r "")) (Text.strip (nth 2 r ""))
         (Text.strip (nth 3 r "")) (Text.strip (nth 4 r "")) (Text.strip (nth 5 r ""))
         (Text.strip (nth 6 r ""))) <$> rows.
Proof.
  unfold rows_to_part_rows. apply list_fmap_ext. intros _ r _.
  change (Text.strip <$> PARTS_HEADER_MAPPING.*1) with (PARTS_HEADER_MAPPING.*1).
  unfold map_row.
  destruct r as [|c0 [|c1 [|c2 [|c3 [|c4 [|c5 [|c6 rest]]]]]]];
    cbn [nth length fst snd zip zip_with app replicate Nat.sub fmap list_fmap
         PARTS_HEADER_MAPPING fold_left];
    rewrite ?clean_text_some;
    repeat match goal with
           | |- context [Text.strip ?c] => is_var c; generalize (Text.strip c); intro
           end;
    vm_compute; reflexivity.
Qed.

(** ** From aggregate rows to group indices *)

Section Indices.

Variable vehicle : Vehicle.t.
Variable aggregates_url : string.

Lemma infer_group_type_closed (tn gc : option string) (hint : string) :
  hint = "ENGINE" \/ hint = "FRAME" ->
  _infer_group_type tn gc hint = "ENGINE" \/ _infer_group_type tn gc hint = "FRAME".
Proof.
  intros Hh. unfold _infer_group_type.
  destruct (_ || _); [now left|]. destruct (_ || _); [now right | exact Hh].
Qed.

Lemma push_shape (rows : list RawGroup) (hint : string) :
  hint = "ENGINE" \/ hint = "FRAME" ->
  Forall (fun ti =>
            (TableIndex.group_type ti = "ENGINE" \/ TableIndex.group_type ti = "FRAME")
            /\ TableIndex.group_code ti <> ""
            /\ TableIndex.vehicle_id ti = Vehicle.vehicle_id vehicle
            /\ TableIndex.aggregates_url ti = aggregates_url
            /\ TableIndex.variant ti <> Some "")
         (push vehicle aggregates_url rows hint).
Proof.
  intros Hh. apply Forall_forall. intros ti Hti.
  unfold push in Hti. apply list_elem_of_omap in Hti as (it & _ & Hit).
  case_bool_decide as Hgc; [discriminate Hit|]. injection Hit as <-. cbn.
  split; [now apply infer_group_type_closed|]. split; [exact Hgc|].
  split; [reflexivity|]. split; [reflexivity|].
  destruct (raw_variant it) as [[|c v]|]; discriminate.
Qed.

Lemma push_codes (rows : list RawGroup) (hint : string) :
  TableIndex.group_code <$> push vehicle aggregates_url rows hint
  = filter (fun gc => gc <> "") (raw_group_code <$> rows).
Proof.
  induction rows as [|it rows IH]; [reflexivity|].
  unfold push in *. cbn [omap list_omap fmap list_fmap].
  case_bool_decide as Hgc.
  - rewrite filter_cons_False by (intros H; now apply H). exact IH.
  - rewrite filter_cons_True by exact Hgc. cbn. now rewrite IH.
Qed.

End Indices.

(** X5.  Every group index built by the discovery step is typed ENGINE or
    FRAME, has a non-empty group code, belongs to the vehicle at hand and
    has no empty variant; the indices are the rows with a group code, engine
    table first, in table order.  The thumbnail tables are used only when
    both list-view tables are empty or missing. *)
Theorem build_indices_shape (vehicle : Vehicle.t) (aggregates_url : string)
    (list_engine list_frame thumb_engine thumb_frame : option (list RawGroup)) :
  let out := build_indices vehicle aggregates_url list_engine list_frame
               thumb_engine thumb_frame in
  let rows := select_rows list_engine list_frame thumb_engine thumb_frame in
  Forall (fun ti =>
            (TableIndex.group_type ti = "ENGINE" \/ TableIndex.group_type ti = "FRAME")
            /\ TableIndex.group_code ti <> ""
            /\ TableIndex.vehicle_id ti = Vehicle.vehicle_id vehicle
            /\ TableIndex.aggregates_url ti = aggregates_url
            /\ TableIndex.variant ti <> Some "") out
  /\ TableIndex.group_code <$> out
     = filter (fun gc => gc <> "") (raw_group_code <$> rows.1 ++ rows.2)
  /\ (default [] list_engine ++ default [] list_frame <> [] ->
      rows = (default [] list_engine, default [] list_frame))
  /\ (default [] list_engine ++ default [] list_frame = [] ->
      rows = (default [] thumb_engine, default [] thumb_frame)).
Proof.
  cbn zeta. unfold build_indices.
  destruct (select_rows list_engine list_frame thumb_engine thumb_frame)
    as [engine_rows frame_rows] eqn:Hsel.
  cbn [fst snd].
  split; [|split; [|split]].
  - apply Forall_app. split; apply push_shape; [now left | now right].
  - rewrite !fmap_app, list.filter_app. now rewrite !push_codes.
  - intros Hne. rewrite <- Hsel. unfold select_rows.
    destruct (default [] list_engine), (default [] list_frame);
      [contradiction | reflexivity | reflexivity | reflexivity].
  - intros Hnil. apply app_eq_nil in Hnil as [He Hf].
    rewrite <- Hsel. unfold select_rows. now rewrite He, Hf.
Qed.

Lemma build_indices_shape_witness :
  TableIndex.group_code
    <$> build_indices PipelineExample.v1 "http://x/agg"
          (Some [mkRawGroup "1" "E-1" "SHROUD" "E-1_X" None;
                 mkRawGroup "2" "E-2" "" "" None])
          (Some [mkRawGroup "1" "F-1" "FRAME BODY" "F-1_X" (Some "")])
          (Some [mkRawGroup "" "E-9" "" "E-9_X" None]) None
  = ["E-1_X"; "F-1_X"].
Proof.
  pose proof (build_indices_shape PipelineExample.v1 "http://x/agg"
                (Some [mkRawGroup "1" "E-1" "SHROUD" "E-1_X" None;
                       mkRawGroup "2" "E-2" "" "" None])
                (Some [mkRawGroup "1" "F-1" "FRAME BODY" "F-1_X" (Some "")])
                (Some [mkRawGroup "" "E-9" "" "E-9_X" None]) None)
    as (_ & Hcodes & Hlist & _).
  cbn zeta in Hcodes, Hlist. rewrite Hcodes, (Hlist ltac:(discriminate)).
  reflexivity.
Defined.

(** ** Checkpoints *)

Section Checkpoints.

Lemma apply_mark_checkpoints (st : DataStore) (m : Mark) :
  checkpoints (apply_mark st m)
  = <[mark_key m := default (Checkpoint.mk Checkpoint.pending None false None)
                      (checkpoints (apply_mark empty_store m) !! mark_key m)]>
      (checkpoints st).
Proof. destruct m; cbn; now rewrite lookup_insert_eq. Qed.

Lemma apply_mark_status (m : Mark) :
  checkpoint_status (apply_mark empty_store m) (mark_key m) = Some (mark_status m).
Proof. destruct m; unfold checkpoint_status; cbn; now rewrite lookup_insert_eq. Qed.

Lemma apply_mark_frame (st : DataStore) (m : Mark) :
  vehicles (apply_mark st m) = vehicles st
  /\ parts_pages (apply_mark st m) = parts_pages st
  /\ parts (apply_mark st m) = parts st
  /\ CSV_OUTPUT (apply_mark st m) = CSV_OUTPUT st
  /\ PARQUET_OUTPUT (apply_mark st m) = PARQUET_OUTPUT st.
Proof. now destruct m. Qed.

End Checkpoints.

(** X6.  After any sequence of checkpoint writes the record of a work unit
    is the one written by the last write addressed to it, as if that write
    alone had been made on an empty store: nothing of an earlier record (row
    count, image flag, error text) survives.  A unit no write addressed
    keeps its record, and the other tables and the shards are untouched. *)
Theorem checkpoint_last_mark_wins (st : DataStore) (marks : list Mark) (key : Key) :
  let st' := fold_left apply_mark marks st in
  match last (filter (fun m => mark_key m = key) marks) with
  | Some m =>
      checkpoints st' !! key = checkpoints (apply_mark empty_store m) !! key
      /\ checkpoint_status st' key = Some (mark_status m)
  | None => checkpoints st' !! key = checkpoints st !! key
  end
  /\ vehicles st' = vehicles st /\ parts_pages st' = parts_pages st
  /\ parts st' = parts st
  /\ CSV_OUTPUT st' = CSV_OUTPUT st /\ PARQUET_OUTPUT st' = PARQUET_OUTPUT st.
Proof.
  cbn zeta. induction marks as [|m marks IH] using rev_ind.
  - cbn. repeat split.
  - rewrite fold_left_app. cbn [fold_left].
    set (st1 := fold_left apply_mark marks st) in *.
    destruct IH as (IHk & IHv & IHpp & IHp & IHc & IHq).
    pose proof (apply_mark_frame st1 m) as (Hv & Hpp & Hp & Hc & Hq).
    split; [|split; [congruence|split; [congruence|split; [congruence|split; congruence]]]].
    rewrite list.filter_app.
    destruct (decide (mark_key m = key)) as [Hk|Hk].
    + rewrite (filter_cons_True _ m []) by exact Hk. rewrite filter_nil, last_snoc.
      subst key. split.
      * rewrite apply_mark_checkpoints, lookup_insert_eq.
        destruct m; cbn; now rewrite lookup_insert_eq.
      * unfold checkpoint_status at 1. rewrite apply_mark_checkpoints, lookup_insert_eq.
        destruct m; cbn; now rewrite lookup_insert_eq.
    + rewrite (filter_cons_False _ m []) by exact Hk. rewrite filter_nil, app_nil_r.
      assert (Hother : checkpoints (apply_mark st1 m) !! key = checkpoints st1 !! key).
      { rewrite apply_mark_checkpoints. now apply lookup_insert_ne. }
      destruct (last (filter (fun m0 => mark_key m0 = key) marks)) as [m0|].
      * destruct IHk as [IH1 IH2]. split; [congruence|].
        unfold checkpoint_status in *. now rewrite Hother.
      * congruence.
Qed.

(** ** Checkpoint statistics *)

Section Stats.

Lemma count_by_status (l : list (Key * Checkpoint.t)) :
  length (filter (fun kv => Checkpoint.state kv.2 = Checkpoint.pending) l)
  + length (filter (fun kv => Checkpoint.state kv.2 = Checkpoint.done) l)
  + length (filter (fun kv => Checkpoint.state kv.2 = Checkpoint.error) l)
  = length l.
Proof.
  induction l as [|[k c] l IH]; [reflexivity|].
  destruct (Checkpoint.state c) eqn:Hs.
  - rewrite filter_cons_True by exact Hs.
    rewrite !filter_cons_False by (cbn; congruence). cbn [length]. lia.
  - rewrite (filter_cons_True (fun kv => Checkpoint.state kv.2 = Checkpoint.done))
      by exact Hs.
    rewrite !filter_cons_False by (cbn; congruence). cbn [length]. lia.
  - rewrite (filter_cons_True (fun kv => Checkpoint.state kv.2 = Checkpoint.error))
      by exact Hs.
    rewrite !filter_cons_False by (cbn; congruence). cbn [length]. lia.
Qed.

Lemma count_status_positive (st : DataStore) (s : Checkpoint.status) :
  0 < count_status st s <-> exists key, checkpoint_status st key = Some s.
Proof.
  unfold count_status, checkpoint_status. split.
  - intros Hpos.
    destruct (filter (fun kv => Checkpoint.state kv.2 = s) (map_to_list (checkpoints st)))
      as [|[k c] l] eqn:Hf; [cbn in Hpos; lia|].
    assert (Hin : (k, c) ∈ filter (fun kv => Checkpoint.state kv.2 = s)
                             (map_to_list (checkpoints st)))
      by (rewrite Hf; apply list_elem_of_here).
    apply list_elem_of_filter in Hin as [Hs Hin]. apply elem_of_map_to_list in Hin.
    exists k. rewrite Hin. cbn in *. now rewrite Hs.
  - intros [key Hkey].
    destruct (checkpoints st !! key) as [c|] eqn:Hc; [|discriminate].
    injection Hkey as Hs.
    assert (Hin : (key, c) ∈ filter (fun kv => Checkpoint.state kv.2 = s)
                               (map_to_list (checkpoints st))).
    { apply list_elem_of_filter. split; [exact Hs|]. now apply elem_of_map_to_list. }
    destruct (filter _ _); [now apply elem_of_nil in Hin | cbn; lia].
Qed.

End Stats.

(** X7.  The statistics dictionary reports the number of checkpoints and of
    vehicles; for each status it has a count entry exactly when some
    checkpoint has that status, and the three counts add up to the number
    of checkpoints. *)
Theorem checkpoint_stats_totals (st : DataStore) :
  let stats := get_checkpoint_stats st in
  stats !! "total_checkpoints" = Some (size (checkpoints st))
  /\ stats !! "total_vehicles" = Some (size (vehicles st))
  /\ (forall s, stats !! (status_name s +:+ "_count")
                = if (count_status st s =? 0)%nat then None
                  else Some (count_status st s))
  /\ (forall s, is_Some (stats !! (status_name s +:+ "_count"))
                <-> exists key, checkpoint_status st key = Some s)
  /\ count_status st Checkpoint.pending + count_status st Checkpoint.done
     + count_status st Checkpoint.error = size (checkpoints st).
Proof.
  cbn zeta.
  assert (Hcount : forall s,
             get_checkpoint_stats st !! (status_name s +:+ "_count")
             = if (count_status st s =? 0)%nat then None else Some (count_status st s)).
  { intros s. unfold get_checkpoint_stats.
    destruct s;
      [change (status_name Checkpoint.pending +:+ "_count") with "pending_count"
      |change (status_name Checkpoint.done +:+ "_count") with "done_count"
      |change (status_name Checkpoint.error +:+ "_count") with "error_count"];
      change (status_name Checkpoint.pending +:+ "_count") with "pending_count";
      change (status_name Checkpoint.done +:+ "_count") with "done_count";
      change (status_name Checkpoint.error +:+ "_count") with "error_count";
      rewrite !lookup_insert_ne by discriminate;
      destruct (count_status st Checkpoint.pending =? 0)%nat;
      destruct (count_status st Checkpoint.done =? 0)%nat;
      destruct (count_status st Checkpoint.error =? 0)%nat;
      repeat first [rewrite lookup_insert_eq | rewrite lookup_insert_ne by discriminate];
      try rewrite lookup_empty; reflexivity. }
  split; [unfold get_checkpoint_stats;
          rewrite lookup_insert_ne by discriminate; now rewrite lookup_insert_eq|].
  split; [unfold get_checkpoint_stats; now rewrite lookup_insert_eq|].
  split; [exact Hcount|].
  split.
  - intros s. rewrite Hcount, <- count_status_positive.
    destruct (Nat.eqb_spec (count_status st s) 0) as [Hz|Hz].
    + rewrite Hz. split; [intros [x Hx]; discriminate | lia].
    + split; [lia | intros _; now eexists].
  - unfold count_status. rewrite count_by_status. apply length_map_to_list.
Qed.

(** ** Re-submitting a batch of part rows *)

Section UpsertAgain.

Implicit Types (r x y : Parts.t) (table : list Parts.t).

Lemma upsert_row_elem r table y :
  unique_identities table ->
  y ∈ upsert_row r table
  <-> y = r \/ (y ∈ table /\ Parts.identity y <> Parts.identity r).
Proof.
  intros Hu.
  destruct (decide (Parts.identity r ∈ Parts.identity <$> table)) as [Hin|Hnin].
  - rewrite (upsert_row_present _ _ Hu Hin), list_elem_of_fmap. split.
    + intros (x & -> & Hx). case_bool_decide as Hid.
      * left. now apply do_update_eq.
      * right. split; [exact Hx | exact Hid].
    + intros [->|[Hy Hne]].
      * apply list_elem_of_fmap in Hin as (x & Hid & Hx).
        exists x. split; [|exact Hx].
        rewrite bool_decide_eq_true_2 by congruence.
        symmetry. apply do_update_eq. congruence.
      * exists y. split; [|exact Hy]. now rewrite bool_decide_eq_false_2.
  - rewrite (upsert_row_absent _ _ Hnin), elem_of_app, list_elem_of_singleton. split.
    + intros [Hy| ->]; [|now left]. right. split; [exact Hy|].
      intros Hid. apply Hnin. rewrite <- Hid.
      apply list_elem_of_fmap. now exists y.
    + intros [->|[Hy _]]; [now right | now left].
Qed.

(** What a table holds after a batch: the rows of the batch that are the
    last of their identity, and the stored rows whose identity the batch
    does not mention. *)
Lemma executemany_upsert_elem rows :
  exists P : Parts.t -> Prop,
    (forall y, P y -> Parts.identity y ∈ Parts.identity <$> rows)
    /\ forall table y,
         unique_identities table ->
         y ∈ executemany_upsert rows table
         <-> P y \/ (y ∈ table /\ Parts.identity y ∉ Parts.identity <$> rows).
Proof.
  unfold executemany_upsert.
  induction rows as [|r rows (P & HP & IH)].
  - exists (fun _ => False). split; [contradiction|].
    intros table y _. cbn. split.
    + intros Hy. right. split; [exact Hy | apply not_elem_of_nil].
    + now intros [[]|[Hy _]].
  - exists (fun y => P y \/ (y = r /\ Parts.identity r ∉ Parts.identity <$> rows)).
    split.
    + intros y [Hy|[-> _]]; rewrite fmap_cons.
      * apply list_elem_of_further. now apply HP.
      * apply list_elem_of_here.
    + intros table y Hu. cbn [fold_left].
      rewrite (IH _ y (upsert_row_unique r table Hu)).
      rewrite (upsert_row_elem r table y Hu), fmap_cons, not_elem_of_cons.
      split.
      * intros [Hy|[[->|[Hy Hne]] Hrows]]; [now left; left | left; right | right];
          repeat split; assumption.
      * intros [[Hy|[-> Hrows]]|[Hy [Hne Hrows]]];
          [now left | right; split; [now left | exact Hrows]
          | right; split; [right; split; assumption | exact Hrows]].
Qed.

Lemma executemany_upsert_identities_present rows table :
  (forall r, r ∈ rows -> Parts.identity r ∈ Parts.identity <$> table) ->
  Parts.identity <$> executemany_upsert rows table = Parts.identity <$> table.
Proof.
  unfold executemany_upsert. revert table.
  induction rows as [|r rows IH]; intros table Hall; [reflexivity|].
  cbn [fold_left].
  assert (Hids : Parts.identity <$> upsert_row r table = Parts.identity <$> table).
  { rewrite upsert_row_identities, bool_decide_eq_true_2; [reflexivity|].
    apply Hall, list_elem_of_here. }
  rewrite IH; [exact Hids|].
  intros x Hx. rewrite Hids. now apply Hall, list_elem_of_further.
Qed.

(** A table with unique identities is determined by the order of its
    identities and by its rows. *)
Lemma unique_table_ext (t1 t2 : list Parts.t) :
  unique_identities t1 -> unique_identities t2 ->
  Parts.identity <$> t1 = Parts.identity <$> t2 ->
  (forall y, y ∈ t1 <-> y ∈ t2) ->
  t1 = t2.
Proof.
  unfold unique_identities. revert t2.
  induction t1 as [|x1 t1 IH]; intros [|x2 t2] Hu1 Hu2 Hids Hel;
    [reflexivity | discriminate | discriminate |].
  rewrite !fmap_cons in *.
  assert (Hid : Parts.identity x1 = Parts.identity x2)
    by exact (f_equal (hd (Parts.identity x1)) Hids).
  apply (f_equal (@tl _)) in Hids. cbn [tl] in Hids.
  apply NoDup_cons in Hu1 as [Hx1 Hu1]. apply NoDup_cons in Hu2 as [Hx2 Hu2].
  assert (Hhead : x1 = x2).
  { assert (Hin : x1 ∈ x2 :: t2) by (apply Hel, list_elem_of_here).
    apply elem_of_cons in Hin as [Heq|Hin]; [exact Heq|].
    exfalso. apply Hx2. rewrite <- Hid. apply list_elem_of_fmap. now exists x1. }
  subst x2. f_equal. apply IH; [exact Hu1 | exact Hu2 | exact Hids |].
  intros y. split; intros Hy.
  - assert (Hin : y ∈ x1 :: t2) by (apply Hel, list_elem_of_further, Hy).
    apply elem_of_cons in Hin as [->|Hin]; [|exact Hin].
    exfalso. apply Hx1. apply list_elem_of_fmap. now exists x1.
  - assert (Hin : y ∈ x1 :: t1) by (apply Hel, list_elem_of_further, Hy).
    apply elem_of_cons in Hin as [->|Hin]; [|exact Hin].
    exfalso. apply Hx2. apply list_elem_of_fmap. now exists x1.
Qed.

Lemma executemany_upsert_idempotent rows table :
  unique_identities table ->
  executemany_upsert rows (executemany_upsert rows table)
  = executemany_upsert rows table.
Proof.
  intros Hu.
  pose proof (executemany_upsert_unique rows table Hu) as Hu1.
  pose proof (executemany_upsert_unique rows _ Hu1) as Hu2.
  apply unique_table_ext; [exact Hu2 | exact Hu1 | |].
  - apply executemany_upsert_identities_present.
    intros r Hr. now apply executemany_upsert_has.
  - destruct (executemany_upsert_elem rows) as (P & HP & Hel).
    intros y. rewrite (Hel _ y Hu1), (Hel _ y Hu). split.
    + intros [Hy|[[Hy|[Hy _]] Hn]]; [now left | now left | right; now split].
    + intros [Hy|[Hy Hn]]; [now left|]. right. split; [|exact Hn]. right. now split.
Qed.

(** Rows of other groups leave the rows of a group as they are, in their
    order. *)
Lemma upsert_row_other_group (key : Key) r table :
  in_group key r = false ->
  filter (fun x => in_group key x = true) (upsert_row r table)
  = filter (fun x => in_group key x = true) table.
Proof.
  intros Hr. induction table as [|x rest IH].
  - cbn [upsert_row]. rewrite filter_cons_False by congruence. reflexivity.
  - cbn [upsert_row]. case_bool_decide as Hid.
    + assert (Hx : in_group key x = false).
      { rewrite <- Hr. unfold in_group.
        replace (Parts.vehicle_id x, Parts.group_type x, Parts.table_no x,
                 Parts.group_code x)
          with (Parts.vehicle_id r, Parts.group_type r, Parts.table_no r,
                Parts.group_code r); [reflexivity|].
        unfold Parts.identity in Hid. congruence. }
      assert (Hx' : in_group key (Parts.do_update x r) = false).
      { rewrite do_update_eq by exact Hid. exact Hr. }
      rewrite !filter_cons_False by congruence. reflexivity.
    + destruct (in_group key x) eqn:Hx.
      * rewrite !filter_cons_True by exact Hx. now rewrite IH.
      * rewrite !filter_cons_False by congruence. exact IH.
Qed.

Lemma executemany_upsert_other_groups (key : Key) rows table :
  Forall (fun r => in_group key r = false) rows ->
  filter (fun x => in_group key x = true) (executemany_upsert rows table)
  = filter (fun x => in_group key x = true) table.
Proof.
  unfold executemany_upsert. intros Hall. revert table.
  induction Hall as [|r rows Hr _ IH]; intros table; [reflexivity|].
  cbn [fold_left]. rewrite IH. now apply upsert_row_other_group.
Qed.

Lemma executemany_upsert_app rows1 rows2 table :
  executemany_upsert (rows1 ++ rows2) table
  = executemany_upsert rows2 (executemany_upsert rows1 table).
Proof. unfold executemany_upsert. apply fold_left_app. Qed.

(** The identities a batch appends: the new ones, once each. *)
Lemma executemany_upsert_appends rows table :
  unique_identities table ->
  exists new,
    Parts.identity <$> executemany_upsert rows table = (Parts.identity <$> table) ++ new
    /\ (forall k, k ∈ new <-> k ∈ Parts.identity <$> rows /\ k ∉ Parts.identity <$> table).
Proof.
  unfold executemany_upsert. revert table.
  induction rows as [|r rows IH]; intros table Hu.
  - exists []. split; [now rewrite app_nil_r|].
    intros k. cbn. split; [intros Hk; now apply elem_of_nil in Hk|].
    intros [Hk _]. exact Hk.
  - cbn [fold_left].
    destruct (IH _ (upsert_row_unique r table Hu)) as (new & Hids & Hnew).
    rewrite upsert_row_identities in Hids, Hnew.
    case_bool_decide as Hin.
    + exists new. split; [exact Hids|]. intros k. rewrite Hnew, fmap_cons, elem_of_cons.
      split; [intros [Hk Hn]; split; [now right | exact Hn]|].
      intros [[->|Hk] Hn]; [contradiction | now split].
    + exists (Parts.identity r :: new). split; [now rewrite Hids, <- app_assoc|].
      intros k. rewrite elem_of_cons, Hnew, fmap_cons, elem_of_cons, elem_of_app,
                  list_elem_of_singleton.
      split.
      * intros [->|[Hk Hn]]; [split; [now left | exact Hin]|].
        split; [now right|]. intros Hk'. apply Hn. now left.
      * intros [[->|Hk] Hn]; [now left|].
        destruct (decide (k = Parts.identity r)) as [->|Hne]; [now left|].
        right. split; [exact Hk|]. intros [Hk'|Hk']; contradiction.
Qed.

End UpsertAgain.

(** X8.  Submitting the same batch a second time changes nothing: the store
    after the second [upsert_part_rows] is the store after the first, row
    for row and in the same order, and the call again reports the number of
    rows submitted. *)
Theorem upsert_part_rows_idempotent (st : DataStore) (dict_rows : list Row.t) :
  unique_identities (parts st) ->
  let st1 := (upsert_part_rows st dict_rows).1 in
  upsert_part_rows st1 dict_rows = (st1, length dict_rows).
Proof.
  intros Hu. cbn zeta. destruct dict_rows as [|d rest]; [reflexivity|].
  cbn [upsert_part_rows fst]. f_equal.
  unfold set_parts at 1. cbn [parts checkpoints vehicles parts_pages CSV_OUTPUT
                               PARQUET_OUTPUT set_parts].
  now rewrite executemany_upsert_idempotent.
Qed.

Lemma upsert_part_rows_idempotent_witness :
  upsert_part_rows (upsert_part_rows UpsertExample.before
                      [UpsertExample.resubmitted; UpsertExample.stored]).1
    [UpsertExample.resubmitted; UpsertExample.stored]
  = ((upsert_part_rows UpsertExample.before
        [UpsertExample.resubmitted; UpsertExample.stored]).1, 2).
Proof.
  apply (upsert_part_rows_idempotent UpsertExample.before
           [UpsertExample.resubmitted; UpsertExample.stored]).
  unfold unique_identities. vm_compute. apply NoDup_singleton.
Defined.

(** X9.  A batch never deletes or moves a stored row: the identities stored
    before keep their positions, and the new identities of the batch follow
    them, once each.  Of several rows of the batch with one identity the
    last one is the row stored. *)
Theorem upsert_part_rows_appends (st : DataStore) (dict_rows : list Row.t) :
  unique_identities (parts st) ->
  let st1 := (upsert_part_rows st dict_rows).1 in
  (exists new,
     Parts.identity <$> parts st1 = (Parts.identity <$> parts st) ++ new
     /\ NoDup new
     /\ forall k, k ∈ new <-> k ∈ Parts.identity <$> (insert_values <$> dict_rows)
                              /\ k ∉ Parts.identity <$> parts st)
  /\ (forall before d after,
        dict_rows = before ++ d :: after ->
        Parts.identity (insert_values d)
          ∉ Parts.identity <$> (insert_values <$> after) ->
        insert_values d ∈ parts st1).
Proof.
  intros Hu. cbn zeta. rewrite upsert_part_rows_parts. split.
  - destruct (executemany_upsert_appends (insert_values <$> dict_rows) (parts st) Hu)
      as (new & Hids & Hnew).
    exists new. split; [exact Hids|]. split; [|exact Hnew].
    pose proof (executemany_upsert_unique (insert_values <$> dict_rows) _ Hu) as Hu1.
    unfold unique_identities in Hu1. rewrite Hids in Hu1.
    now apply NoDup_app in Hu1 as (_ & _ & Hnd).
  - intros before d after -> Hlast.
    rewrite fmap_app, fmap_cons, executemany_upsert_app.
    change (insert_values d :: (insert_values <$> after))
      with ([insert_values d] ++ (insert_values <$> after)).
    rewrite executemany_upsert_app.
    set (t1 := executemany_upsert (insert_values <$> before) (parts st)).
    assert (Hu1 : unique_identities t1) by now apply executemany_upsert_unique.
    destruct (executemany_upsert_elem (insert_values <$> after)) as (P & _ & Hel).
    apply Hel.
    + unfold executemany_upsert. cbn [fold_left]. now apply upsert_row_unique.
    + right. split; [|exact Hlast].
      unfold executemany_upsert. cbn [fold_left].
      apply upsert_row_elem; [exact Hu1 | now left].
Qed.

Lemma upsert_part_rows_appends_witness :
  insert_values UpsertExample.resubmitted
  ∈ parts (upsert_part_rows UpsertExample.before
             [UpsertExample.stored; UpsertExample.resubmitted]).1.
Proof.
  assert (Hu : unique_identities (parts UpsertExample.before)).
  { unfold unique_identities. vm_compute. apply NoDup_singleton. }
  destruct (upsert_part_rows_appends UpsertExample.before
              [UpsertExample.stored; UpsertExample.resubmitted] Hu) as [_ Hlast].
  apply (Hlast [UpsertExample.stored] UpsertExample.resubmitted []); [reflexivity|].
  apply not_elem_of_nil.
Defined.

(** X10.  Rows submitted for other groups do not change what the read-back
    of a group returns. *)
Theorem fetch_group_df_other_groups (st : DataStore) (dict_rows : list Row.t)
    (vehicle_id group_type table_no group_code : string) :
  Forall (fun d => row_key d <> (vehicle_id, group_type, table_no, group_code)) dict_rows ->
  _fetch_group_df (upsert_part_rows st dict_rows).1 vehicle_id group_type table_no group_code
  = _fetch_group_df st vehicle_id group_type table_no group_code.
Proof.
  intros Hall. unfold _fetch_group_df. rewrite upsert_part_rows_parts.
  rewrite executemany_upsert_other_groups; [reflexivity|].
  apply Forall_fmap. eapply Forall_impl; [exact Hall|].
  intros d Hd. cbn. unfold in_group. now apply bool_decide_eq_false_2.
Qed.

Lemma fetch_group_df_other_groups_witness :
  _fetch_group_df
    (upsert_part_rows ReadBackExample.st [MaterializeExample.shard_row "E-2_XOOM" "1" "P1"]).1
    "xoom" "ENGINE" "E-1" "E-1_XOOM"
  = ReadBackExample.fetched.
Proof.
  apply (fetch_group_df_other_groups ReadBackExample.st
           [MaterializeExample.shard_row "E-2_XOOM" "1" "P1"]).
  constructor; [|constructor]. vm_compute. discriminate.
Defined.

(** ** Materializing a group again, and without rows *)

Section AppendAgain.

Lemma set_parts_same (st : DataStore) : set_parts (parts st) st = st.
Proof. now destruct st. Qed.

Lemma set_CSV_OUTPUT_same (st : DataStore) (shard : option (list Row.t)) :
  CSV_OUTPUT st = shard -> set_CSV_OUTPUT shard st = st.
Proof. intros <-. now destruct st. Qed.

Lemma set_PARQUET_OUTPUT_same (st : DataStore) (shard : option (list Row.t)) :
  PARQUET_OUTPUT st = shard -> set_PARQUET_OUTPUT shard st = st.
Proof. intros <-. now destruct st. Qed.

Lemma rows_of_other_groups_rewritten (key : Key) (shard : option (list Row.t))
    (df : list Row.t) :
  Forall (fun r => row_key r = key) df ->
  rows_of_other_groups key (Some (rows_of_other_groups key shard ++ df))
  = rows_of_other_groups key shard.
Proof.
  intros Hkeys. unfold rows_of_other_groups at 1. cbn [default from_option id].
  rewrite list.filter_app, (filter_none _ df).
  - rewrite app_nil_r. apply filter_all.
    apply Forall_forall. intros r Hr. unfold rows_of_other_groups in Hr.
    now apply list_elem_of_filter in Hr as [Hr _].
  - eapply Forall_impl; [exact Hkeys|]. intros r Hr Hn. now apply Hn.
Qed.

Lemma overwrite_parquet_sets (st : DataStore) (df : list Row.t) :
  _overwrite_group_in_parquet st df
  = set_PARQUET_OUTPUT (PARQUET_OUTPUT (_overwrite_group_in_parquet st df)) st.
Proof. unfold _overwrite_group_in_parquet. now destruct (PARQUET_OUTPUT st), df. Qed.

Lemma overwrite_parquet_again (st : DataStore) (key : Key) (df : list Row.t) :
  df <> [] -> Forall (fun r => row_key r = key) df ->
  _overwrite_group_in_parquet (_overwrite_group_in_parquet st df) df
  = _overwrite_group_in_parquet st df.
Proof.
  intros Hne Hkeys.
  pose proof (overwrite_parquet_nonempty st key df Hne Hkeys) as H1.
  pose proof (overwrite_parquet_nonempty (_overwrite_group_in_parquet st df) key df
                Hne Hkeys) as H2.
  rewrite H1, (rows_of_other_groups_rewritten key _ df Hkeys), <- H1 in H2.
  set (st1 := _overwrite_group_in_parquet st df) in *.
  rewrite (overwrite_parquet_sets st1 df), H2.
  now apply set_PARQUET_OUTPUT_same.
Qed.

(** Reading back: NA markers are blanked once, and a readable key is
    read as it is. *)
Lemma read_cell_idempotent (cell : string) :
  Pandas.read_cell (Pandas.read_cell cell) = Pandas.read_cell cell.
Proof.
  unfold Pandas.read_cell.
  destruct (decide (cell ∈ Pandas.STR_NA_VALUES)) as [Hna|Hna].
  - now rewrite (bool_decide_eq_true_2 _ Hna).
  - now rewrite !(bool_decide_eq_false_2 _ Hna).
Qed.

Lemma read_row_idempotent (r : Row.t) : read_row (read_row r) = read_row r.
Proof. unfold read_row. cbn. now rewrite !read_cell_idempotent. Qed.

Lemma row_key_read_row (r : Row.t) :
  readable_key (row_key r) -> row_key (read_row r) = row_key r.
Proof.
  unfold readable_key, readable, row_key, read_row. cbn.
  intros (H1 & H2 & H3 & H4). now rewrite H1, H2, H3, H4.
Qed.

Lemma fmap_fixed {A : Type} (f : A -> A) (l : list A) :
  Forall (fun x => f x = x) l -> f <$> l = l.
Proof.
  induction 1 as [|x l Hx _ IH]; [reflexivity|]. now rewrite fmap_cons, Hx, IH.
Qed.

Lemma read_csv_others_fixed (key : Key) (shard : option (list Row.t)) :
  Forall (fun r => read_row r = r) (rows_of_other_groups key (read_csv <$> shard)).
Proof.
  apply Forall_forall. intros r Hr. unfold rows_of_other_groups in Hr.
  apply list_elem_of_filter in Hr as [_ Hr].
  destruct shard as [written|]; cbn in Hr; [|now apply elem_of_nil in Hr].
  apply list_elem_of_fmap in Hr as (x & -> & _). apply read_row_idempotent.
Qed.

(** The CSV shard left by a materialization, read back and masked for the
    same group: the rows that were kept for the other keys. *)
Lemma read_csv_rewritten (key : Key) (shard : option (list Row.t)) (df : list Row.t) :
  readable_key key ->
  Forall (fun r => row_key r = key) df ->
  rows_of_other_groups key
    (read_csv <$> Some (rows_of_other_groups key (read_csv <$> shard) ++ df))
  = rows_of_other_groups key (read_csv <$> shard).
Proof.
  intros Hkey Hkeys. unfold rows_of_other_groups at 1.
  cbn [fmap option_fmap option_map default from_option id].
  unfold read_csv at 1. rewrite fmap_app, list.filter_app.
  rewrite (fmap_fixed read_row _ (read_csv_others_fixed key shard)).
  rewrite (filter_none _ (read_row <$> df)).
  - rewrite app_nil_r. apply filter_all.
    apply Forall_forall. intros r Hr. unfold rows_of_other_groups in Hr.
    now apply list_elem_of_filter in Hr as [Hr _].
  - apply Forall_fmap. eapply Forall_impl; [exact Hkeys|].
    intros r Hr Hn. cbn in Hn. apply Hn.
    rewrite row_key_read_row; [exact Hr | now rewrite Hr].
Qed.

End AppendAgain.

(** X11.  Materializing a group twice with the same page and the same
    non-empty batch is the same as doing it once, provided no column of
    the group's key is spelled as an NA marker of the CSV reader: the second
    call leaves the canonical rows, the CSV shard and the Parquet shard
    exactly as the first one left them and returns the same count. *)
Theorem append_parts_rows_idempotent (st : DataStore) (vehicle : Vehicle.t)
    (ti : TableIndex.t) (pg : PartsPage.t) (part_rows : list PartRow.t) (pq : bool) :
  part_rows <> [] ->
  unique_identities (parts st) ->
  readable_key (group_key vehicle ti) ->
  let out := append_parts_rows st vehicle ti (Some pg) part_rows true pq in
  append_parts_rows out.1 vehicle ti (Some pg) part_rows true pq = out.
Proof.
  intros Hne Hu Hkey. cbn zeta.
  destruct (append_parts_rows_nonempty st vehicle ti pg part_rows pq Hne)
    as (dict_rows & Hconv & Hdf & Hout).
  rewrite Hout. cbn [fst].
  set (key := group_key vehicle ti) in *.
  set (st1 := (upsert_part_rows st dict_rows).1) in *.
  set (df := canonical_rows st1 vehicle ti) in *.
  set (st2 := set_CSV_OUTPUT
                (Some (rows_of_other_groups key (read_csv <$> CSV_OUTPUT st) ++ df)) st1)
    in *.
  set (st3 := if pq then _overwrite_group_in_parquet st2 df else st2) in *.
  pose proof (canonical_rows_key vehicle ti st1) as Hkeys. fold df key in Hkeys.
  assert (Hparts : parts st3 = parts st1).
  { unfold st3. destruct pq; [|reflexivity].
    now pose proof (overwrite_parquet_frame st2 df) as (_ & -> & _). }
  assert (Hcsv : CSV_OUTPUT st3
                 = Some (rows_of_other_groups key (read_csv <$> CSV_OUTPUT st) ++ df)).
  { unfold st3. destruct pq; [|reflexivity].
    now pose proof (overwrite_parquet_frame st2 df) as (_ & _ & ->). }
  destruct (append_parts_rows_nonempty st3 vehicle ti pg part_rows pq Hne)
    as (dict_rows' & Hconv' & _ & Hout').
  assert (dict_rows' = dict_rows) by congruence. subst dict_rows'.
  rewrite Hout'. f_equal.
  assert (Hst1 : (upsert_part_rows st3 dict_rows).1 = st3).
  { destruct dict_rows as [|d rest]; [reflexivity|].
    cbn [upsert_part_rows fst]. rewrite Hparts. unfold st1.
    rewrite upsert_part_rows_parts, executemany_upsert_idempotent by exact Hu.
    rewrite <- upsert_part_rows_parts. fold st1. rewrite <- Hparts.
    apply set_parts_same. }
  rewrite Hst1, (canonical_rows_parts vehicle ti st1 st3 Hparts). fold df key.
  rewrite Hcsv, (read_csv_rewritten key _ df Hkey Hkeys).
  rewrite (set_CSV_OUTPUT_same st3 _ Hcsv).
  unfold st3 at 2. destruct pq; [|reflexivity].
  unfold st3. now apply (overwrite_parquet_again st2 key).
Qed.

Lemma append_parts_rows_idempotent_witness :
  append_parts_rows MaterializeExample.rematerialized MaterializeExample.vehicle
    MaterializeExample.ti (Some MaterializeExample.pg) MaterializeExample.three true true
  = append_parts_rows
      (append_parts_rows MaterializeExample.rematerialized MaterializeExample.vehicle
         MaterializeExample.ti (Some MaterializeExample.pg) MaterializeExample.three
         true true).1
      MaterializeExample.vehicle MaterializeExample.ti (Some MaterializeExample.pg)
      MaterializeExample.three true true.
Proof.
  symmetry.
  apply (append_parts_rows_idempotent MaterializeExample.rematerialized
           MaterializeExample.vehicle MaterializeExample.ti MaterializeExample.pg
           MaterializeExample.three true).
  - discriminate.
  - unfold unique_identities. vm_compute.
    repeat (apply NoDup_cons; split;
            [rewrite ?elem_of_cons, elem_of_nil; intros H; intuition discriminate|]).
    apply NoDup_nil. exact I.
  - unfold readable_key, readable. vm_compute. repeat split.
Defined.

(** With the key of [NanExample] the second call does not leave the shard
    as the first one did. *)
Example append_parts_rows_not_idempotent :
  ~ readable_key (group_key NanExample.vehicle NanExample.ti)
  /\ CSV_OUTPUT NanExample.twice <> CSV_OUTPUT NanExample.once.
Proof.
  split.
  - intros (H & _). vm_compute in H. discriminate H.
  - vm_compute. discriminate.
Qed.

(** X12.  [append_parts_rows] without rows to write.  With rows but no page
    object it raises before anything is stored.  With an empty batch and
    CSV writing on it upserts nothing, and it raises, the store unchanged,
    as soon as the group has canonical rows or a CSV shard exists; only
    with neither does it return 0, and it then leaves an empty CSV shard
    and, when Parquet is on, replaces the whole Parquet shard by an empty
    one. *)
Theorem append_parts_rows_nothing_to_write (st : DataStore) (vehicle : Vehicle.t)
    (ti : TableIndex.t) (page : option PartsPage.t) (part_rows : list PartRow.t)
    (csv pq : bool) :
  let stored := _fetch_group_df st (Vehicle.vehicle_id vehicle)
                  (TableIndex.group_type ti) (TableIndex.table_no ti)
                  (TableIndex.group_code ti) in
  (part_rows <> [] ->
   append_parts_rows st vehicle ti None part_rows csv pq
   = (st, Raise (AttributeError "'NoneType' object has no attribute 'image_path'")))
  /\ (stored <> [] -> csv || pq = true ->
      append_parts_rows st vehicle ti page [] csv pq
      = (st, Raise (IndexError "list index out of range")))
  /\ (stored = [] -> CSV_OUTPUT st <> None ->
      append_parts_rows st vehicle ti page [] true pq
      = (st, Raise (IndexError "single positional indexer is out-of-bounds")))
  /\ (stored = [] -> CSV_OUTPUT st = None ->
      append_parts_rows st vehicle ti page [] true pq
      = ((if pq then set_PARQUET_OUTPUT (Some []) (set_CSV_OUTPUT (Some []) st)
          else set_CSV_OUTPUT (Some []) st), Ok 0)).
Proof.
  cbn zeta. split; [|split; [|split]].
  - intros Hne. unfold append_parts_rows.
    destruct part_rows as [|pr rest]; [contradiction | reflexivity].
  - intros Hst Hw. unfold append_parts_rows. cbn [convert_parts_to_dict_list
      upsert_part_rows]. rewrite Hw.
    destruct (_fetch_group_df st _ _ _ _); [contradiction | reflexivity].
  - intros Hst Hcsv. unfold append_parts_rows. cbn [convert_parts_to_dict_list
      upsert_part_rows orb]. rewrite Hst.
    unfold write_shards, _overwrite_group_in_csv.
    destruct (CSV_OUTPUT st); [reflexivity | contradiction].
  - intros Hst Hcsv. unfold append_parts_rows. cbn [convert_parts_to_dict_list
      upsert_part_rows orb]. rewrite Hst.
    unfold write_shards, _overwrite_group_in_csv. rewrite Hcsv.
    destruct pq; [|reflexivity].
    unfold _overwrite_group_in_parquet.
    now destruct (PARQUET_OUTPUT (set_CSV_OUTPUT (Some []) st)).
Qed.

Lemma append_parts_rows_nothing_to_write_witness :
  append_parts_rows MaterializeExample.st MaterializeExample.vehicle MaterializeExample.ti
    None MaterializeExample.three true false
  = (MaterializeExample.st,
     Raise (AttributeError "'NoneType' object has no attribute 'image_path'"))
  /\ append_parts_rows MaterializeExample.st MaterializeExample.vehicle
       MaterializeExample.ti (Some MaterializeExample.pg) [] true false
     = (MaterializeExample.st, Raise (IndexError "list index out of range"))
  /\ append_parts_rows (set_CSV_OUTPUT (Some []) empty_store) MaterializeExample.vehicle
       MaterializeExample.ti (Some MaterializeExample.pg) [] true false
     = (set_CSV_OUTPUT (Some []) empty_store,
        Raise (IndexError "single positional indexer is out-of-bounds"))
  /\ append_parts_rows
       (set_PARQUET_OUTPUT (Some [MaterializeExample.shard_row "E-2_XOOM" "1" "P1"])
          empty_store)
       MaterializeExample.vehicle MaterializeExample.ti (Some MaterializeExample.pg)
       [] true true
     = (mkDataStore ∅ ∅ ∅ [] (Some []) (Some []), Ok 0).
Proof.
  split; [|split; [|split]].
  - apply (append_parts_rows_nothing_to_write MaterializeExample.st
             MaterializeExample.vehicle MaterializeExample.ti None
             MaterializeExample.three true false).
    discriminate.
  - apply (append_parts_rows_nothing_to_write MaterializeExample.st
             MaterializeExample.vehicle MaterializeExample.ti
             (Some MaterializeExample.pg) [] true false).
    + vm_compute. discriminate.
    + reflexivity.
  - apply (append_parts_rows_nothing_to_write (set_CSV_OUTPUT (Some []) empty_store)
             MaterializeExample.vehicle MaterializeExample.ti
             (Some MaterializeExample.pg) [] true false).
    + reflexivity.
    + discriminate.
  - apply (append_parts_rows_nothing_to_write
             (set_PARQUET_OUTPUT (Some [MaterializeExample.shard_row "E-2_XOOM" "1" "P1"])
                empty_store)
             MaterializeExample.vehicle MaterializeExample.ti
             (Some MaterializeExample.pg) [] true true); reflexivity.
Defined.

(** ** Accounting of the group loop *)

Section GroupAccounting.

Variable E : Extractor.
Variable vehicle : Vehicle.t.

Lemma scrape_group_counts (p : ScrapingPipeline) (ti : TableIndex.t) (key : Key) :
  let out := scrape_group E p vehicle ti key in
  total_groups_skipped out.1 = total_groups_skipped p
  /\ total_groups_failed out.1 = total_groups_failed p
  /\ total_groups_seen out.1 = total_groups_seen p
  /\ total_vehicles_seen out.1 = total_vehicles_seen p
  /\ total_groups_done out.1
     = total_groups_done p + match out.2 with Ok _ => 1 | Raise _ => 0 end
  /\ attempts (log out.1) = attempts (log p)
  /\ milestone_lines (log out.1) = milestone_lines (log p).
Proof.
  cbn zeta. unfold scrape_group.
  destruct (collect_parts E vehicle ti) as [[[parts_page part_rows] image_saved]|e];
    [|cbn; repeat split; lia].
  destruct part_rows as [|pr rest].
  - destruct parts_page, image_saved; cbn;
      unfold attempts, milestone_lines; rewrite !omap_app, !app_nil_r;
      repeat split; lia.
  - destruct (append_parts_rows _ vehicle ti parts_page (pr :: rest) true _)
      as [st [n|e]];
      destruct parts_page, image_saved; cbn;
      unfold attempts, milestone_lines; rewrite ?omap_app, ?app_nil_r;
      repeat split; lia.
Qed.

Lemma process_group_counts (p : ScrapingPipeline) (ti : TableIndex.t) :
  let p' := process_group E vehicle p ti in
  total_groups_done p' + total_groups_skipped p' + total_groups_failed p'
  = total_groups_done p + total_groups_skipped p + total_groups_failed p + 1
  /\ length (attempts (log p')) + total_groups_done p + total_groups_failed p
     = length (attempts (log p)) + total_groups_done p' + total_groups_failed p'
  /\ total_groups_seen p' = total_groups_seen p
  /\ total_vehicles_seen p' = total_vehicles_seen p
  /\ milestone_lines (log p') = milestone_lines (log p).
Proof.
  cbn zeta. unfold process_group.
  destruct (_ && _).
  - cbn. unfold attempts, milestone_lines. rewrite !omap_app, !app_nil_r.
    repeat split; lia.
  - set (p1 := emit (LogScraping (group_key vehicle ti))
                 (set_store (checkpoint_mark_pending (store p) (group_key vehicle ti)) p)).
    pose proof (scrape_group_counts p1 ti (group_key vehicle ti))
      as (Hs & Hf & Hseen & Hv & Hd & Ha & Hm).
    cbn zeta in *.
    assert (Ha1 : attempts (log p1) = attempts (log p) ++ [group_key vehicle ti]).
    { unfold p1, attempts. cbn. now rewrite omap_app. }
    assert (Hm1 : milestone_lines (log p1) = milestone_lines (log p)).
    { unfold p1, milestone_lines. cbn. now rewrite omap_app, app_nil_r. }
    rewrite Ha1 in Ha. rewrite Hm1 in Hm.
    destruct (scrape_group E p1 vehicle ti (group_key vehicle ti)) as [p2 [u|e]];
      cbn [fst snd] in *.
    + rewrite Ha, length_app. cbn [length]. unfold p1 in *. cbn in *.
      repeat split; try lia; assumption.
    + cbn. unfold attempts in *. unfold milestone_lines in *.
      rewrite !omap_app, Ha, Hm, !app_nil_r, length_app. cbn [length].
      unfold p1 in *. cbn in *. repeat split; lia.
Qed.

End GroupAccounting.

(** X13.  The group loop accounts for every group it is given: the counters
    of groups done, skipped and failed grow by the number of groups
    together, and every extraction started ends counted as done or as
    failed.  The loop leaves the counters of vehicles and of discovered
    groups alone. *)
Theorem process_groups_accounting (E : Extractor) (vehicle : Vehicle.t)
    (p : ScrapingPipeline) (indices : list TableIndex.t) :
  let p' := process_groups E vehicle p indices in
  total_groups_done p' + total_groups_skipped p' + total_groups_failed p'
  = total_groups_done p + total_groups_skipped p + total_groups_failed p + length indices
  /\ length (attempts (log p')) + total_groups_done p + total_groups_failed p
     = length (attempts (log p)) + total_groups_done p' + total_groups_failed p'
  /\ total_groups_seen p' = total_groups_seen p
  /\ total_vehicles_seen p' = total_vehicles_seen p.
Proof.
  cbn zeta. unfold process_groups. revert p.
  induction indices as [|ti rest IH]; intros p; [cbn; repeat split; lia|].
  cbn [fold_left length].
  pose proof (process_group_counts E vehicle p ti) as (H1 & H2 & H3 & H4 & _).
  cbn zeta in *.
  destruct (IH (process_group E vehicle p ti)) as (I1 & I2 & I3 & I4).
  repeat split; lia.
Qed.

(** ** Checkpoints left by the group loop *)

Section GroupSettled.

Variable E : Extractor.
Variable vehicle : Vehicle.t.

Lemma process_group_settles (p : ScrapingPipeline) (ti : TableIndex.t) :
  let status := checkpoint_status (store (process_group E vehicle p ti))
                  (group_key vehicle ti) in
  status = Some Checkpoint.done \/ status = Some Checkpoint.error.
Proof.
  cbn zeta. unfold process_group.
  destruct (bool_decide _ && negb _) eqn:Hskip.
  - apply andb_true_iff in Hskip as [Hdone _]. apply bool_decide_eq_true_1 in Hdone.
    left. exact Hdone.
  - set (p1 := emit (LogScraping (group_key vehicle ti))
                 (set_store (checkpoint_mark_pending (store p) (group_key vehicle ti)) p)).
    pose proof (scrape_group_outcome E vehicle p1 ti (group_key vehicle ti))
      as (_ & _ & _ & _ & Hout).
    cbn zeta in Hout.
    destruct (scrape_group E p1 vehicle ti (group_key vehicle ti)) as [p2 [u|e]];
      cbn [fst snd] in Hout.
    + destruct Hout as (pp & rows & img & _ & Hcp & _). left.
      unfold checkpoint_status. rewrite Hcp, lookup_insert_eq. reflexivity.
    + right. unfold checkpoint_status. cbn. rewrite lookup_insert_eq. reflexivity.
Qed.

Lemma process_group_attempt (p : ScrapingPipeline) (ti : TableIndex.t) :
  let p' := process_group E vehicle p ti in
  let skip := bool_decide (checkpoint_status (store p) (group_key vehicle ti)
                           = Some Checkpoint.done) && negb (force_reprocess p) in
  attempts (log p') = attempts (log p) ++ (if skip then [] else [group_key vehicle ti])
  /\ total_groups_skipped p' = total_groups_skipped p + (if skip then 1 else 0).
Proof.
  cbn zeta. unfold process_group.
  destruct (bool_decide _ && negb _).
  - cbn. unfold attempts. rewrite omap_app. split; reflexivity.
  - set (p1 := emit (LogScraping (group_key vehicle ti))
                 (set_store (checkpoint_mark_pending (store p) (group_key vehicle ti)) p)).
    pose proof (scrape_group_counts E vehicle p1 ti (group_key vehicle ti))
      as (Hs & _ & _ & _ & _ & Ha & _).
    cbn zeta in *.
    assert (Ha1 : attempts (log p1) = attempts (log p) ++ [group_key vehicle ti]).
    { unfold p1, attempts. cbn. now rewrite omap_app. }
    rewrite Ha1 in Ha.
    destruct (scrape_group E p1 vehicle ti (group_key vehicle ti)) as [p2 [u|e]];
      cbn [fst snd] in *.
    + split; [exact Ha|]. rewrite Hs. unfold p1. cbn. lia.
    + cbn. unfold attempts in *. rewrite omap_app, Ha, app_nil_r.
      split; [reflexivity|]. rewrite Hs. unfold p1. cbn. lia.
Qed.

End GroupSettled.

(** X14.  When the group loop ends, every group it was given has a
    checkpoint with status done or error; a checkpoint that is pending
    afterwards was pending before and belongs to none of the groups. *)
Theorem process_groups_settled (E : Extractor) (vehicle : Vehicle.t)
    (p : ScrapingPipeline) (indices : list TableIndex.t) :
  let p' := process_groups E vehicle p indices in
  (forall ti, ti ∈ indices ->
     checkpoint_status (store p') (group_key vehicle ti) = Some Checkpoint.done
     \/ checkpoint_status (store p') (group_key vehicle ti) = Some Checkpoint.error)
  /\ (forall key, checkpoint_status (store p') key = Some Checkpoint.pending ->
        checkpoint_status (store p) key = Some Checkpoint.pending
        /\ key ∉ group_key vehicle <$> indices).
Proof.
  cbn zeta. induction indices as [|t l IH] using rev_ind.
  - split; [intros ti Hti; now apply elem_of_nil in Hti|].
    intros key Hkey. split; [exact Hkey | apply not_elem_of_nil].
  - rewrite process_groups_app.
    change (process_groups E vehicle (process_groups E vehicle p l) [t])
      with (process_group E vehicle (process_groups E vehicle p l) t).
    set (q := process_groups E vehicle p l) in *.
    destruct IH as [IHset IHpend].
    pose proof (process_group_settles E vehicle q t) as Ht. cbn zeta in Ht.
    pose proof (process_group_frame E vehicle q t) as (_ & _ & _ & _ & Hother & _).
    cbn zeta in Hother.
    assert (Hst : forall key, key <> group_key vehicle t ->
                   checkpoint_status (store (process_group E vehicle q t)) key
                   = checkpoint_status (store q) key).
    { intros key Hne. unfold checkpoint_status. now rewrite Hother. }
    split.
    + intros ti Hti.
      destruct (decide (group_key vehicle ti = group_key vehicle t)) as [Heq|Hne].
      * rewrite Heq. exact Ht.
      * rewrite (Hst _ Hne). apply IHset.
        apply elem_of_app in Hti as [Hti|Hti]; [exact Hti|].
        apply list_elem_of_singleton in Hti. now subst.
    + intros key Hkey.
      destruct (decide (key = group_key vehicle t)) as [->|Hne].
      * destruct Ht as [Ht|Ht]; rewrite Ht in Hkey; discriminate.
      * rewrite (Hst _ Hne) in Hkey. destruct (IHpend key Hkey) as [Hp Hnin].
        split; [exact Hp|]. rewrite fmap_app, elem_of_app.
        intros [Hin|Hin]; [contradiction|].
        apply list_elem_of_singleton in Hin. contradiction.
Qed.

Lemma process_groups_settled_witness :
  let p' := process_groups PipelineExample.E PipelineExample.v1
              (new_pipeline true false empty_store)
              [PipelineExample.gA; PipelineExample.gB; PipelineExample.gC] in
  checkpoint_status (store p') (group_key PipelineExample.v1 PipelineExample.gB)
    = Some Checkpoint.done
  \/ checkpoint_status (store p') (group_key PipelineExample.v1 PipelineExample.gB)
     = Some Checkpoint.error.
Proof.
  cbn zeta.
  destruct (process_groups_settled PipelineExample.E PipelineExample.v1
              (new_pipeline true false empty_store)
              [PipelineExample.gA; PipelineExample.gB; PipelineExample.gC])
    as [Hsettled _].
  apply Hsettled. apply list_elem_of_further, list_elem_of_here.
Defined.

(** X15.  Which groups a pass over the groups of a vehicle works on.  Under
    [force] every group is attempted, in order, and none is skipped.
    Without it, and with no group listed twice, the groups attempted are
    exactly those whose checkpoint was not done when the loop started, in
    order, and the others are counted as skipped. *)
Theorem process_groups_resume (E : Extractor) (vehicle : Vehicle.t)
    (p : ScrapingPipeline) (indices : list TableIndex.t) :
  let p' := process_groups E vehicle p indices in
  let keys := group_key vehicle <$> indices in
  (force_reprocess p = true ->
   attempts (log p') = attempts (log p) ++ keys
   /\ total_groups_skipped p' = total_groups_skipped p)
  /\ (force_reprocess p = false -> NoDup keys ->
      attempts (log p')
      = attempts (log p)
        ++ filter (fun key => checkpoint_status (store p) key <> Some Checkpoint.done) keys
      /\ total_groups_skipped p'
         = total_groups_skipped p
           + length (filter (fun key => checkpoint_status (store p) key
                                        = Some Checkpoint.done) keys)).
Proof.
  cbn zeta. induction indices as [|t l IH] using rev_ind.
  - cbn. rewrite app_nil_r. repeat split; lia.
  - rewrite process_groups_app.
    change (process_groups E vehicle (process_groups E vehicle p l) [t])
      with (process_group E vehicle (process_groups E vehicle p l) t).
    set (q := process_groups E vehicle p l) in *.
    pose proof (process_groups_frame E vehicle p l) as (Hforce & _). cbn zeta in Hforce.
    fold q in Hforce.
    pose proof (process_group_attempt E vehicle q t) as [Ha Hs]. cbn zeta in Ha, Hs.
    destruct IH as [IHf IHu]. rewrite fmap_app. cbn [fmap list_fmap].
    split.
    + intros Hf. destruct (IHf Hf) as [IHa IHs].
      rewrite Hforce, Hf, andb_false_r in Ha, Hs.
      rewrite Ha, Hs, IHa, IHs, app_assoc. split; [reflexivity | lia].
    + intros Hf Hnd. apply NoDup_app in Hnd as (Hnd & Hdisj & _).
      destruct (IHu Hf Hnd) as [IHa IHs].
      assert (Hsame : checkpoint_status (store q) (group_key vehicle t)
                      = checkpoint_status (store p) (group_key vehicle t)).
      { unfold checkpoint_status, q.
        rewrite process_groups_checkpoints_other; [reflexivity|].
        intros Hin. apply (Hdisj _ Hin). apply list_elem_of_here. }
      rewrite Hforce, Hf, andb_true_r, Hsame in Ha, Hs.
      rewrite Ha, Hs, IHa, IHs, !list.filter_app, <- app_assoc, length_app.
      case_bool_decide as Hdone.
      * rewrite (filter_cons_False _ (group_key vehicle t) [])
          by (intros Hn; now apply Hn).
        rewrite (filter_cons_True _ (group_key vehicle t) []) by exact Hdone.
        rewrite !filter_nil. cbn [length]. cbv iota. split; [reflexivity | lia].
      * rewrite (filter_cons_True _ (group_key vehicle t) []) by exact Hdone.
        rewrite (filter_cons_False _ (group_key vehicle t) []) by exact Hdone.
        rewrite !filter_nil. cbn [length]. cbv iota. split; [reflexivity | lia].
Qed.

Lemma process_groups_resume_witness :
  attempts (log (process_groups PipelineExample.E_ok PipelineExample.v1
                   (new_pipeline true false PipelineExample.after_first_run)
                   [PipelineExample.gA; PipelineExample.gC]))
  = [group_key PipelineExample.v1 PipelineExample.gA;
     group_key PipelineExample.v1 PipelineExample.gC]
  /\ attempts (log (process_groups PipelineExample.E_ok PipelineExample.v1
                      (new_pipeline false false PipelineExample.after_first_run)
                      [PipelineExample.gA; PipelineExample.gB; PipelineExample.gC]))
     = [group_key PipelineExample.v1 PipelineExample.gB].
Proof.
  split.
  - apply (process_groups_resume PipelineExample.E_ok PipelineExample.v1
             (new_pipeline true false PipelineExample.after_first_run)
             [PipelineExample.gA; PipelineExample.gC]).
    reflexivity.
  - destruct (process_groups_resume PipelineExample.E_ok PipelineExample.v1
                (new_pipeline false false PipelineExample.after_first_run)
                [PipelineExample.gA; PipelineExample.gB; PipelineExample.gC])
      as [_ Hu].
    cbn zeta in Hu. destruct (Hu eq_refl) as [Ha _].
    + vm_compute.
      repeat (apply NoDup_cons; split;
              [rewrite ?elem_of_cons, elem_of_nil; intros H; intuition discriminate|]).
      apply NoDup_nil. exact I.
    + rewrite Ha. vm_compute. reflexivity.
Defined.

(** ** The vehicle loop: counters and milestone lines *)

Section VehicleLoop.

Variable X : StoreMethods.
Variable E : Extractor.

Lemma process_groups_milestone_lines (vehicle : Vehicle.t) (indices : list TableIndex.t)
    (p : ScrapingPipeline) :
  milestone_lines (log (process_groups E vehicle p indices)) = milestone_lines (log p).
Proof.
  unfold process_groups. revert p.
  induction indices as [|ti rest IH]; intros p; [reflexivity|].
  cbn [fold_left]. rewrite IH.
  now pose proof (process_group_counts E vehicle p ti) as (_ & _ & _ & _ & ->).
Qed.

Lemma after_vehicle_milestone_lines (p : ScrapingPipeline) (vehicle_id : string) :
  let p' := _after_vehicle X p vehicle_id in
  _vehicles_processed p' = _vehicles_processed p + 1
  /\ (if (_vehicles_processed p' mod _milestone_every =? 0)%nat
      then _milestone_batch p' = _milestone_batch p + 1
           /\ milestone_lines (log p')
              = milestone_lines (log p) ++ [(_vehicles_processed p', _milestone_batch p')]
      else _milestone_batch p' = _milestone_batch p
           /\ milestone_lines (log p') = milestone_lines (log p)).
Proof.
  cbn zeta. unfold _after_vehicle.
  change (_vehicles_processed (set__vehicles_processed (_vehicles_processed p + 1) p))
    with (_vehicles_processed p + 1).
  destruct ((_vehicles_processed p + 1) mod _milestone_every =? 0)%nat eqn:Hmod.
  - destruct (mark_milestone X _ _ _) as [st|e];
      cbn [_vehicles_processed _milestone_batch log set__vehicles_processed
           set__milestone_batch set_store set_log emit];
      rewrite Hmod; unfold milestone_lines; rewrite !omap_app;
      cbn [omap list_omap]; rewrite ?app_nil_r; repeat split.
  - cbn [_vehicles_processed _milestone_batch log set__vehicles_processed].
    rewrite Hmod. repeat split.
Qed.

(** The state of the counters between two vehicles. *)
Lemma process_vehicle_cadence (p : ScrapingPipeline) (vehicle : Vehicle.t) :
  _milestone_batch p = _vehicles_processed p / _milestone_every ->
  milestone_lines (log p)
  = (fun b => (b * _milestone_every, b)) <$> seq 1 (_milestone_batch p) ->
  let p' := process_vehicle X E p vehicle in
  _vehicles_processed p' = _vehicles_processed p + 1
  /\ _milestone_batch p' = _vehicles_processed p' / _milestone_every
  /\ milestone_lines (log p')
     = (fun b => (b * _milestone_every, b)) <$> seq 1 (_milestone_batch p').
Proof.
  intros Hb Hl. cbn zeta.
  assert (Hstep : forall q,
             _vehicles_processed q = _vehicles_processed p ->
             _milestone_batch q = _milestone_batch p ->
             milestone_lines (log q) = milestone_lines (log p) ->
             let p' := _after_vehicle X q (Vehicle.vehicle_id vehicle) in
             _vehicles_processed p' = _vehicles_processed p + 1
             /\ _milestone_batch p' = _vehicles_processed p' / _milestone_every
             /\ milestone_lines (log p')
                = (fun b => (b * _milestone_every, b)) <$> seq 1 (_milestone_batch p')).
  { intros q Hq1 Hq2 Hq3. cbn zeta.
    pose proof (after_vehicle_milestone_lines q (Vehicle.vehicle_id vehicle))
      as [Hn Hcase].
    pose proof (after_vehicle_batch X q (Vehicle.vehicle_id vehicle)
                  ltac:(congruence)) as Hbatch.
    cbn zeta in Hn, Hcase. split; [congruence|]. split; [exact Hbatch|].
    destruct (_ =? 0)%nat eqn:Hmod.
    - destruct Hcase as [Hb' Hl']. rewrite Hl', Hq3, Hl, Hb', Hq2.
      rewrite Nat.add_1_r, seq_S, fmap_app. cbn [fmap list_fmap Nat.add].
      do 3 f_equal.
      apply Nat.eqb_eq in Hmod.
      pose proof (Nat.div_mod_eq
                    (_vehicles_processed (_after_vehicle X q (Vehicle.vehicle_id vehicle)))
                    _milestone_every) as Hdm.
      rewrite Hmod, <- Hbatch, Hb', Hq2 in Hdm. lia.
    - destruct Hcase as [Hb' Hl']. rewrite Hl', Hq3, Hl, Hb', Hq2. reflexivity. }
  unfold process_vehicle.
  destruct (collect_indices E vehicle) as [[|ti rest]|e].
  - apply Hstep; try reflexivity.
    unfold milestone_lines. cbn. now rewrite omap_app, app_nil_r.
  - destruct (vehicle_gate X p _ _) as [[|]|e].
    + apply Hstep; try reflexivity.
      unfold milestone_lines. cbn. now rewrite omap_app, app_nil_r.
    + pose proof (process_groups_frame E vehicle
                    (set_total_groups_seen (total_groups_seen p + length (ti :: rest)) p)
                    (ti :: rest)) as (_ & _ & Hn & Hb' & _).
      apply Hstep; [exact Hn | exact Hb' |].
      now rewrite process_groups_milestone_lines.
    + apply Hstep; try reflexivity.
      unfold milestone_lines. cbn. now rewrite omap_app, app_nil_r.
  - apply Hstep; try reflexivity.
    unfold milestone_lines. cbn. now rewrite omap_app, app_nil_r.
Qed.

End VehicleLoop.

(** X16.  The vehicle loop counts every vehicle, whatever happened to it
    (no groups, vehicle skipped, discovery failed, groups failed).  Started
    on a new pipeline object it ends with as many vehicles processed as it
    was given, the batch number is that count divided by the interval of
    30, and the milestone lines logged are those of the vehicles number 30,
    60, ..., with batch numbers 1, 2, ...; this holds for any store, also
    one whose milestone writes fail. *)
Theorem process_vehicles_cadence (X : StoreMethods) (E : Extractor)
    (force parquet : bool) (st : DataStore) (vehicles : list Vehicle.t) :
  let p := _process_vehicles X E (new_pipeline force parquet st) vehicles in
  _vehicles_processed p = length vehicles
  /\ _milestone_batch p = length vehicles / _milestone_every
  /\ milestone_lines (log p)
     = (fun b => (b * _milestone_every, b)) <$> seq 1 (length vehicles / _milestone_every).
Proof.
  cbn zeta.
  assert (Hgen : forall vs p,
             _milestone_batch p = _vehicles_processed p / _milestone_every ->
             milestone_lines (log p)
             = (fun b => (b * _milestone_every, b)) <$> seq 1 (_milestone_batch p) ->
             let p' := _process_vehicles X E p vs in
             _vehicles_processed p' = _vehicles_processed p + length vs
             /\ _milestone_batch p' = _vehicles_processed p' / _milestone_every
             /\ milestone_lines (log p')
                = (fun b => (b * _milestone_every, b)) <$> seq 1 (_milestone_batch p')).
  { unfold _process_vehicles.
    induction vs as [|v vs IH]; intros p Hb Hl; cbn zeta.
    - cbn [fold_left length]. split; [lia|]. split; assumption.
    - cbn [fold_left length].
      destruct (process_vehicle_cadence X E p v Hb Hl) as (Hn & Hb' & Hl').
      destruct (IH _ Hb' Hl') as (Hn2 & Hb2 & Hl2).
      split; [rewrite Hn2, Hn; lia|]. split; assumption. }
  destruct (Hgen vehicles (new_pipeline force parquet st)) as (Hn & Hb & Hl);
    [reflexivity | reflexivity |].
  cbn [new_pipeline _vehicles_processed Nat.add] in Hn.
  rewrite Hn in Hb. rewrite Hb in Hl. split; [exact Hn|]. split; assumption.
Qed.

(** ** The vehicle listing *)

Section Listing.

Variable C : Catalogue.
Variable catalog_url : string.

Lemma build_vehicles_shape (seen_models : list string) (items : list RawItem) :
  let vs := build_vehicles C catalog_url seen_models items in
  NoDup (Vehicle.model_code <$> vs)
  /\ Forall (fun v =>
               (Vehicle.model_code v ∉ seen_models)
               /\ Vehicle.vehicle_name v <> "" /\ Vehicle.model_code v <> ""
               /\ Text.strip (Vehicle.vehicle_name v) = Vehicle.vehicle_name v
               /\ Text.strip (Vehicle.model_code v) = Vehicle.model_code v
               /\ Vehicle.source_url v = catalog_url
               /\ Vehicle.vehicle_id v = slugify_name C (Vehicle.vehicle_name v)
               /\ exists item, item ∈ items
                    /\ Vehicle.vehicle_name v = Text.strip (Text.or_empty (name item))
                    /\ Vehicle.model_code v = Text.strip (Text.or_empty (modelCode item)))
            vs.
Proof.
  cbn zeta. revert seen_models.
  induction items as [|item rest IH]; intros seen_models.
  - cbn. split; constructor.
  - cbn [build_vehicles].
    assert (Hweaken : forall seen,
               let vs := build_vehicles C catalog_url seen rest in
               (forall v, v ∈ vs -> Vehicle.model_code v ∉ seen ->
                          Vehicle.model_code v ∉ seen_models) ->
               Forall (fun v =>
                 (Vehicle.model_code v ∉ seen_models)
                 /\ Vehicle.vehicle_name v <> "" /\ Vehicle.model_code v <> ""
                 /\ Text.strip (Vehicle.vehicle_name v) = Vehicle.vehicle_name v
                 /\ Text.strip (Vehicle.model_code v) = Vehicle.model_code v
                 /\ Vehicle.source_url v = catalog_url
                 /\ Vehicle.vehicle_id v = slugify_name C (Vehicle.vehicle_name v)
                 /\ exists it, it ∈ item :: rest
                      /\ Vehicle.vehicle_name v = Text.strip (Text.or_empty (name it))
                      /\ Vehicle.model_code v
                         = Text.strip (Text.or_empty (modelCode it))) vs).
    { intros seen vs Hseen. destruct (IH seen) as [_ Hall].
      apply Forall_forall. intros v Hv.
      pose proof (proj1 (Forall_forall _ _) Hall v Hv)
        as (H1 & H2 & H3 & H4 & H5 & H6 & H7 & it & Hit & H8 & H9).
      split; [now apply Hseen|]. repeat (split; [assumption|]).
      exists it. split; [now apply list_elem_of_further|]. now split. }
    destruct (bool_decide _ || bool_decide _) eqn:Hblank.
    + split; [apply IH|]. apply Hweaken. auto.
    + apply orb_false_iff in Hblank as [Hn Hm].
      apply bool_decide_eq_false_1 in Hn. apply bool_decide_eq_false_1 in Hm.
      case_bool_decide as Hseen.
      * split; [apply IH|]. apply Hweaken. auto.
      * destruct (IH (Text.strip (Text.or_empty (modelCode item)) :: seen_models))
          as [Hnd Hall].
        split.
        -- rewrite fmap_cons. apply NoDup_cons. split; [|exact Hnd]. cbn.
           intros Hin. apply list_elem_of_fmap in Hin as (v & Hv & Hvin).
           pose proof (proj1 (Forall_forall _ _) Hall v Hvin) as (Hnot & _).
           apply Hnot. rewrite <- Hv. apply list_elem_of_here.
        -- constructor.
           ++ cbn. split; [exact Hseen|]. split; [exact Hn|]. split; [exact Hm|].
              split; [apply strip_idempotent|]. split; [apply strip_idempotent|].
              split; [reflexivity|]. split; [reflexivity|].
              exists item. split; [apply list_elem_of_here | now split].
           ++ apply Hweaken. intros v _ Hnot Hin. apply Hnot.
              now apply list_elem_of_further.
Qed.

(** No usable model code is lost: it is the code of a vehicle built, or it
    had been seen before. *)
Lemma build_vehicles_complete (seen_models : list string) (items : list RawItem)
    (item : RawItem) :
  item ∈ items -> ~ unusable item ->
  let mc := Text.strip (Text.or_empty (modelCode item)) in
  mc ∈ seen_models
  \/ mc ∈ Vehicle.model_code <$> build_vehicles C catalog_url seen_models items.
Proof.
  cbn zeta. revert seen_models.
  induction items as [|it rest IH]; intros seen_models Hin Hus;
    [now apply elem_of_nil in Hin|].
  cbn [build_vehicles].
  apply elem_of_cons in Hin as [->|Hin].
  - destruct (bool_decide _ || bool_decide _) eqn:Hblank.
    { exfalso. apply Hus. apply orb_true_iff in Hblank as [H|H];
        apply bool_decide_eq_true_1 in H; [now left | now right]. }
    clear Hblank. case_bool_decide as Hseen; [now left|].
    right. rewrite fmap_cons. apply list_elem_of_here.
  - destruct (bool_decide _ || bool_decide _); [now apply IH|].
    case_bool_decide as Hseen; [now apply IH|].
    destruct (IH (Text.strip (Text.or_empty (modelCode it)) :: seen_models) Hin Hus)
      as [Hs|Hv].
    + apply elem_of_cons in Hs as [Heq|Hs]; [|now left].
      right. rewrite fmap_cons, Heq. apply list_elem_of_here.
    + right. rewrite fmap_cons. now apply list_elem_of_further.
Qed.

Lemma build_vehicles_unusable (seen_models : list string) (items : list RawItem) :
  Forall unusable items -> build_vehicles C catalog_url seen_models items = [].
Proof.
  induction 1 as [|item rest Hus _ IH]; [reflexivity|].
  cbn [build_vehicles].
  destruct Hus as [Hn|Hm].
  - now rewrite (bool_decide_eq_true_2 _ Hn).
  - now rewrite (bool_decide_eq_true_2 _ Hm), orb_true_r.
Qed.

Lemma collect_vehicles_data (vehicles : list Vehicle.t) :
  collect_vehicles C catalog_url = Ok vehicles ->
  exists items, items <> []
    /\ vehicles = build_vehicles C catalog_url [] items
    /\ match pagination_info C with
       | Ok (Some total_pages) => items = collect_pages C total_pages
       | Ok None => extract_single_page C = Ok items
       | Raise _ => False
       end.
Proof.
  unfold collect_vehicles.
  destruct (goto C); [|discriminate].
  destruct (table_found C); [|discriminate]. cbn [negb].
  destruct (tables_ready C); [|discriminate].
  destruct (pagination_info C) as [[total_pages|]|]; [| |discriminate].
  - destruct (collect_pages C total_pages) as [|it rest] eqn:Hp; [discriminate|].
    intros [= <-]. exists (it :: rest). split; [discriminate|]. now split.
  - destruct (extract_single_page C) as [[|it rest]|]; [discriminate| |discriminate].
    intros [= <-]. exists (it :: rest). split; [discriminate|]. now split.
Qed.

End Listing.

(** X17.  The vehicles a successful listing returns: no two have the same
    model code; each has a non-empty name and a non-empty model code, both
    without surrounding blanks, taken from one row of the listing, the
    catalogue URL as source and the slug of its name as id; and every row
    with a name and a model code is represented by a vehicle of its model
    code. *)
Theorem collect_vehicles_listing (C : Catalogue) (catalog_url : string)
    (vehicles : list Vehicle.t) :
  collect_vehicles C catalog_url = Ok vehicles ->
  NoDup (Vehicle.model_code <$> vehicles)
  /\ Forall (fun v =>
               Vehicle.vehicle_name v <> "" /\ Vehicle.model_code v <> ""
               /\ Text.strip (Vehicle.vehicle_name v) = Vehicle.vehicle_name v
               /\ Text.strip (Vehicle.model_code v) = Vehicle.model_code v
               /\ Vehicle.source_url v = catalog_url
               /\ Vehicle.vehicle_id v = slugify_name C (Vehicle.vehicle_name v))
            vehicles
  /\ exists items,
       items <> []
       /\ match pagination_info C with
          | Ok (Some total_pages) => items = collect_pages C total_pages
          | Ok None => extract_single_page C = Ok items
          | Raise _ => False
          end
       /\ (forall v, v ∈ vehicles ->
             exists item, item ∈ items
               /\ Vehicle.vehicle_name v = Text.strip (Text.or_empty (name item))
               /\ Vehicle.model_code v = Text.strip (Text.or_empty (modelCode item)))
       /\ (forall item, item ∈ items -> ~ unusable item ->
             Text.strip (Text.or_empty (modelCode item))
             ∈ Vehicle.model_code <$> vehicles).
Proof.
  intros Hcv.
  destruct (collect_vehicles_data C catalog_url vehicles Hcv)
    as (items & Hne & -> & Hsrc).
  pose proof (build_vehicles_shape C catalog_url [] items) as [Hnd Hall].
  cbn zeta in Hnd, Hall.
  split; [exact Hnd|]. split.
  - eapply Forall_impl; [exact Hall|]. cbn beta.
    intros v (_ & H2 & H3 & H4 & H5 & H6 & H7 & _). repeat split; assumption.
  - exists items. split; [exact Hne|]. split; [exact Hsrc|]. split.
    + intros v Hv.
      now pose proof (proj1 (Forall_forall _ _) Hall v Hv)
        as (_ & _ & _ & _ & _ & _ & _ & Hitem).
    + intros item Hin Hus.
      destruct (build_vehicles_complete C catalog_url [] items item Hin Hus)
        as [Hnil|Hv]; [now apply elem_of_nil in Hnil | exact Hv].
Qed.

Lemma collect_vehicles_listing_witness :
  NoDup (Vehicle.model_code
           <$> [Vehicle.mk "XOOM 110" "XOOM 110" "AAWY" "http://x";
                Vehicle.mk "PLEASURE" "PLEASURE" "AAWZ" "http://x";
                Vehicle.mk "PLEASURE" "PLEASURE" "AAXB" "http://x"]).
Proof.
  apply (collect_vehicles_listing CatalogueExample.two_pages "http://x"
           [Vehicle.mk "XOOM 110" "XOOM 110" "AAWY" "http://x";
            Vehicle.mk "PLEASURE" "PLEASURE" "AAWZ" "http://x";
            Vehicle.mk "PLEASURE" "PLEASURE" "AAXB" "http://x"]).
  vm_compute. reflexivity.
Defined.

(** X18.  A listing that has rows, none of them with both a name and a
    model code, is not an error: [collect_vehicles] returns the empty list
    (only a listing without any row raises), and the run ends with exit
    code 0 without having stored or processed anything. *)
Theorem collect_vehicles_unusable_listing (X : StoreMethods) (E : Extractor)
    (C : Catalogue) (force parquet : bool) (catalog_url : string) (st : DataStore)
    (info : option nat) (items : list RawItem) :
  goto C = Ok tt -> table_found C = true -> tables_ready C = Ok tt ->
  pagination_info C = Ok info ->
  match info with
  | Some total_pages => Ok (collect_pages C total_pages)
  | None => extract_single_page C
  end = Ok items ->
  items <> [] -> Forall unusable items ->
  collect_vehicles C catalog_url = Ok []
  /\ main X E C force parquet catalog_url st = (new_pipeline force parquet st, 0).
Proof.
  intros Hgoto Htable Hready Hinfo Hdata Hne Hall.
  assert (Hcv : collect_vehicles C catalog_url = Ok []).
  { unfold collect_vehicles. rewrite Hgoto, Htable, Hready, Hinfo. cbn [negb].
    rewrite Hdata. destruct items as [|it rest]; [contradiction|].
    now rewrite build_vehicles_unusable. }
  split; [exact Hcv|].
  unfold main, run. now rewrite Hcv.
Qed.

Lemma collect_vehicles_unusable_listing_witness :
  main DataStore_methods PipelineExample.E CatalogueExample.catalogue_with_unusable_rows
       false false "http://x" empty_store
  = (new_pipeline false false empty_store, 0).
Proof.
  apply (collect_vehicles_unusable_listing DataStore_methods PipelineExample.E
           CatalogueExample.catalogue_with_unusable_rows false false "http://x"
           empty_store None CatalogueExample.unusable_rows);
    try reflexivity; [discriminate|].
  constructor; [right; reflexivity|].
  constructor; [left; reflexivity|].
  constructor; [left; reflexivity | constructor].
Defined.

(** ** The vehicles table *)

Section VehiclesTable.

Variable E : Extractor.

Lemma append_parts_rows_vehicles (st : DataStore) (vehicle : Vehicle.t)
    (ti : TableIndex.t) (parts_page : option PartsPage.t) (part_rows : list PartRow.t)
    (csv pq : bool) :
  vehicles (append_parts_rows st vehicle ti parts_page part_rows csv pq).1 = vehicles st.
Proof.
  unfold append_parts_rows.
  destruct (convert_parts_to_dict_list vehicle ti parts_page part_rows)
    as [dict_rows|e]; [|reflexivity].
  pose proof (upsert_part_rows_frame st dict_rows) as (_ & Hv & _). cbn zeta in Hv.
  destruct (upsert_part_rows st dict_rows) as [st1 n]. cbn [fst] in Hv.
  destruct (csv || pq); [|exact Hv].
  match goal with
  | |- context [match ?enriched with Ok _ => _ | Raise _ => _ end] =>
      destruct enriched as [df|e]; [|exact Hv]
  end.
  assert (Hw : vehicles (write_shards st1 df csv pq).1 = vehicles st1).
  { unfold write_shards, _overwrite_group_in_csv, _overwrite_group_in_parquet.
    destruct csv, pq, (CSV_OUTPUT st1), df; try reflexivity;
      cbn [fst snd]; try reflexivity;
      match goal with
      | |- context [match ?x with Some _ => _ | None => _ end] =>
          destruct x; reflexivity
      end. }
  destruct (write_shards st1 df csv pq) as [st2 [u|e]]; cbn [fst] in *; congruence.
Qed.

Lemma scrape_group_vehicles (p : ScrapingPipeline) (vehicle : Vehicle.t)
    (ti : TableIndex.t) (key : Key) :
  vehicles (store (scrape_group E p vehicle ti key).1) = vehicles (store p)
  /\ total_vehicles_seen (scrape_group E p vehicle ti key).1 = total_vehicles_seen p.
Proof.
  unfold scrape_group.
  destruct (collect_parts E vehicle ti) as [[[parts_page part_rows] image_saved]|e];
    [|split; reflexivity].
  destruct part_rows as [|pr rest].
  - destruct parts_page, image_saved; split; reflexivity.
  - set (p1 := match parts_page with
               | Some pg => set_store (save_parts_page (store p) pg) p
               | None => p
               end).
    assert (Hp1 : vehicles (store p1) = vehicles (store p)
                  /\ total_vehicles_seen p1 = total_vehicles_seen p)
      by (unfold p1; destruct parts_page; split; reflexivity).
    destruct Hp1 as [Hv1 Ht1].
    pose proof (append_parts_rows_vehicles (store p1) vehicle ti parts_page (pr :: rest)
                  true (save_parquet p1)) as Hv.
    destruct (append_parts_rows (store p1) vehicle ti parts_page (pr :: rest) true
                (save_parquet p1)) as [st [n|e]]; cbn [fst] in Hv.
    + destruct image_saved; cbn; split; congruence.
    + cbn. split; congruence.
Qed.

Lemma process_group_vehicles (vehicle : Vehicle.t) (p : ScrapingPipeline)
    (ti : TableIndex.t) :
  vehicles (store (process_group E vehicle p ti)) = vehicles (store p)
  /\ total_vehicles_seen (process_group E vehicle p ti) = total_vehicles_seen p.
Proof.
  unfold process_group. destruct (_ && _); [split; reflexivity|].
  set (p1 := emit _ _).
  pose proof (scrape_group_vehicles p1 vehicle ti (group_key vehicle ti)) as [Hv Ht].
  destruct (scrape_group E p1 vehicle ti (group_key vehicle ti)) as [p2 [u|e]];
    cbn [fst] in *; [split; assumption|].
  cbn. split; assumption.
Qed.

Lemma process_groups_vehicles (vehicle : Vehicle.t) (indices : list TableIndex.t)
    (p : ScrapingPipeline) :
  vehicles (store (process_groups E vehicle p indices)) = vehicles (store p)
  /\ total_vehicles_seen (process_groups E vehicle p indices) = total_vehicles_seen p.
Proof.
  unfold process_groups. revert p.
  induction indices as [|ti rest IH]; intros p; [split; reflexivity|].
  cbn [fold_left]. destruct (IH (process_group E vehicle p ti)) as [-> ->].
  apply process_group_vehicles.
Qed.

Lemma after_vehicle_vehicles_seen (X : StoreMethods) (p : ScrapingPipeline)
    (vehicle_id : string) :
  total_vehicles_seen (_after_vehicle X p vehicle_id) = total_vehicles_seen p.
Proof.
  unfold _after_vehicle. destruct (_ =? 0)%nat; [|reflexivity].
  now destruct (mark_milestone X _ _ _).
Qed.

Lemma process_vehicle_vehicles (p : ScrapingPipeline) (vehicle : Vehicle.t) :
  vehicles (store (process_vehicle DataStore_methods E p vehicle)) = vehicles (store p)
  /\ total_vehicles_seen (process_vehicle DataStore_methods E p vehicle)
     = total_vehicles_seen p.
Proof.
  unfold process_vehicle.
  destruct (collect_indices E vehicle) as [[|ti rest]|e];
    rewrite ?after_vehicle_store, ?after_vehicle_vehicles_seen; try (split; reflexivity).
  destruct (vehicle_gate DataStore_methods p _ _) as [[|]|e];
    rewrite ?after_vehicle_store, ?after_vehicle_vehicles_seen; try (split; reflexivity).
  destruct (process_groups_vehicles vehicle (ti :: rest)
              (set_total_groups_seen (total_groups_seen p + length (ti :: rest)) p))
    as [-> ->].
  split; reflexivity.
Qed.

Lemma save_vehicles_lookup (vs : list Vehicle.t) (st : DataStore) (vehicle_id : string) :
  vehicles (fold_left save_vehicle vs st) !! vehicle_id
  = match last (filter (fun v => Vehicle.vehicle_id v = vehicle_id) vs) with
    | Some v => Some v
    | None => vehicles st !! vehicle_id
    end.
Proof.
  induction vs as [|v vs IH] using rev_ind; [reflexivity|].
  rewrite fold_left_app, list.filter_app. cbn [fold_left].
  destruct (decide (Vehicle.vehicle_id v = vehicle_id)) as [Hv|Hv].
  - rewrite (filter_cons_True _ v []) by exact Hv. rewrite filter_nil, last_snoc.
    unfold save_vehicle. cbn. rewrite Hv. apply lookup_insert_eq.
  - rewrite (filter_cons_False _ v []) by exact Hv. rewrite filter_nil, app_nil_r.
    unfold save_vehicle. cbn. rewrite lookup_insert_ne by exact Hv. exact IH.
Qed.

End VehiclesTable.

(** X19.  A run that gets its listing stores every listed vehicle before it
    processes any, and the processing never touches the vehicles table: at
    the end the table holds, for each vehicle id of the listing, the last
    listed vehicle with that id (an earlier one with the same id is
    replaced), every other row is as it was, and the counter of vehicles
    seen is the length of the listing. *)
Theorem run_saves_vehicles (E : Extractor) (C : Catalogue) (force parquet : bool)
    (catalog_url : string) (st : DataStore) (listed : list Vehicle.t) :
  collect_vehicles C catalog_url = Ok listed ->
  let out := main DataStore_methods E C force parquet catalog_url st in
  total_vehicles_seen out.1 = length listed
  /\ forall vehicle_id,
       vehicles (store out.1) !! vehicle_id
       = match last (filter (fun v => Vehicle.vehicle_id v = vehicle_id) listed) with
         | Some v => Some v
         | None => vehicles st !! vehicle_id
         end.
Proof.
  intros Hcv. cbn zeta. unfold main, run. rewrite Hcv. cbn [fst].
  set (p2 := set_store _ _).
  assert (Hloop : forall vs p,
             vehicles (store (_process_vehicles DataStore_methods E p vs))
             = vehicles (store p)
             /\ total_vehicles_seen (_process_vehicles DataStore_methods E p vs)
                = total_vehicles_seen p).
  { unfold _process_vehicles. induction vs as [|v vs IH]; intros p; [split; reflexivity|].
    cbn [fold_left]. destruct (IH (process_vehicle DataStore_methods E p v)) as [-> ->].
    apply process_vehicle_vehicles. }
  destruct (Hloop listed p2) as [-> ->].
  split; [reflexivity|]. intros vehicle_id. apply save_vehicles_lookup.
Qed.

Lemma run_saves_vehicles_witness :
  let out := main DataStore_methods PipelineExample.E CatalogueExample.two_pages
               true false "http://x" empty_store in
  total_vehicles_seen out.1 = 3
  /\ vehicles (store out.1) !! "PLEASURE"
     = Some (Vehicle.mk "PLEASURE" "PLEASURE" "AAXB" "http://x")
  /\ size (vehicles (store out.1)) = 2.
Proof.
  cbn zeta.
  destruct (run_saves_vehicles PipelineExample.E CatalogueExample.two_pages true false
              "http://x" empty_store
              [Vehicle.mk "XOOM 110" "XOOM 110" "AAWY" "http://x";
               Vehicle.mk "PLEASURE" "PLEASURE" "AAWZ" "http://x";
               Vehicle.mk "PLEASURE" "PLEASURE" "AAXB" "http://x"])
    as [Hseen Hlookup]; [vm_compute; reflexivity|].
  split; [exact Hseen|]. split; [rewrite Hlookup; reflexivity|].
  vm_compute. reflexivity.
Defined.

(** ** A group extracted with rows *)

Section UpsertRows.

Implicit Types (r x y : Parts.t) (table : list Parts.t).

Lemma upsert_row_in r table : r ∈ upsert_row r table.
Proof.
  induction table as [|x rest IH]; cbn [upsert_row]; [apply list_elem_of_here|].
  case_bool_decide as Hid.
  - rewrite (do_update_eq _ _ Hid). apply list_elem_of_here.
  - apply list_elem_of_further, IH.
Qed.

Lemma upsert_row_keeps_row r table x :
  Parts.identity x <> Parts.identity r -> x ∈ table -> x ∈ upsert_row r table.
Proof.
  intros Hne. induction table as [|y rest IH]; intros Hx; [now apply elem_of_nil in Hx|].
  cbn [upsert_row]. apply elem_of_cons in Hx as [->|Hx].
  - rewrite bool_decide_eq_false_2 by exact Hne. apply list_elem_of_here.
  - case_bool_decide; apply list_elem_of_further; [exact Hx | now apply IH].
Qed.

Lemma upsert_row_from r table y : y ∈ upsert_row r table -> y = r \/ y ∈ table.
Proof.
  induction table as [|x rest IH]; cbn [upsert_row]; intros Hy.
  - left. now apply list_elem_of_singleton in Hy.
  - case_bool_decide as Hid; apply elem_of_cons in Hy as [->|Hy].
    + left. now apply do_update_eq.
    + right. now apply list_elem_of_further.
    + right. apply list_elem_of_here.
    + destruct (IH Hy) as [->|Hin]; [now left | right; now apply list_elem_of_further].
Qed.

(** The row of a batch that is the last of its identity is in the table
    after the batch, as submitted. *)
Lemma executemany_upsert_last (pre post : list Parts.t) x table :
  Parts.identity x ∉ Parts.identity <$> post ->
  x ∈ executemany_upsert (pre ++ x :: post) table.
Proof.
  unfold executemany_upsert. rewrite fold_left_app. cbn [fold_left].
  generalize (upsert_row_in x (fold_left (fun tbl r => upsert_row r tbl) pre table)).
  generalize (upsert_row x (fold_left (fun tbl r => upsert_row r tbl) pre table)).
  induction post as [|y post IH]; intros tbl Hin Hnot; [exact Hin|].
  rewrite fmap_cons, not_elem_of_cons in Hnot. destruct Hnot as [Hne Hnot].
  cbn [fold_left]. apply IH; [|exact Hnot]. now apply upsert_row_keeps_row.
Qed.

(** Every row of the table after a batch was submitted in the batch or
    stored before it. *)
Lemma executemany_upsert_from (rows : list Parts.t) table y :
  y ∈ executemany_upsert rows table -> y ∈ rows \/ y ∈ table.
Proof.
  unfold executemany_upsert. revert table.
  induction rows as [|r rows IH]; intros table Hy; [now right|].
  cbn [fold_left] in Hy. destruct (IH _ Hy) as [Hin|Hin].
  - left. now apply list_elem_of_further.
  - destruct (upsert_row_from _ _ _ Hin) as [->|Hin'];
      [left; apply list_elem_of_here | now right].
Qed.

End UpsertRows.

(** X20.  A group that is due and whose extraction returns a page and rows:
    the rows are stored under the key of the group (whatever group columns
    they carry themselves), the CSV shard holds for the group exactly its
    canonical rows, the checkpoint is done with the number of rows
    submitted and the image flag and without error text, and the counters
    and the log record one group done.  The content of the shard: every
    extracted row that is the last of its (ref_no, part_no) in the batch is
    in the shard under the key of the group with its seventeen columns as
    extracted, and every row the shard holds for the group is such an
    extracted row or the shard row of a canonical row the store held for
    the group before. *)
Theorem process_group_success (E : Extractor) (vehicle : Vehicle.t)
    (p : ScrapingPipeline) (ti : TableIndex.t) (pg : PartsPage.t)
    (part_rows : list PartRow.t) (image_saved : bool) :
  due p (group_key vehicle ti) ->
  collect_parts E vehicle ti = Ok (Some pg, part_rows, image_saved) ->
  part_rows <> [] ->
  let key := group_key vehicle ti in
  let p' := process_group E vehicle p ti in
  checkpoints (store p') !! key
    = Some (Checkpoint.mk Checkpoint.done (Some (length part_rows)) image_saved None)
  /\ (forall r, r ∈ part_rows ->
        (Vehicle.vehicle_id vehicle, TableIndex.group_type ti, TableIndex.table_no ti,
         TableIndex.group_code ti, PartRow.ref_no r, PartRow.part_no r)
        ∈ Parts.identity <$> parts (store p'))
  /\ rows_of_group key (CSV_OUTPUT (store p')) = canonical_rows (store p') vehicle ti
  /\ canonical_rows (store p') vehicle ti <> []
  /\ parts_pages (store p')
     = parts_pages (upsert_parts_page (store p) pg)
  /\ total_groups_done p' = total_groups_done p + 1
  /\ total_groups_failed p' = total_groups_failed p
  /\ total_parts_rows p' = total_parts_rows p + length part_rows
  /\ total_images_saved p' = total_images_saved p + (if image_saved then 1 else 0)
  /\ log p' = log p ++ [LogScraping key; LogDone key (length part_rows) image_saved]
  /\ (forall pre r post,
        part_rows = pre ++ r :: post ->
        (forall r', r' ∈ post ->
           (PartRow.ref_no r', PartRow.part_no r')
           <> (PartRow.ref_no r, PartRow.part_no r)) ->
        extracted_row vehicle ti pg r ∈ rows_of_group key (CSV_OUTPUT (store p')))
  /\ (forall row, row ∈ rows_of_group key (CSV_OUTPUT (store p')) ->
        (exists r, r ∈ part_rows /\ row = extracted_row vehicle ti pg r)
        \/ (exists y, y ∈ parts (store p) /\ in_group key y = true
                      /\ row = shard_row_of vehicle ti y)).
Proof.
  intros Hdue Hcp Hne. cbn zeta.
  unfold process_group. rewrite (proj1 (due_dec p (group_key vehicle ti)) Hdue).
  set (key := group_key vehicle ti).
  set (p0 := emit (LogScraping key) (set_store (checkpoint_mark_pending (store p) key) p)).
  unfold scrape_group. rewrite Hcp.
  set (p1 := set_store (save_parts_page (store p0) pg) p0).
  destruct (append_parts_rows_nonempty (store p1) vehicle ti pg part_rows
              (save_parquet p1) Hne) as (dict_rows & Hconv & Hdf & Hout).
  cbn zeta in Hdf, Hout.
  destruct part_rows as [|r0 rest]; [contradiction|].
  rewrite Hout. clear Hout.
  set (st1 := (upsert_part_rows (store p1) dict_rows).1) in *.
  set (df := canonical_rows st1 vehicle ti) in *.
  set (st2 := set_CSV_OUTPUT
                (Some (rows_of_other_groups (group_key vehicle ti)
                         (read_csv <$> CSV_OUTPUT (store p1))
                       ++ df)) st1) in *.
  set (st3 := if save_parquet p1 then _overwrite_group_in_parquet st2 df else st2) in *.
  assert (Hparts : parts st3 = parts st1).
  { unfold st3. destruct (save_parquet p1); [|reflexivity].
    now pose proof (overwrite_parquet_frame st2 df) as (_ & -> & _). }
  assert (Hcsv : CSV_OUTPUT st3
                 = Some (rows_of_other_groups key (read_csv <$> CSV_OUTPUT (store p1))
                         ++ df)).
  { unfold st3. destruct (save_parquet p1); [|reflexivity].
    now pose proof (overwrite_parquet_frame st2 df) as (_ & _ & ->). }
  assert (Hcheck : checkpoints st3 = checkpoints (store p1)).
  { transitivity (checkpoints st1).
    - unfold st3. destruct (save_parquet p1); [|reflexivity].
      now pose proof (overwrite_parquet_frame st2 df) as (-> & _ & _).
    - pose proof (upsert_part_rows_frame (store p1) dict_rows) as (H & _). exact H. }
  assert (Hpages : parts_pages st3 = parts_pages (store p1)).
  { transitivity (parts_pages st1).
    - unfold st3. destruct (save_parquet p1); [|reflexivity].
      unfold _overwrite_group_in_parquet. now destruct (PARQUET_OUTPUT st2), df.
    - pose proof (upsert_part_rows_frame (store p1) dict_rows) as (_ & _ & H & _).
      exact H. }
  pose proof (canonical_rows_key vehicle ti st1) as Hkeys. fold df key in Hkeys.
  assert (Hgroup : rows_of_group key (CSV_OUTPUT st3) = df).
  { rewrite Hcsv. unfold rows_of_group, rows_of_other_groups.
    cbn [default from_option id]. rewrite list.filter_app.
    rewrite filter_none, filter_all; [reflexivity | exact Hkeys |].
    apply Forall_forall. intros r Hr'. now apply list_elem_of_filter in Hr' as [Hr' _]. }
  cbn [convert_parts_to_dict_list] in Hconv.
  match type of Hconv with Ok (?f <$> _) = _ => set (conv := f) in Hconv end.
  assert (Hdict : dict_rows = conv <$> r0 :: rest) by congruence.
  assert (Hst1 : parts st1
                 = executemany_upsert (insert_values <$> (conv <$> r0 :: rest))
                     (parts (store p))).
  { unfold st1. now rewrite upsert_part_rows_parts, Hdict. }
  assert (Hdf_elem : forall row,
             row ∈ df <-> exists y, y ∈ parts st1 /\ in_group key y = true
                                   /\ row = shard_row_of vehicle ti y).
  { intros row. unfold df, canonical_rows. rewrite list_elem_of_fmap. split.
    - intros (y & -> & Hy). exists y.
      eapply elem_of_Permutation_proper in Hy; [|symmetry; apply fetch_perm].
      apply list_elem_of_filter in Hy as [Hin Hy]. now repeat split.
    - intros (y & Hy & Hin & ->). exists y. split; [reflexivity|].
      eapply elem_of_Permutation_proper; [apply fetch_perm|].
      apply list_elem_of_filter. split; [exact Hin | exact Hy]. }
  assert (Hresult :
    exists q, (if image_saved
               then set_total_images_saved
                      (total_images_saved
                         (set_total_parts_rows (total_parts_rows p1 + length (r0 :: rest))
                            (set_store st3 p1)) + 1)
                      (set_total_parts_rows (total_parts_rows p1 + length (r0 :: rest))
                         (set_store st3 p1))
               else set_total_parts_rows (total_parts_rows p1 + length (r0 :: rest))
                      (set_store st3 p1)) = q
              /\ store q = st3 /\ log q = log p ++ [LogScraping key]
              /\ total_groups_done q = total_groups_done p
              /\ total_groups_failed q = total_groups_failed p
              /\ total_parts_rows q = total_parts_rows p + length (r0 :: rest)
              /\ total_images_saved q
                 = total_images_saved p + (if image_saved then 1 else 0)).
  { eexists. split; [reflexivity|]. destruct image_saved; cbn; repeat split; lia. }
  destruct Hresult as (q & -> & Hq & Hlog & Hd & Hf & Hr & Hi).
  cbn [fst snd]. cbn [store set_store emit set_log set_total_groups_done log
                      total_groups_done total_groups_failed total_parts_rows
                      total_images_saved].
  rewrite Hq, Hlog, Hd, Hf, Hr, Hi.
  change (parts (checkpoint_mark_done st3 key (length (r0 :: rest)) image_saved))
    with (parts st3).
  change (CSV_OUTPUT (checkpoint_mark_done st3 key (length (r0 :: rest)) image_saved))
    with (CSV_OUTPUT st3).
  change (parts_pages (checkpoint_mark_done st3 key (length (r0 :: rest)) image_saved))
    with (parts_pages st3).
  rewrite (canonical_rows_parts vehicle ti st1
             (checkpoint_mark_done st3 key (length (r0 :: rest)) image_saved) Hparts).
  fold df. rewrite Hgroup.
  split; [cbn; apply lookup_insert_eq|].
  split.
  { intros r Hr'. rewrite Hparts, Hst1.
    change (Vehicle.vehicle_id vehicle, TableIndex.group_type ti, TableIndex.table_no ti,
            TableIndex.group_code ti, PartRow.ref_no r, PartRow.part_no r)
      with (Parts.identity (insert_values (conv r))).
    apply executemany_upsert_has.
    apply list_elem_of_fmap. exists (conv r). split; [reflexivity|].
    apply list_elem_of_fmap. now exists r. }
  split; [reflexivity|].
  split; [exact Hdf|].
  split; [exact Hpages|].
  split; [reflexivity|]. split; [reflexivity|]. split; [reflexivity|].
  split; [reflexivity|].
  split; [now rewrite <- app_assoc|].
  split.
  - intros pre r post Hsplit Hlast. apply Hdf_elem.
    exists (insert_values (conv r)). split; [|split; [|reflexivity]].
    + rewrite Hst1, Hsplit, !fmap_app, !fmap_cons.
      apply executemany_upsert_last.
      intros Hin. apply list_elem_of_fmap in Hin as (d & Hid & Hd').
      apply list_elem_of_fmap in Hd' as (d' & -> & Hd').
      apply list_elem_of_fmap in Hd' as (r' & -> & Hr').
      apply (Hlast r' Hr'). unfold Parts.identity in Hid. cbn in Hid. congruence.
    + unfold in_group. apply bool_decide_eq_true_2. reflexivity.
  - intros row Hrow. apply Hdf_elem in Hrow as (y & Hy & Hin & ->).
    rewrite Hst1 in Hy. apply executemany_upsert_from in Hy as [Hy|Hy].
    + left. apply list_elem_of_fmap in Hy as (d & -> & Hd').
      apply list_elem_of_fmap in Hd' as (r & -> & Hr').
      exists r. split; [exact Hr' | reflexivity].
    + right. exists y. now repeat split.
Qed.

Lemma process_group_success_witness :
  let p' := process_group PipelineExample.E_ok PipelineExample.v1
              (new_pipeline false false empty_store) PipelineExample.gA in
  checkpoints (store p') !! group_key PipelineExample.v1 PipelineExample.gA
  = Some (Checkpoint.mk Checkpoint.done (Some 2) true None)
  /\ length (rows_of_group (group_key PipelineExample.v1 PipelineExample.gA)
               (CSV_OUTPUT (store p'))) = 2.
Proof.
  cbn zeta.
  destruct (process_group_success PipelineExample.E_ok PipelineExample.v1
              (new_pipeline false false empty_store) PipelineExample.gA
              (PipelineExample.page PipelineExample.gA)
              [PipelineExample.row PipelineExample.gA "1" "P1";
               PipelineExample.row PipelineExample.gA "2" "P2"] true)
    as (Hcp & _ & Hcsv & _).
  - left. vm_compute. discriminate.
  - reflexivity.
  - discriminate.
  - split; [exact Hcp|]. cbn zeta in Hcsv. rewrite Hcsv. vm_compute. reflexivity.
Defined.

(** ** Natural keys stay unique *)

Section ReadUnique.

Lemma NoDup_fmap_coarser {A B C : Type} (f : A -> B) (h : A -> C) (l : list A) :
  (forall x y, f x = f y -> h x = h y) -> NoDup (h <$> l) -> NoDup (f <$> l).
Proof.
  intros Hfh. induction l as [|x l IH]; cbn; intros Hnd; [apply NoDup_nil; exact I|].
  apply NoDup_cons in Hnd as [Hx Hnd]. apply NoDup_cons. split; [|now apply IH].
  intros Hin. apply Hx. apply list_elem_of_fmap in Hin as (y & Hxy & Hy).
  apply list_elem_of_fmap. exists y. split; [now apply Hfh | exact Hy].
Qed.

Lemma row_identity_read_row_eq (x y : Row.t) :
  row_identity x = row_identity y ->
  row_identity (read_row x) = row_identity (read_row y).
Proof.
  unfold row_identity, read_row. cbn. intros [= -> -> -> -> -> ->]. reflexivity.
Qed.

Lemma row_identity_read_row (r : Row.t) :
  readable_key (row_key r) -> readable (Row.ref_no r) -> readable (Row.part_no r) ->
  row_identity (read_row r) = row_identity r.
Proof.
  unfold readable_key, readable, row_key, row_identity, read_row. cbn.
  intros (H1 & H2 & H3 & H4) H5 H6. now rewrite H1, H2, H3, H4, H5, H6.
Qed.

(** A store whose CSV shard has unique natural keys when read back has them
    as written. *)
Lemma read_unique_keys_unique (st : DataStore) : read_unique st -> keys_unique st.
Proof.
  intros (Hu & _ & Hcsv & Hpq). repeat split; [exact Hu | | exact Hpq].
  unfold shard_unique in *. destruct (CSV_OUTPUT st) as [written|]; [|exact Hcsv].
  cbn [fmap option_fmap option_map default from_option id] in *.
  unfold read_csv in Hcsv. rewrite <- list_fmap_compose in Hcsv.
  eapply NoDup_fmap_coarser; [|exact Hcsv].
  intros x y Hxy. cbn. now apply row_identity_read_row_eq.
Qed.

Lemma same_data_read_unique (st st' : DataStore) :
  same_data st st' -> read_unique st -> read_unique st'.
Proof. unfold same_data, read_unique. now intros (_ & _ & -> & -> & ->). Qed.

(** The CSV shard after a materialization has unique natural keys also
    when it is read back. *)
Lemma rewritten_csv_read_unique (st : DataStore) (vehicle : Vehicle.t) (ti : TableIndex.t)
    (shard : option (list Row.t)) :
  unique_identities (parts st) -> Forall readable_part (parts st) ->
  readable_key (group_key vehicle ti) ->
  shard_unique (read_csv <$> shard) ->
  shard_unique
    (read_csv <$> Some (rows_of_other_groups (group_key vehicle ti) (read_csv <$> shard)
                        ++ canonical_rows st vehicle ti)).
Proof.
  intros Hu Hr Hkey Hs.
  pose proof (rewritten_shard_unique st vehicle ti (read_csv <$> shard) Hu Hs) as Hnd.
  unfold shard_unique in *.
  cbn [fmap option_fmap option_map default from_option id] in *.
  unfold read_csv at 1. rewrite !fmap_app in *.
  rewrite (fmap_fixed read_row _ (read_csv_others_fixed (group_key vehicle ti) shard)).
  replace (row_identity <$> (read_row <$> canonical_rows st vehicle ti))
    with (row_identity <$> canonical_rows st vehicle ti); [exact Hnd|].
  rewrite <- list_fmap_compose. apply Forall_fmap_ext_1.
  unfold canonical_rows. apply Forall_fmap, Forall_forall. intros y Hy. cbn.
  eapply elem_of_Permutation_proper in Hy; [|symmetry; apply fetch_perm].
  apply list_elem_of_filter in Hy as [Hin Hy].
  rewrite Forall_forall in Hr. destruct (Hr y Hy) as [Href Hpart].
  symmetry. apply row_identity_read_row; [|exact Href | exact Hpart].
  now rewrite (row_key_shard_row_of vehicle ti _ y Hin).
Qed.

Lemma append_parts_rows_read_unique (st : DataStore) (vehicle : Vehicle.t)
    (ti : TableIndex.t) (parts_page : option PartsPage.t)
    (part_rows : list PartRow.t) (pq : bool) :
  part_rows <> [] ->
  readable_key (group_key vehicle ti) ->
  (forall dict_rows,
     convert_parts_to_dict_list vehicle ti parts_page part_rows = Ok dict_rows ->
     Forall readable_part (insert_values <$> dict_rows)) ->
  read_unique st ->
  read_unique (append_parts_rows st vehicle ti parts_page part_rows true pq).1.
Proof.
  intros Hne Hkey Hbatch (Hu & Hr & Hcsv & Hpq).
  destruct parts_page as [pg|].
  2:{ destruct part_rows; [contradiction|]. now repeat split. }
  destruct (append_parts_rows_nonempty st vehicle ti pg part_rows pq Hne)
    as (dict_rows & Hconv & Hdf & ->).
  cbn [fst].
  set (st1 := (upsert_part_rows st dict_rows).1) in *.
  set (df := canonical_rows st1 vehicle ti) in *.
  assert (Hu1 : unique_identities (parts st1)).
  { unfold st1. rewrite upsert_part_rows_parts. now apply executemany_upsert_unique. }
  assert (Hr1 : Forall readable_part (parts st1)).
  { unfold st1. rewrite upsert_part_rows_parts. apply Forall_forall. intros y Hy.
    apply executemany_upsert_from in Hy as [Hy|Hy].
    - specialize (Hbatch dict_rows Hconv). rewrite Forall_forall in Hbatch.
      now apply Hbatch.
    - rewrite Forall_forall in Hr. now apply Hr. }
  pose proof (upsert_part_rows_frame st dict_rows) as (_ & _ & _ & _ & Hpq1).
  fold st1 in Hpq1.
  pose proof (rewritten_csv_read_unique st1 vehicle ti (CSV_OUTPUT st) Hu1 Hr1 Hkey Hcsv)
    as Hcsv'.
  pose proof (rewritten_shard_unique st1 vehicle ti (PARQUET_OUTPUT st) Hu1 Hpq) as Hpq'.
  fold df in Hcsv', Hpq'.
  destruct pq.
  - destruct (overwrite_parquet_frame
                (set_CSV_OUTPUT
                   (Some (rows_of_other_groups (group_key vehicle ti)
                            (read_csv <$> CSV_OUTPUT st) ++ df))
                   st1) df) as (_ & Hp & Hc).
    unfold read_unique. rewrite Hp, Hc.
    rewrite (overwrite_parquet_nonempty _ (group_key vehicle ti) df Hdf
               (canonical_rows_key vehicle ti st1)).
    cbn [parts CSV_OUTPUT PARQUET_OUTPUT set_CSV_OUTPUT]. rewrite Hpq1.
    now repeat split.
  - unfold read_unique. cbn [parts CSV_OUTPUT PARQUET_OUTPUT set_CSV_OUTPUT].
    rewrite Hpq1. now repeat split.
Qed.

Lemma scrape_group_read_unique (E : Extractor) (vehicle : Vehicle.t)
    (p : ScrapingPipeline) (ti : TableIndex.t) (key : Key) :
  readable_group E (vehicle, ti) ->
  read_unique (store p) -> read_unique (store (scrape_group E p vehicle ti key).1).
Proof.
  intros [Hkey Hbatch] Hk. cbn [fst snd] in Hkey, Hbatch.
  unfold group_batch in Hbatch. unfold scrape_group.
  destruct (collect_parts E vehicle ti) as [[[parts_page part_rows] image_saved]|e];
    [|exact Hk].
  set (p1 := match parts_page with
             | Some pg => set_store (save_parts_page (store p) pg) p
             | None => p
             end).
  assert (Hk1 : read_unique (store p1)) by (unfold p1; now destruct parts_page).
  destruct part_rows as [|pr rest].
  - cbn. now destruct image_saved.
  - assert (Hb : forall dict_rows,
               convert_parts_to_dict_list vehicle ti parts_page (pr :: rest)
               = Ok dict_rows ->
               Forall readable_part (insert_values <$> dict_rows)).
    { intros dict_rows Hd. now rewrite Hd in Hbatch. }
    pose proof (append_parts_rows_read_unique (store p1) vehicle ti parts_page
                  (pr :: rest) (save_parquet p1) ltac:(discriminate) Hkey Hb Hk1) as Hk2.
    destruct (append_parts_rows (store p1) vehicle ti parts_page (pr :: rest) true
                (save_parquet p1)) as [st [n|e]]; cbn [fst] in Hk2.
    + cbn. now destruct image_saved.
    + exact Hk2.
Qed.

Lemma process_group_read_unique (E : Extractor) (vehicle : Vehicle.t)
    (p : ScrapingPipeline) (ti : TableIndex.t) :
  readable_group E (vehicle, ti) ->
  read_unique (store p) -> read_unique (store (process_group E vehicle p ti)).
Proof.
  intros Hg Hk. unfold process_group.
  destruct (bool_decide _ && negb _); [exact Hk|].
  set (p1 := emit _ _).
  pose proof (scrape_group_read_unique E vehicle p1 ti (group_key vehicle ti) Hg Hk)
    as Hk2.
  destruct (scrape_group E p1 vehicle ti (group_key vehicle ti)) as [p2 [u|e]];
    exact Hk2.
Qed.

Lemma process_groups_read_unique (E : Extractor) (vehicle : Vehicle.t)
    (indices : list TableIndex.t) (p : ScrapingPipeline) :
  Forall (fun ti => readable_group E (vehicle, ti)) indices ->
  read_unique (store p) -> read_unique (store (process_groups E vehicle p indices)).
Proof.
  revert p. induction indices as [|ti rest IH]; intros p Hg Hk; [exact Hk|].
  apply Forall_cons in Hg as [Hti Hg].
  apply (IH (process_group E vehicle p ti) Hg). now apply process_group_read_unique.
Qed.

Variable X : StoreMethods.
Hypothesis X_frame : milestone_frame X.

Lemma process_vehicle_read_unique (E : Extractor) (p : ScrapingPipeline)
    (vehicle : Vehicle.t) :
  readable_run E [vehicle] ->
  read_unique (store p) -> read_unique (store (process_vehicle X E p vehicle)).
Proof.
  intros Hrun Hk.
  assert (Hafter : forall q, read_unique (store q) ->
            read_unique (store (_after_vehicle X q (Vehicle.vehicle_id vehicle)))).
  { intros q Hq. eapply same_data_read_unique; [|exact Hq].
    now apply after_vehicle_same_data. }
  unfold readable_run, run_pairs in Hrun. cbn [flat_map] in Hrun.
  rewrite app_nil_r in Hrun.
  unfold process_vehicle.
  destruct (collect_indices E vehicle) as [[|ti rest]|e]; try (now apply Hafter).
  destruct (vehicle_gate X p _ _) as [[|]|e]; try (now apply Hafter).
  apply Hafter. apply process_groups_read_unique; [|exact Hk].
  rewrite Forall_fmap in Hrun. exact Hrun.
Qed.

(** Any run, forced or not, keeps the natural keys unique in the
    canonical store and in both shards, the CSV shard as it is read back. *)
Lemma main_read_unique (E : Extractor) (C : Catalogue) (force parquet : bool)
    (url : string) (st : DataStore) :
  (forall listed, collect_vehicles C url = Ok listed -> readable_run E listed) ->
  read_unique st -> read_unique (store (main X E C force parquet url st).1).
Proof.
  intros Hrun Hk. unfold main, run.
  destruct (collect_vehicles C url) as [vehicles|e]; [|exact Hk].
  specialize (Hrun vehicles eq_refl).
  cbn [fst].
  set (p2 := set_store _ _).
  assert (Hk2 : read_unique (store p2)).
  { unfold p2. cbn. eapply same_data_read_unique; [|exact Hk].
    apply save_vehicles_same_data. }
  clearbody p2. revert p2 Hk2.
  induction vehicles as [|v rest IH]; intros p2 Hk2; [exact Hk2|].
  unfold readable_run, run_pairs in Hrun. cbn [flat_map] in Hrun.
  apply Forall_app in Hrun as [Hv Hrest].
  apply (IH Hrest (process_vehicle X E p2 v)).
  apply process_vehicle_read_unique; [|exact Hk2].
  unfold readable_run, run_pairs. cbn [flat_map]. now rewrite app_nil_r.
Qed.

End ReadUnique.

(** X21.  No run creates a duplicate where the keys are read back as they
    are written.  If no two canonical rows, no two rows of the Parquet shard
    and no two rows of the CSV shard as it is read back share a natural key
    before a run, if the identity columns of the canonical rows are not
    spelled as NA markers of the CSV reader, and if the same holds of the
    key of every group the run discovers and of the rows extracted for it,
    then all of this holds after the run, and no two rows of the CSV shard
    as written share a natural key either; whether the run was forced or
    not, whatever the extraction returned or raised, and also when the
    listing failed. *)
Theorem run_keeps_keys_unique (E : Extractor) (C : Catalogue) (force parquet : bool)
    (catalog_url : string) (st : DataStore) :
  read_unique st ->
  (forall listed, collect_vehicles C catalog_url = Ok listed -> readable_run E listed) ->
  let st' := store (main DataStore_methods E C force parquet catalog_url st).1 in
  read_unique st' /\ keys_unique st'.
Proof.
  intros Hu Hrun. cbn zeta.
  assert (Hafter : read_unique
                     (store (main DataStore_methods E C force parquet catalog_url st).1)).
  { apply main_read_unique; [apply DataStore_methods_frame | exact Hrun | exact Hu]. }
  split; [exact Hafter | now apply read_unique_keys_unique].
Qed.

Lemma run_keeps_keys_unique_witness :
  keys_unique (store (main DataStore_methods PipelineExample.E PipelineExample.catalogue
                           true true "http://x" empty_store).1).
Proof.
  apply (run_keeps_keys_unique PipelineExample.E PipelineExample.catalogue true true
           "http://x" empty_store).
  - repeat split; try (apply NoDup_nil; exact I). apply Forall_nil. exact I.
  - intros listed Hlisted. vm_compute in Hlisted. injection Hlisted as <-.
    unfold readable_run, readable_group, readable_key, readable_part, readable.
    vm_compute. repeat constructor.
Defined.

(** A shard whose rows differ only in the spelling of an empty
    [vehicle_id] has unique natural keys as written and not as read back;
    materializing another group into it leaves two rows with one natural
    key. *)
Example blank_spellings_collide :
  let st := set_CSV_OUTPUT
              (Some [MaterializeExample.shard_row "" "1" "P1";
                     MaterializeExample.shard_row "nan" "1" "P1"]) empty_store in
  let st' := (append_parts_rows st MaterializeExample.vehicle MaterializeExample.ti
                (Some MaterializeExample.pg) MaterializeExample.three true false).1 in
  keys_unique st /\ ~ read_unique st /\ ~ keys_unique st'.
Proof.
  cbn zeta. split; [|split].
  - repeat split; try (apply NoDup_nil; exact I). unfold shard_unique. vm_compute.
    repeat (apply NoDup_cons; split;
            [rewrite ?elem_of_cons, elem_of_nil; intros H; intuition discriminate|]).
    apply NoDup_nil. exact I.
  - intros (_ & _ & H & _). unfold shard_unique in H. vm_compute in H.
    apply NoDup_cons in H as [H _]. apply H. apply list_elem_of_here.
  - intros (_ & H & _). unfold shard_unique in H. vm_compute in H.
    apply NoDup_cons in H as [H _]. apply H. apply list_elem_of_here.
Qed.

(** ** The legacy CSV writer *)

(** X22.  The legacy writer does not replace a group, it appends: writing
    the same non-empty batch twice leaves every row of the batch in the
    shard twice, after whatever the shard held, so the shard has duplicate
    natural keys.  An empty batch writes nothing (no file is created), and
    without [append] the shard becomes the batch.  The database is never
    touched. *)
Theorem write_parts_csv_appends (st : DataStore) (parts_data : list Row.t) :
  parts_data <> [] ->
  let twice := write_parts_csv (write_parts_csv st parts_data true) parts_data true in
  CSV_OUTPUT twice = Some (default [] (CSV_OUTPUT st) ++ parts_data ++ parts_data)
  /\ ~ shard_unique (CSV_OUTPUT twice)
  /\ (forall append, write_parts_csv st [] append = st)
  /\ CSV_OUTPUT (write_parts_csv st parts_data false) = Some parts_data
  /\ (forall append,
        let st' := write_parts_csv st parts_data append in
        checkpoints st' = checkpoints st /\ vehicles st' = vehicles st
        /\ parts_pages st' = parts_pages st /\ parts st' = parts st
        /\ PARQUET_OUTPUT st' = PARQUET_OUTPUT st).
Proof.
  intros Hne. cbn zeta. destruct parts_data as [|d rest]; [contradiction|].
  assert (Htwice : CSV_OUTPUT (write_parts_csv (write_parts_csv st (d :: rest) true)
                                 (d :: rest) true)
                   = Some (default [] (CSV_OUTPUT st) ++ (d :: rest) ++ d :: rest)).
  { unfold write_parts_csv. destruct (CSV_OUTPUT st) as [existing|]; cbn.
    - now rewrite <- app_assoc.
    - reflexivity. }
  split; [exact Htwice|]. split.
  - rewrite Htwice. unfold shard_unique. cbn [default from_option id].
    rewrite !fmap_app, fmap_cons. intros Hnd.
    apply NoDup_app in Hnd as (_ & _ & Hnd).
    apply NoDup_app in Hnd as (_ & Hdisj & _).
    apply (Hdisj (row_identity d)); apply list_elem_of_here.
  - split; [reflexivity|]. split.
    + unfold write_parts_csv. now destruct (CSV_OUTPUT st).
    + intros append. unfold write_parts_csv.
      destruct (CSV_OUTPUT st), append; repeat split.
Qed.

Lemma write_parts_csv_appends_witness :
  CSV_OUTPUT (write_parts_csv (write_parts_csv empty_store [UpsertExample.stored] true)
                [UpsertExample.stored] true)
  = Some [UpsertExample.stored; UpsertExample.stored].
Proof.
  apply (write_parts_csv_appends empty_store [UpsertExample.stored]).
  discriminate.
Defined.

(** ** A run without [force] *)

Section Unforced.

Variable E : Extractor.

Lemma unforced_vehicle_quiet (p : ScrapingPipeline) (vehicle : Vehicle.t) :
  force_reprocess p = false ->
  let p' := process_vehicle DataStore_methods E p vehicle in
  force_reprocess p' = false /\ store p' = store p
  /\ attempts (log p') = attempts (log p)
  /\ total_groups_seen p' = total_groups_seen p.
Proof.
  intros Hf. cbn zeta.
  assert (Hstep : forall q,
             force_reprocess q = false -> store q = store p ->
             attempts (log q) = attempts (log p) ->
             total_groups_seen q = total_groups_seen p ->
             let p' := _after_vehicle DataStore_methods q (Vehicle.vehicle_id vehicle) in
             force_reprocess p' = false /\ store p' = store p
             /\ attempts (log p') = attempts (log p)
             /\ total_groups_seen p' = total_groups_seen p).
  { intros q Hq1 Hq2 Hq3 Hq4. cbn zeta.
    pose proof (after_vehicle_frame DataStore_methods q (Vehicle.vehicle_id vehicle))
      as (Hforce & _ & _ & events & Hlog & Hev).
    cbn zeta in Hforce, Hlog.
    split; [congruence|]. split; [now rewrite after_vehicle_store|].
    split; [rewrite Hlog, attempts_app, Hev, app_nil_r; exact Hq3|].
    rewrite <- Hq4. unfold _after_vehicle. now destruct (_ =? 0)%nat. }
  unfold process_vehicle.
  destruct (collect_indices E vehicle) as [[|ti rest]|e].
  - apply Hstep; try assumption; try reflexivity.
    unfold attempts. cbn. now rewrite omap_app, app_nil_r.
  - unfold vehicle_gate. rewrite Hf. cbn [DataStore_methods is_vehicle_complete].
    apply Hstep; try assumption; try reflexivity.
    unfold attempts. cbn. now rewrite omap_app, app_nil_r.
  - apply Hstep; try assumption; try reflexivity.
    unfold attempts. cbn. now rewrite omap_app, app_nil_r.
Qed.

End Unforced.

(** X23.  With the store as it is written, a run without [force] extracts
    nothing: whatever the listing and the checkpoints, no group is
    attempted or counted as discovered, and the checkpoints, the canonical
    rows, the page metadata and both shards end as they started; the run
    still counts every vehicle and exits with code 0.  (Every vehicle with
    groups fails at the completeness gate, which [DataStore] does not
    implement.) *)
Theorem unforced_run_extracts_nothing (E : Extractor) (C : Catalogue) (parquet : bool)
    (catalog_url : string) (st : DataStore) (listed : list Vehicle.t) :
  collect_vehicles C catalog_url = Ok listed ->
  let out := main DataStore_methods E C false parquet catalog_url st in
  out.2 = 0
  /\ attempts (log out.1) = []
  /\ total_groups_seen out.1 = 0
  /\ _vehicles_processed out.1 = length listed
  /\ same_data st (store out.1).
Proof.
  intros Hcv. cbn zeta.
  pose proof (main_of_listing DataStore_methods E C false parquet catalog_url st) as Hmain.
  rewrite Hcv in Hmain. destruct Hmain as [Hexit Hcount].
  split; [exact Hexit|].
  unfold main, run in *. rewrite Hcv in *. cbn [fst snd] in *.
  set (p2 := set_store _ _) in *.
  assert (Hloop : forall vs p,
             force_reprocess p = false ->
             let p' := _process_vehicles DataStore_methods E p vs in
             force_reprocess p' = false /\ store p' = store p
             /\ attempts (log p') = attempts (log p)
             /\ total_groups_seen p' = total_groups_seen p).
  { unfold _process_vehicles. induction vs as [|v vs IH]; intros p Hf; cbn zeta.
    - repeat split. exact Hf.
    - cbn [fold_left].
      destruct (unforced_vehicle_quiet E p v Hf) as (Hf1 & Hs1 & Ha1 & Hg1).
      destruct (IH _ Hf1) as (Hf2 & Hs2 & Ha2 & Hg2).
      repeat split; congruence. }
  destruct (Hloop listed p2 eq_refl) as (_ & Hs & Ha & Hg).
  split; [rewrite Ha; reflexivity|]. split; [rewrite Hg; reflexivity|].
  split; [exact Hcount|].
  rewrite Hs. unfold p2. cbn [store set_store set_total_vehicles_seen new_pipeline].
  apply save_vehicles_same_data.
Qed.

Lemma unforced_run_extracts_nothing_witness :
  attempts (log (main DataStore_methods PipelineExample.E_ok CatalogueExample.two_pages
                      false false "http://x" empty_store).1) = [].
Proof.
  apply (unforced_run_extracts_nothing PipelineExample.E_ok CatalogueExample.two_pages
           false "http://x" empty_store
           [Vehicle.mk "XOOM 110" "XOOM 110" "AAWY" "http://x";
            Vehicle.mk "PLEASURE" "PLEASURE" "AAWZ" "http://x";
            Vehicle.mk "PLEASURE" "PLEASURE" "AAXB" "http://x"]).
  vm_compute. reflexivity.
Defined.

(** ** A forced run, repeated *)

Section ForcedRun.

Variable E : Extractor.

Lemma store_ext (st st' : DataStore) :
  checkpoints st = checkpoints st' -> vehicles st = vehicles st' ->
  parts_pages st = parts_pages st' -> parts st = parts st' ->
  CSV_OUTPUT st = CSV_OUTPUT st' -> PARQUET_OUTPUT st = PARQUET_OUTPUT st' ->
  st = st'.
Proof. destruct st, st'. cbn. now intros -> -> -> -> -> ->. Qed.

Lemma process_group_effect (vehicle : Vehicle.t) (p : ScrapingPipeline)
    (ti : TableIndex.t) :
  force_reprocess p = true ->
  store (process_group E vehicle p ti)
  = group_effect E (save_parquet p) (store p) (vehicle, ti).
Proof.
  intros Hf. unfold process_group. rewrite Hf, andb_false_r.
  set (key := group_key vehicle ti).
  set (p0 := emit (LogScraping key) (set_store (checkpoint_mark_pending (store p) key) p)).
  unfold scrape_group, group_effect, group_batch, group_record, group_page,
    group_materialized.
  cbn [fst snd]. fold key.
  destruct (collect_parts E vehicle ti) as [[[parts_page part_rows] image_saved]|e].
  - destruct part_rows as [|r0 rest].
    + destruct parts_page as [pg|], image_saved; cbn;
        apply store_ext; cbn; try reflexivity; apply insert_insert_eq.
    + destruct parts_page as [pg|].
      * set (p1 := set_store (save_parts_page (store p0) pg) p0).
        destruct (append_parts_rows_nonempty (store p1) vehicle ti pg (r0 :: rest)
                    (save_parquet p1) ltac:(discriminate))
          as (dict_rows & Hconv & Hdf & Hout).
        cbn zeta in Hdf, Hout. rewrite Hout, Hconv. clear Hout.
        set (st1 := (upsert_part_rows (store p1) dict_rows).1) in *.
        set (df := canonical_rows st1 vehicle ti) in *.
        set (st2 := set_CSV_OUTPUT
                      (Some (rows_of_other_groups (group_key vehicle ti)
                               (read_csv <$> CSV_OUTPUT (store p1)) ++ df)) st1) in *.
        pose proof (canonical_rows_key vehicle ti st1) as Hkeys. fold df in Hkeys.
        assert (Hparts1 : parts st1
                          = executemany_upsert (insert_values <$> dict_rows)
                              (parts (store p))).
        { unfold st1. now rewrite upsert_part_rows_parts. }
        assert (Hdf' : canonical_rows
                         (set_parts (executemany_upsert (insert_values <$> dict_rows)
                                       (parts (store p))) (store p)) vehicle ti = df).
        { unfold df. apply canonical_rows_parts. now rewrite Hparts1. }
        rewrite Hdf'.
        pose proof (upsert_part_rows_frame (store p1) dict_rows)
          as (Hf1 & Hf2 & Hf3 & Hf4 & Hf5). cbn zeta in Hf1, Hf2, Hf3, Hf4, Hf5.
        fold st1 in Hf1, Hf2, Hf3, Hf4, Hf5.
        assert (Hst3 : forall st3,
                   st3 = (if save_parquet p1
                          then _overwrite_group_in_parquet st2 df else st2) ->
                   checkpoints st3 = checkpoints (store p1)
                   /\ vehicles st3 = vehicles (store p)
                   /\ parts_pages st3 = parts_pages (store p1)
                   /\ parts st3 = parts st1
                   /\ CSV_OUTPUT st3
                      = Some (rows_of_other_groups key (read_csv <$> CSV_OUTPUT (store p))
                              ++ df)
                   /\ PARQUET_OUTPUT st3
                      = if save_parquet p
                        then Some (rows_of_other_groups key (PARQUET_OUTPUT (store p))
                                   ++ df)
                        else PARQUET_OUTPUT (store p)).
        { intros st3 ->. change (save_parquet p1) with (save_parquet p).
          destruct (save_parquet p).
          - pose proof (overwrite_parquet_nonempty st2 key df Hdf Hkeys) as Hpq.
            pose proof (overwrite_parquet_frame st2 df) as (Hc & Hp & Hcsv).
            rewrite Hpq, Hc, Hp, Hcsv.
            repeat split; try assumption; try reflexivity.
            + unfold _overwrite_group_in_parquet.
              destruct (PARQUET_OUTPUT st2), df; exact Hf2.
            + unfold _overwrite_group_in_parquet.
              destruct (PARQUET_OUTPUT st2), df; exact Hf3.
            + do 3 f_equal. exact Hf5.
          - repeat split; try assumption; reflexivity. }
        set (st3 := if save_parquet p1 then _ else _) in *.
        destruct (Hst3 st3 eq_refl) as (H1 & H2 & H3 & H4 & H5 & H6).
        destruct image_saved; cbn [fst snd store set_store emit set_log
          set_total_groups_done set_total_images_saved set_total_parts_rows
          checkpoint_mark_done set_checkpoints checkpoints vehicles parts_pages parts
          CSV_OUTPUT PARQUET_OUTPUT andb];
          apply store_ext; cbn [checkpoints vehicles parts_pages parts CSV_OUTPUT
                                PARQUET_OUTPUT];
          try assumption; try congruence;
          first [ change (parts st3 = executemany_upsert (insert_values <$> dict_rows)
                                        (parts (store p))); congruence
                | unfold checkpoint_mark_done; cbn [checkpoints set_checkpoints];
                  rewrite H1; cbn; apply insert_insert_eq ].
      * cbn. apply store_ext; cbn; try reflexivity. apply insert_insert_eq.
  - cbn. apply store_ext; cbn; try reflexivity. apply insert_insert_eq.
Qed.

End ForcedRun.

Section InsertAll.

Context `{Countable K} {A : Type}.

Lemma insert_all_union (bindings : list (K * A)) (m : gmap K A) :
  insert_all bindings m = list_to_map (reverse bindings) ∪ m.
Proof.
  unfold insert_all. revert m.
  induction bindings as [|[k a] l IH]; intros m.
  - cbn. now rewrite (left_id_L ∅ (∪)).
  - cbn [fold_left]. rewrite IH, reverse_cons, list_to_map_app. cbn.
    rewrite insert_empty, <- (assoc_L (∪)), <- insert_union_singleton_l. reflexivity.
Qed.

Lemma insert_all_idempotent (bindings : list (K * A)) (m : gmap K A) :
  insert_all bindings (insert_all bindings m) = insert_all bindings m.
Proof.
  rewrite !insert_all_union, (assoc_L (∪)), (idemp_L (∪)). reflexivity.
Qed.

Lemma insert_all_app (l1 l2 : list (K * A)) (m : gmap K A) :
  insert_all (l1 ++ l2) m = insert_all l2 (insert_all l1 m).
Proof. unfold insert_all. apply fold_left_app. Qed.

End InsertAll.

Lemma flat_map_ext_elem {A B : Type} (f g : A -> list B) (l : list A) :
  (forall a, a ∈ l -> f a = g a) -> flat_map f l = flat_map g l.
Proof.
  induction l as [|a l IH]; intros Hfg; [reflexivity|].
  cbn [flat_map]. rewrite (Hfg a) by apply list_elem_of_here.
  rewrite IH; [reflexivity|]. intros b Hb. now apply Hfg, list_elem_of_further.
Qed.

Section ForcedStore.

Variable E : Extractor.
Variable parquet : bool.

Implicit Types (vt : Vehicle.t * TableIndex.t) (L : list (Vehicle.t * TableIndex.t)).

Lemma group_batch_in_group (vehicle : Vehicle.t) (ti : TableIndex.t) :
  Forall (fun r => in_group (group_key vehicle ti) r = true) (group_batch E vehicle ti).
Proof.
  unfold group_batch.
  destruct (collect_parts E vehicle ti) as [[[parts_page part_rows] image_saved]|e];
    [|constructor].
  destruct part_rows as [|r0 rest]; [destruct parts_page; constructor|].
  destruct parts_page as [pg|]; [|constructor].
  destruct (convert_some vehicle ti pg (r0 :: rest)) as (dict_rows & -> & _ & Hall).
  apply Forall_fmap. eapply Forall_impl; [exact Hall|].
  intros d (Hk & _). cbn. unfold in_group. apply bool_decide_eq_true_2.
  exact Hk.
Qed.

Lemma group_effect_parts (st : DataStore) vt :
  parts (group_effect E parquet st vt)
  = executemany_upsert (group_batch E vt.1 vt.2) (parts st).
Proof. reflexivity. Qed.

Lemma group_effect_canonical (st : DataStore) vt :
  canonical_rows (set_parts (executemany_upsert (group_batch E vt.1 vt.2) (parts st)) st)
    vt.1 vt.2
  = canonical_rows (group_effect E parquet st vt) vt.1 vt.2.
Proof. symmetry. now apply canonical_rows_parts. Qed.

Lemma canonical_rows_filter (st st' : DataStore) (vehicle : Vehicle.t) (ti : TableIndex.t) :
  filter (fun r => in_group (group_key vehicle ti) r = true) (parts st')
  = filter (fun r => in_group (group_key vehicle ti) r = true) (parts st) ->
  canonical_rows st' vehicle ti = canonical_rows st vehicle ti.
Proof. unfold canonical_rows, _fetch_group_df, group_key. now intros ->. Qed.

Lemma group_effect_canonical_other (st : DataStore) vt vt' :
  group_key vt.1 vt.2 <> group_key vt'.1 vt'.2 ->
  canonical_rows (group_effect E parquet st vt) vt'.1 vt'.2
  = canonical_rows st vt'.1 vt'.2.
Proof.
  intros Hne. apply canonical_rows_filter. rewrite group_effect_parts.
  apply executemany_upsert_other_groups.
  eapply Forall_impl; [apply group_batch_in_group|].
  intros r Hr. cbn beta in *. unfold in_group in *.
  apply bool_decide_eq_true_1 in Hr. apply bool_decide_eq_false_2. congruence.
Qed.

Lemma effects_app L1 L2 (st : DataStore) :
  fold_left (group_effect E parquet) (L1 ++ L2) st
  = fold_left (group_effect E parquet) L2 (fold_left (group_effect E parquet) L1 st).
Proof. apply fold_left_app. Qed.

Lemma effects_parts L (st : DataStore) :
  parts (fold_left (group_effect E parquet) L st)
  = executemany_upsert (flat_map (fun vt => group_batch E vt.1 vt.2) L) (parts st).
Proof.
  revert st. induction L as [|vt L IH]; intros st; [reflexivity|].
  cbn [fold_left flat_map]. now rewrite IH, executemany_upsert_app.
Qed.

Lemma effects_checkpoints L (st : DataStore) :
  checkpoints (fold_left (group_effect E parquet) L st)
  = insert_all ((fun vt => (group_key vt.1 vt.2, group_record E vt.1 vt.2)) <$> L)
      (checkpoints st).
Proof.
  revert st. induction L as [|vt L IH]; intros st; [reflexivity|].
  cbn [fold_left fmap list_fmap]. now rewrite IH.
Qed.

Lemma effects_parts_pages L (st : DataStore) :
  parts_pages (fold_left (group_effect E parquet) L st)
  = insert_all (flat_map (fun vt => group_page E vt.1 vt.2) L) (parts_pages st).
Proof.
  revert st. induction L as [|vt L IH]; intros st; [reflexivity|].
  cbn [fold_left flat_map]. now rewrite IH, insert_all_app.
Qed.

Lemma effects_vehicles L (st : DataStore) :
  vehicles (fold_left (group_effect E parquet) L st) = vehicles st.
Proof.
  revert st. induction L as [|vt L IH]; intros st; [reflexivity|].
  cbn [fold_left]. now rewrite IH.
Qed.

Lemma effects_canonical_other L (st : DataStore) vt' :
  group_key vt'.1 vt'.2 ∉ (fun vt => group_key vt.1 vt.2) <$> L ->
  canonical_rows (fold_left (group_effect E parquet) L st) vt'.1 vt'.2
  = canonical_rows st vt'.1 vt'.2.
Proof.
  revert st. induction L as [|vt L IH]; intros st Hnot; [reflexivity|].
  rewrite fmap_cons, not_elem_of_cons in Hnot. destruct Hnot as [Hne Hnot].
  cbn [fold_left]. rewrite IH by exact Hnot.
  apply group_effect_canonical_other. congruence.
Qed.

Lemma csv_effect (st : DataStore) vt :
  CSV_OUTPUT (group_effect E parquet st vt)
  = if group_materialized E vt.1 vt.2 && true
    then Some (filter (fun r => row_key r <> group_key vt.1 vt.2)
                 (read_row <$> default [] (CSV_OUTPUT st))
               ++ canonical_rows (group_effect E parquet st vt) vt.1 vt.2)
    else CSV_OUTPUT st.
Proof.
  cbn [group_effect CSV_OUTPUT]. rewrite andb_true_r.
  rewrite <- (group_effect_canonical st vt).
  unfold rows_of_other_groups, read_csv. now destruct (CSV_OUTPUT st).
Qed.

Lemma parquet_effect (st : DataStore) vt :
  PARQUET_OUTPUT (group_effect E parquet st vt)
  = if group_materialized E vt.1 vt.2 && parquet
    then Some (filter (fun r => row_key r <> group_key vt.1 vt.2)
                 (id <$> default [] (PARQUET_OUTPUT st))
               ++ canonical_rows (group_effect E parquet st vt) vt.1 vt.2)
    else PARQUET_OUTPUT st.
Proof. rewrite list_fmap_id. reflexivity. Qed.

(** One of the two shards, whether it is written, and how a row of it is
    read back before the shard is rewritten: through the CSV reader, or as
    it is for Parquet. *)
Section Shard.

Variable shard : DataStore -> option (list Row.t).
Variable on : bool.
Variable rd : Row.t -> Row.t.
Variable good : Key -> Prop.
Hypothesis rd_idem : forall r, rd (rd r) = rd r.
Hypothesis rd_key : forall r, good (row_key r) -> row_key (rd r) = row_key r.
Hypothesis shard_effect : forall st vt,
  shard (group_effect E parquet st vt)
  = if group_materialized E vt.1 vt.2 && on
    then Some (filter (fun r => row_key r <> group_key vt.1 vt.2)
                 (rd <$> default [] (shard st))
               ++ canonical_rows (group_effect E parquet st vt) vt.1 vt.2)
    else shard st.

Let written L := filter (fun vt => group_materialized E vt.1 vt.2 && on = true) L.

Lemma rd_filter_fixed (P : Row.t -> Prop) `{!forall r, Decision (P r)} (l : list Row.t) :
  rd <$> filter P (rd <$> l) = filter P (rd <$> l).
Proof.
  apply fmap_fixed, Forall_forall. intros r Hr.
  apply list_elem_of_filter in Hr as [_ Hr].
  apply list_elem_of_fmap in Hr as (x & -> & _). apply rd_idem.
Qed.

Lemma rd_canonical_key (st : DataStore) vt (r : Row.t) :
  good (group_key vt.1 vt.2) ->
  r ∈ rd <$> canonical_rows st vt.1 vt.2 -> row_key r = group_key vt.1 vt.2.
Proof.
  intros Hgood Hr. apply list_elem_of_fmap in Hr as (x & -> & Hx).
  pose proof (canonical_rows_key vt.1 vt.2 st) as Hkeys.
  rewrite Forall_forall in Hkeys. specialize (Hkeys x Hx).
  rewrite rd_key; [exact Hkeys | now rewrite Hkeys].
Qed.

Lemma effects_shard_unwritten L (st : DataStore) :
  written L = [] -> shard (fold_left (group_effect E parquet) L st) = shard st.
Proof.
  unfold written. revert st. induction L as [|vt L IH]; intros st Hw; [reflexivity|].
  cbn [fold_left].
  destruct (group_materialized E vt.1 vt.2 && on) eqn:Hm.
  - rewrite filter_cons_True in Hw by exact Hm. discriminate.
  - rewrite filter_cons_False in Hw by congruence.
    rewrite IH by exact Hw. now rewrite shard_effect, Hm.
Qed.

Lemma effects_shard_written L (st : DataStore) :
  written L <> [] -> is_Some (shard (fold_left (group_effect E parquet) L st)).
Proof.
  unfold written. induction L as [|vt L IH] using rev_ind; intros Hw; [contradiction|].
  rewrite effects_app. cbn [fold_left]. rewrite shard_effect.
  destruct (group_materialized E vt.1 vt.2 && on) eqn:Hm; [now eexists|].
  apply IH. rewrite list.filter_app, (filter_cons_False _ vt []) in Hw by congruence.
  now rewrite filter_nil, app_nil_r in Hw.
Qed.

(** The shard after the groups of [L], as it is read back. *)
Lemma effects_shard_rows L (st : DataStore) :
  NoDup ((fun vt => group_key vt.1 vt.2) <$> L) ->
  Forall good ((fun vt => group_key vt.1 vt.2) <$> L) ->
  let st' := fold_left (group_effect E parquet) L st in
  rd <$> default [] (shard st')
  = filter (fun r => row_key r ∉ (fun vt => group_key vt.1 vt.2) <$> written L)
      (rd <$> default [] (shard st))
    ++ flat_map (fun vt => rd <$> canonical_rows st' vt.1 vt.2) (written L).
Proof.
  cbn zeta. unfold written. induction L as [|vt L IH] using rev_ind; intros Hnd Hgood.
  - cbn. rewrite app_nil_r. symmetry. apply filter_all.
    apply Forall_forall. intros r _. apply not_elem_of_nil.
  - rewrite fmap_app in Hnd, Hgood. apply NoDup_app in Hnd as (Hnd & Hdisj & _).
    apply Forall_app in Hgood as [Hgood _].
    assert (Hfresh : group_key vt.1 vt.2 ∉ (fun vt => group_key vt.1 vt.2) <$> L).
    { intros Hin. apply (Hdisj _ Hin). cbn. apply list_elem_of_here. }
    specialize (IH Hnd Hgood).
    rewrite effects_app. cbn [fold_left].
    set (S' := fold_left (group_effect E parquet) L st) in *.
    set (S := group_effect E parquet S' vt).
    set (W := filter (fun vt => group_materialized E vt.1 vt.2 && on = true) L) in *.
    assert (HW : forall vt', vt' ∈ W -> vt' ∈ L)
      by (intros vt' Hin; now apply list_elem_of_filter in Hin as [_ Hin]).
    assert (Hcanon : flat_map (fun vt0 => rd <$> canonical_rows S vt0.1 vt0.2) W
                     = flat_map (fun vt0 => rd <$> canonical_rows S' vt0.1 vt0.2) W).
    { apply flat_map_ext_elem. intros vt' Hin. f_equal.
      apply group_effect_canonical_other. intros Heq. apply Hfresh.
      rewrite Heq. apply list_elem_of_fmap. exists vt'. split; [reflexivity|].
      now apply HW. }
    rewrite list.filter_app. unfold S at 1. rewrite shard_effect. fold S.
    destruct (group_materialized E vt.1 vt.2 && on) eqn:Hm.
    + rewrite (filter_cons_True _ vt []) by exact Hm. rewrite filter_nil.
      cbn [default from_option id].
      rewrite fmap_app, rd_filter_fixed.
      rewrite IH, list.filter_app, flat_map_app, fmap_app. cbn [flat_map fmap list_fmap].
      fold W. rewrite app_nil_r, Hcanon, <- app_assoc. f_equal; [|f_equal].
      * rewrite list.list_filter_filter. apply list.list_filter_iff.
        intros r. rewrite elem_of_app, list_elem_of_singleton. tauto.
      * apply filter_all. apply Forall_forall. intros r Hr.
        apply list_elem_of_In, in_flat_map in Hr as (vt' & Hin & Hr).
        apply list_elem_of_In in Hin, Hr.
        assert (Hgood' : good (group_key vt'.1 vt'.2)).
        { rewrite Forall_forall in Hgood. apply Hgood.
          apply list_elem_of_fmap. exists vt'. split; [reflexivity | now apply HW]. }
        rewrite (rd_canonical_key S' vt' r Hgood' Hr).
        intros Heq. apply Hfresh. rewrite <- Heq.
        apply list_elem_of_fmap. exists vt'. split; [reflexivity | now apply HW].
    + rewrite (filter_cons_False _ vt []) by congruence.
      rewrite filter_nil, !app_nil_r. fold W. rewrite IH, Hcanon. reflexivity.
Qed.

Lemma last_written L :
  written L <> [] ->
  exists L1 w L2,
    L = L1 ++ w :: L2 /\ group_materialized E w.1 w.2 && on = true /\ written L2 = [].
Proof.
  unfold written. induction L as [|x L IH] using rev_ind; intros Hw; [contradiction|].
  destruct (group_materialized E x.1 x.2 && on) eqn:Hm.
  - exists L, x, []. now repeat split.
  - rewrite list.filter_app, (filter_cons_False _ x []), filter_nil, app_nil_r in Hw
      by congruence.
    destruct (IH Hw) as (L1 & w & L2 & -> & Hwm & HL2).
    exists L1, w, (L2 ++ [x]). rewrite <- app_assoc. split; [reflexivity|].
    split; [exact Hwm|].
    rewrite list.filter_app, HL2, (filter_cons_False _ x []) by congruence.
    reflexivity.
Qed.

Lemma written_split L1 w L2 :
  group_materialized E w.1 w.2 && on = true -> written L2 = [] ->
  written (L1 ++ w :: L2) = written L1 ++ [w].
Proof.
  unfold written. intros Hwm HL2.
  now rewrite list.filter_app, filter_cons_True, HL2 by exact Hwm.
Qed.

(** The shard as it is written: the group rewritten last stands at the end
    as it was fetched, after what was read back for the rewrite. *)
Lemma effects_shard_raw L1 w L2 (st : DataStore) :
  NoDup ((fun vt => group_key vt.1 vt.2) <$> L1 ++ w :: L2) ->
  Forall good ((fun vt => group_key vt.1 vt.2) <$> L1 ++ w :: L2) ->
  group_materialized E w.1 w.2 && on = true -> written L2 = [] ->
  let st' := fold_left (group_effect E parquet) (L1 ++ w :: L2) st in
  shard st'
  = Some (filter (fun r => row_key r ∉ (fun vt => group_key vt.1 vt.2)
                                          <$> written (L1 ++ w :: L2))
            (rd <$> default [] (shard st))
          ++ flat_map (fun vt => rd <$> canonical_rows st' vt.1 vt.2) (written L1)
          ++ canonical_rows st' w.1 w.2).
Proof.
  intros Hnd Hgood Hwm HL2. cbn zeta.
  rewrite (written_split L1 w L2 Hwm HL2).
  rewrite effects_app. cbn [fold_left].
  set (S1 := fold_left (group_effect E parquet) L1 st).
  set (Sw := group_effect E parquet S1 w).
  rewrite (effects_shard_unwritten L2 Sw HL2).
  rewrite fmap_app in Hnd, Hgood. apply NoDup_app in Hnd as (Hnd1 & Hdisj & Hnd2).
  apply Forall_app in Hgood as [Hgood1 _].
  cbn [fmap list_fmap] in Hdisj, Hnd2. apply NoDup_cons in Hnd2 as [Hw2 _].
  assert (HW : forall vt', vt' ∈ written L1 -> vt' ∈ L1)
    by (intros vt' Hin; now apply list_elem_of_filter in Hin as [_ Hin]).
  assert (Hcw : canonical_rows (fold_left (group_effect E parquet) L2 Sw) w.1 w.2
                = canonical_rows Sw w.1 w.2)
    by now apply effects_canonical_other.
  assert (Hc1 : flat_map (fun vt => rd <$> canonical_rows
                                      (fold_left (group_effect E parquet) L2 Sw)
                                      vt.1 vt.2) (written L1)
                = flat_map (fun vt => rd <$> canonical_rows S1 vt.1 vt.2) (written L1)).
  { apply flat_map_ext_elem. intros vt' Hin. f_equal.
    change (fold_left (group_effect E parquet) L2 Sw)
      with (fold_left (group_effect E parquet) (w :: L2) S1).
    apply effects_canonical_other. intros Hin'.
    apply (Hdisj (group_key vt'.1 vt'.2)); [|exact Hin'].
    apply list_elem_of_fmap. exists vt'. split; [reflexivity | now apply HW]. }
  rewrite Hcw, Hc1. unfold Sw at 1. rewrite shard_effect, Hwm. fold Sw.
  f_equal. rewrite app_assoc. f_equal.
  pose proof (effects_shard_rows L1 st Hnd1 Hgood1) as Hrows. cbn zeta in Hrows.
  fold S1 in Hrows. rewrite Hrows, list.filter_app, list.list_filter_filter.
  f_equal.
  - apply list.list_filter_iff. intros r. rewrite fmap_app, elem_of_app.
    cbn [fmap list_fmap]. rewrite list_elem_of_singleton. tauto.
  - apply filter_all. apply Forall_forall. intros r Hr.
    apply list_elem_of_In, in_flat_map in Hr as (vt' & Hin & Hr).
    apply list_elem_of_In in Hin, Hr.
    assert (Hin1 : group_key vt'.1 vt'.2 ∈ (fun vt => group_key vt.1 vt.2) <$> L1).
    { apply list_elem_of_fmap. exists vt'. split; [reflexivity | now apply HW]. }
    assert (Hgood' : good (group_key vt'.1 vt'.2)).
    { rewrite Forall_forall in Hgood1. now apply Hgood1. }
    rewrite (rd_canonical_key S1 vt' r Hgood' Hr).
    intros Heq. apply (Hdisj _ Hin1). rewrite Heq. apply list_elem_of_here.
Qed.

(** Working on the same groups again leaves the shard as it was. *)
Lemma effects_shard_again L (st : DataStore) :
  NoDup ((fun vt => group_key vt.1 vt.2) <$> L) ->
  Forall good ((fun vt => group_key vt.1 vt.2) <$> L) ->
  let st1 := fold_left (group_effect E parquet) L st in
  parts (fold_left (group_effect E parquet) L st1) = parts st1 ->
  shard (fold_left (group_effect E parquet) L st1) = shard st1.
Proof.
  intros Hnd Hgood st1 Hparts.
  destruct (written L) as [|w0 ws] eqn:Hw0.
  - now apply effects_shard_unwritten.
  - assert (Hne : written L <> []) by (rewrite Hw0; discriminate).
    clear Hw0 w0 ws.
    destruct (last_written L Hne) as (L1 & w & L2 & HL & Hwm & HL2). subst L.
    pose proof (effects_shard_rows _ st Hnd Hgood) as Hview. cbn zeta in Hview.
    pose proof (effects_shard_raw L1 w L2 st Hnd Hgood Hwm HL2) as Hraw.
    cbn zeta in Hraw. fold st1 in Hview, Hraw.
    assert (Hcanon : forall vt,
               canonical_rows (fold_left (group_effect E parquet) (L1 ++ w :: L2) st1)
                 vt.1 vt.2
               = canonical_rows st1 vt.1 vt.2).
    { intros vt. now apply canonical_rows_parts. }
    rewrite (effects_shard_raw L1 w L2 st1 Hnd Hgood Hwm HL2).
    rewrite Hcanon.
    rewrite (flat_map_ext _ _ (fun vt => f_equal (fmap rd) (Hcanon vt))).
    rewrite Hview, Hraw. f_equal. f_equal.
    rewrite list.filter_app, list.list_filter_filter.
    rewrite (filter_none _ (flat_map _ _)).
    + rewrite app_nil_r. apply list.list_filter_iff. intros r. tauto.
    + apply Forall_forall. intros r Hr Hnot.
      apply list_elem_of_In, in_flat_map in Hr as (vt' & Hin & Hr).
      apply list_elem_of_In in Hin, Hr.
      assert (Hin' : group_key vt'.1 vt'.2
                     ∈ (fun vt => group_key vt.1 vt.2) <$> written (L1 ++ w :: L2)).
      { apply list_elem_of_fmap. now exists vt'. }
      assert (Hgood' : good (group_key vt'.1 vt'.2)).
      { rewrite Forall_forall in Hgood. apply Hgood.
        apply list_elem_of_fmap. exists vt'. split; [reflexivity|].
        now apply list_elem_of_filter in Hin as [_ Hin]. }
      rewrite (rd_canonical_key st1 vt' r Hgood' Hr) in Hnot. now apply Hnot.
Qed.

End Shard.

Lemma effects_again L (st : DataStore) :
  unique_identities (parts st) ->
  NoDup ((fun vt => group_key vt.1 vt.2) <$> L) ->
  Forall readable_key ((fun vt => group_key vt.1 vt.2) <$> L) ->
  let st1 := fold_left (group_effect E parquet) L st in
  fold_left (group_effect E parquet) L st1 = st1.
Proof.
  intros Hu Hnd Hread st1.
  assert (Hparts : parts (fold_left (group_effect E parquet) L st1) = parts st1).
  { unfold st1. rewrite !effects_parts. now apply executemany_upsert_idempotent. }
  apply store_ext.
  - unfold st1. rewrite !effects_checkpoints. apply insert_all_idempotent.
  - unfold st1. now rewrite !effects_vehicles.
  - unfold st1. rewrite !effects_parts_pages. apply insert_all_idempotent.
  - exact Hparts.
  - apply (effects_shard_again CSV_OUTPUT true read_row readable_key
             read_row_idempotent row_key_read_row);
      [|exact Hnd | exact Hread | exact Hparts].
    apply csv_effect.
  - apply (effects_shard_again PARQUET_OUTPUT parquet id (fun _ => True));
      [reflexivity | reflexivity | | exact Hnd | | exact Hparts].
    + apply parquet_effect.
    + apply Forall_forall. intros k _. exact I.
Qed.

End ForcedStore.

Section ForcedPipeline.

Variable E : Extractor.

Lemma forced_groups_store (vehicle : Vehicle.t) (indices : list TableIndex.t)
    (p : ScrapingPipeline) :
  force_reprocess p = true ->
  store (process_groups E vehicle p indices)
  = fold_left (group_effect E (save_parquet p)) ((fun ti => (vehicle, ti)) <$> indices)
      (store p).
Proof.
  unfold process_groups. revert p.
  induction indices as [|ti rest IH]; intros p Hf; [reflexivity|].
  cbn [fold_left fmap list_fmap].
  pose proof (process_group_frame E vehicle p ti) as (Hforce & Hpq & _).
  cbn zeta in Hforce, Hpq.
  rewrite IH by congruence. rewrite Hpq. f_equal.
  now apply process_group_effect.
Qed.

Lemma forced_vehicle_store (p : ScrapingPipeline) (vehicle : Vehicle.t) :
  force_reprocess p = true ->
  let p' := process_vehicle DataStore_methods E p vehicle in
  force_reprocess p' = true /\ save_parquet p' = save_parquet p
  /\ store p' = fold_left (group_effect E (save_parquet p)) (run_pairs E [vehicle])
                  (store p).
Proof.
  intros Hf. cbn zeta. unfold process_vehicle, run_pairs. cbn [flat_map].
  rewrite app_nil_r.
  assert (Hafter : forall q,
             force_reprocess q = true -> save_parquet q = save_parquet p ->
             force_reprocess (_after_vehicle DataStore_methods q
                                (Vehicle.vehicle_id vehicle)) = true
             /\ save_parquet (_after_vehicle DataStore_methods q
                                (Vehicle.vehicle_id vehicle)) = save_parquet p
             /\ store (_after_vehicle DataStore_methods q (Vehicle.vehicle_id vehicle))
                = store q).
  { intros q Hq1 Hq2.
    pose proof (after_vehicle_frame DataStore_methods q (Vehicle.vehicle_id vehicle))
      as (H1 & H2 & _).
    cbn zeta in H1, H2. rewrite H1, H2, after_vehicle_store. now repeat split. }
  destruct (collect_indices E vehicle) as [[|ti rest]|e].
  - apply Hafter; [exact Hf | reflexivity].
  - unfold vehicle_gate. rewrite Hf.
    set (q := set_total_groups_seen _ p).
    pose proof (process_groups_frame E vehicle q (ti :: rest)) as (H1 & H2 & _).
    cbn zeta in H1, H2.
    destruct (Hafter (process_groups E vehicle q (ti :: rest))) as (H3 & H4 & H5);
      [now rewrite H1 | now rewrite H2|].
    split; [exact H3|]. split; [exact H4|]. rewrite H5.
    now rewrite (forced_groups_store vehicle (ti :: rest) q Hf).
  - apply Hafter; [exact Hf | reflexivity].
Qed.

Lemma run_pairs_cons (vehicle : Vehicle.t) (vehicles : list Vehicle.t) :
  run_pairs E (vehicle :: vehicles) = run_pairs E [vehicle] ++ run_pairs E vehicles.
Proof. unfold run_pairs. cbn [flat_map]. now rewrite app_nil_r. Qed.

Lemma forced_vehicles_store (vehicles : list Vehicle.t) (p : ScrapingPipeline) :
  force_reprocess p = true ->
  store (_process_vehicles DataStore_methods E p vehicles)
  = fold_left (group_effect E (save_parquet p)) (run_pairs E vehicles) (store p).
Proof.
  unfold _process_vehicles. revert p.
  induction vehicles as [|v vs IH]; intros p Hf; [reflexivity|].
  cbn [fold_left].
  destruct (forced_vehicle_store p v Hf) as (H1 & H2 & H3).
  rewrite IH by exact H1. rewrite H2, H3, (run_pairs_cons v vs), fold_left_app.
  reflexivity.
Qed.

Lemma save_vehicles_set (vehicles0 : list Vehicle.t) (st : DataStore) :
  fold_left save_vehicle vehicles0 st
  = set_vehicles (insert_all ((fun v => (Vehicle.vehicle_id v, v)) <$> vehicles0)
                    (vehicles st)) st.
Proof.
  revert st. induction vehicles0 as [|v vs IH]; intros st; [now destruct st|].
  cbn [fold_left fmap list_fmap]. now rewrite IH.
Qed.

Lemma effects_set_vehicles (parquet : bool) (L : list (Vehicle.t * TableIndex.t))
    (table : gmap string Vehicle.t) (st : DataStore) :
  fold_left (group_effect E parquet) L (set_vehicles table st)
  = set_vehicles table (fold_left (group_effect E parquet) L st).
Proof.
  revert st. induction L as [|vt L IH]; intros st; [reflexivity|].
  cbn [fold_left]. rewrite <- IH. reflexivity.
Qed.

Lemma forced_main_store (C : Catalogue) (parquet : bool) (catalog_url : string)
    (st : DataStore) (listed : list Vehicle.t) :
  collect_vehicles C catalog_url = Ok listed ->
  store (main DataStore_methods E C true parquet catalog_url st).1
  = fold_left (group_effect E parquet) (run_pairs E listed)
      (fold_left save_vehicle listed st).
Proof.
  intros Hcv. unfold main, run. rewrite Hcv. cbn [fst].
  now rewrite forced_vehicles_store.
Qed.

End ForcedPipeline.

(** X24.  A forced run repeated on its own result changes nothing.  When
    the listing and the extraction return the same as before, no work unit
    is discovered twice in a run and no column of the key of a work unit is
    spelled as an NA marker of the CSV reader, the store after the second
    forced run (checkpoints, vehicles, page metadata, canonical rows, CSV
    shard and Parquet shard, rows and their order) is the store after the
    first. *)
Theorem forced_rerun_idempotent (E : Extractor) (C : Catalogue) (parquet : bool)
    (catalog_url : string) (st : DataStore) (listed : list Vehicle.t) :
  collect_vehicles C catalog_url = Ok listed ->
  unique_identities (parts st) ->
  NoDup (run_keys E listed) ->
  Forall readable_key (run_keys E listed) ->
  let st1 := store (main DataStore_methods E C true parquet catalog_url st).1 in
  store (main DataStore_methods E C true parquet catalog_url st1).1 = st1.
Proof.
  intros Hcv Hu Hnd Hread. cbn zeta.
  rewrite !(forced_main_store E C parquet catalog_url _ listed Hcv).
  set (L := run_pairs E listed).
  rewrite (save_vehicles_set listed st).
  set (st' := set_vehicles _ st).
  set (S := fold_left (group_effect E parquet) L st').
  assert (HS : fold_left save_vehicle listed S = S).
  { rewrite save_vehicles_set.
    assert (Hv : vehicles S = vehicles st')
      by (unfold S; now rewrite effects_vehicles).
    rewrite Hv. unfold st' at 1. cbn [vehicles set_vehicles].
    rewrite insert_all_idempotent.
    change (set_vehicles (vehicles st') S = S). rewrite <- Hv. now destruct S. }
  rewrite HS.
  apply (effects_again E parquet L st'); [exact Hu | exact Hnd | exact Hread].
Qed.

Lemma forced_rerun_idempotent_witness :
  let st1 := store (main DataStore_methods PipelineExample.E PipelineExample.catalogue
                         true true "http://x" empty_store).1 in
  store (main DataStore_methods PipelineExample.E PipelineExample.catalogue
              true true "http://x" st1).1 = st1.
Proof.
  assert (Hcv : exists listed,
             collect_vehicles PipelineExample.catalogue "http://x" = Ok listed
             /\ NoDup (run_keys PipelineExample.E listed)
             /\ Forall readable_key (run_keys PipelineExample.E listed)).
  { eexists. split; [vm_compute; reflexivity|]. split.
    - vm_compute.
      repeat (apply NoDup_cons; split;
              [rewrite ?elem_of_cons, elem_of_nil; intros H; intuition discriminate|]).
      apply NoDup_nil. exact I.
    - unfold readable_key, readable. vm_compute. repeat constructor. }
  destruct Hcv as (listed & Hcv & Hnd & Hread).
  apply (forced_rerun_idempotent PipelineExample.E PipelineExample.catalogue true
           "http://x" empty_store listed Hcv); [|exact Hnd | exact Hread].
  apply NoDup_nil. exact I.
Defined.

(** X25.  The CSV shard after a forced run in which no work unit is
    discovered twice and no column of the key of a work unit is spelled as
    an NA marker of the CSV reader.  As it is read back, the shard is: the
    rows it held, read back, for the groups that were not rewritten, in
    their old order, followed by the canonical rows, read back, of each
    group that was rewritten (one whose extraction returned a page and
    rows), in processing order.  As it is written, the shard is the same
    with the canonical rows of the group rewritten last as they were
    fetched.  When no group is rewritten the shard is left as it was, absent
    if it was absent. *)
Theorem forced_run_shard (E : Extractor) (C : Catalogue) (parquet : bool)
    (catalog_url : string) (st : DataStore) (listed : list Vehicle.t) :
  collect_vehicles C catalog_url = Ok listed ->
  NoDup (run_keys E listed) ->
  Forall readable_key (run_keys E listed) ->
  let st1 := store (main DataStore_methods E C true parquet catalog_url st).1 in
  let rewritten := fun L : list (Vehicle.t * TableIndex.t) =>
    filter (fun vt => group_materialized E vt.1 vt.2 = true) L in
  let kept :=
    filter (fun r => row_key r ∉ (fun vt => group_key vt.1 vt.2)
                                    <$> rewritten (run_pairs E listed))
      (read_csv (default [] (CSV_OUTPUT st))) in
  read_csv (default [] (CSV_OUTPUT st1))
  = kept ++ flat_map (fun vt => read_csv (canonical_rows st1 vt.1 vt.2))
              (rewritten (run_pairs E listed))
  /\ (forall L1 w L2,
        run_pairs E listed = L1 ++ w :: L2 ->
        group_materialized E w.1 w.2 = true -> rewritten L2 = [] ->
        CSV_OUTPUT st1
        = Some (kept
                ++ flat_map (fun vt => read_csv (canonical_rows st1 vt.1 vt.2))
                     (rewritten L1)
                ++ canonical_rows st1 w.1 w.2))
  /\ (rewritten (run_pairs E listed) = [] -> CSV_OUTPUT st1 = CSV_OUTPUT st)
  /\ (rewritten (run_pairs E listed) <> [] -> is_Some (CSV_OUTPUT st1)).
Proof.
  intros Hcv Hnd Hread. cbn zeta.
  rewrite (forced_main_store E C parquet catalog_url _ listed Hcv).
  unfold run_keys in Hnd, Hread.
  set (st0 := fold_left save_vehicle listed st).
  assert (Hw : forall L : list (Vehicle.t * TableIndex.t),
             filter (fun vt => group_materialized E vt.1 vt.2 && true = true) L
             = filter (fun vt => group_materialized E vt.1 vt.2 = true) L).
  { intros L. apply list.list_filter_iff. intros vt. now rewrite andb_true_r. }
  assert (Hcsv0 : CSV_OUTPUT st0 = CSV_OUTPUT st)
    by (unfold st0; now rewrite save_vehicles_set).
  pose proof (effects_shard_rows E parquet CSV_OUTPUT true read_row readable_key
                read_row_idempotent row_key_read_row (csv_effect E parquet)
                (run_pairs E listed) st0 Hnd Hread) as Hrows.
  pose proof (effects_shard_unwritten E parquet CSV_OUTPUT true read_row
                (csv_effect E parquet) (run_pairs E listed) st0) as Hnone.
  pose proof (effects_shard_written E parquet CSV_OUTPUT true read_row
                (csv_effect E parquet) (run_pairs E listed) st0) as Hsome.
  cbv beta zeta in Hrows, Hnone, Hsome. rewrite Hw in Hrows, Hnone, Hsome.
  rewrite Hcsv0 in Hrows, Hnone.
  split; [exact Hrows|]. split; [|split; assumption].
  intros L1 w L2 HL Hm HL2. rewrite HL in Hnd, Hread |- *.
  assert (Hm' : group_materialized E w.1 w.2 && true = true) by now rewrite andb_true_r.
  rewrite <- Hw in HL2.
  pose proof (effects_shard_raw E parquet CSV_OUTPUT true read_row readable_key
                read_row_idempotent row_key_read_row (csv_effect E parquet)
                L1 w L2 st0 Hnd Hread Hm' HL2) as Hraw.
  cbv beta zeta in Hraw. rewrite !Hw, Hcsv0 in Hraw. exact Hraw.
Qed.

Lemma forced_run_shard_witness :
  let st1 := store (main DataStore_methods PipelineExample.E PipelineExample.catalogue
                         true false "http://x" MaterializeExample.st).1 in
  is_Some (CSV_OUTPUT st1).
Proof.
  assert (Hcv : exists listed,
             collect_vehicles PipelineExample.catalogue "http://x" = Ok listed
             /\ NoDup (run_keys PipelineExample.E listed)
             /\ Forall readable_key (run_keys PipelineExample.E listed)
             /\ filter (fun vt => group_materialized PipelineExample.E vt.1 vt.2 = true)
                  (run_pairs PipelineExample.E listed) <> []).
  { eexists. split; [vm_compute; reflexivity|]. split; [|split].
    - vm_compute.
      repeat (apply NoDup_cons; split;
              [rewrite ?elem_of_cons, elem_of_nil; intros H; intuition discriminate|]).
      apply NoDup_nil. exact I.
    - unfold readable_key, readable. vm_compute. repeat constructor.
    - vm_compute. discriminate. }
  destruct Hcv as (listed & Hcv & Hnd & Hread & Hw).
  destruct (forced_run_shard PipelineExample.E PipelineExample.catalogue false
              "http://x" MaterializeExample.st listed Hcv Hnd Hread) as (_ & _ & _ & Hsome).
  exact (Hsome Hw).
Defined.
